(** * NRT conservancies dashboard: a shallow embedding of [src/App.jsx]

    The dashboard is one React component tree ([App] with a conditional
    [SidePanel]) wired to a Leaflet map and to [fetch].  The embedding keeps
    the component state, the refs and the part of the browser the handlers
    talk to (layer styles, timers, network requests) in one record and turns
    every handler and effect of the source into a function on that record.

    Strings are Rocq strings.  The string methods of the browser that the
    component calls on region names work on all of Unicode; they are not
    defined here but taken from the host, as [localeCompare] is.  The
    [<GeoJSON>] element of react-leaflet is library code: it is taken to
    build one layer per feature, in order, handing each to [onEachFeature],
    when the collection arrives; what the library constructs again on later
    renders is outside the embedding.  *)

From Stdlib Require Import ZArith QArith Ascii String List Sorted Permutation Lia.
From stdpp Require Import base option list strings gmap countable.

Local Open Scope string_scope.
Local Open Scope list_scope.

(** ** JavaScript values used by the component *)

(** [Boolean(v)] for a value that is [undefined]/[null] or a string. *)
Definition truthy (v : option string) : bool :=
  match v with
  | Some s => negb (String.eqb s "")
  | None => false
  end.

(** [v || ""] *)
Definition orEmpty (v : option string) : string :=
  match v with
  | Some s => s
  | None => ""
  end.

(** ** String methods of the host

    [String.prototype.trim], [String.prototype.toLowerCase] and
    [String.prototype.replace] with the pattern [/\s+/g] and the replacement
    [" "] are built-ins of the browser, defined on all of Unicode.  The
    component is a client of them. *)
Class StringMethods := {
  trim : string -> string;
  toLowerCase : string -> string;
  replaceSpaces : string -> string
}.

(** ** [normalizeName]  (App.jsx:166)

    [(s || "").toString().trim().toLowerCase().replace(/\s+/g, " ")];
    the callers hand over [s || ""]. *)
Definition normalizeName {host : StringMethods} (s : string) : string :=
  replaceSpaces (toLowerCase (trim s)).

(** [activeTabId.toUpperCase()]  (App.jsx:81).  The active tab id is one of
    the ids of [TAB_CONFIG], which are ASCII lower case letters. *)
Definition toUpperChar (c : ascii) : ascii :=
  let n := nat_of_ascii c in
  if Nat.leb 97 n && Nat.leb n 122 then ascii_of_nat (n - 32) else c.

Definition toUpperCase (s : string) : string :=
  string_of_list_ascii (map toUpperChar (list_ascii_of_string s)).

(** ** The boundary collection *)

Record Properties := mkProperties { NAME : option string }.

(** A Leaflet layer object.  The handlers test for the methods they call
    ([if (layer.setStyle)], [if (layer.getBounds)], ...), because the objects
    built by [L.geoJSON] differ: a polygon is a path with all four methods, a
    marker has none of them. *)
Record Layer := mkLayer {
  layer_id : nat;
  has_setStyle : bool;
  has_bringToFront : bool;
  has_bringToBack : bool;
  has_getBounds : bool
}.

(** A GeoJSON feature.  [properties] may be [null].  [drawable] stands for the
    feature's geometry: it is the layer object that [L.geoJSON] builds from it
    and hands to [onEachFeature]. *)
Record Feature := mkFeature {
  properties : option Properties;
  drawable : Layer
}.

(** The parsed boundary document; [features] may be missing. *)
Record GeoJSON := mkGeoJSON { features : option (list Feature) }.

#[global] Instance Layer_eq_dec : EqDecision Layer.
Proof. solve_decision. Defined.

#[global] Instance Layer_countable : Countable Layer.
Proof.
  refine (inj_countable'
    (fun l => (layer_id l, has_setStyle l, has_bringToFront l,
               has_bringToBack l, has_getBounds l))
    (fun t => match t with (i, a, b, c, d) => mkLayer i a b c d end) _).
  intros []; reflexivity.
Defined.

(** ** Region name list  (App.jsx:151-162) *)

(** [a.indexOf(v)] on an array of strings: index of the first strictly equal
    element. *)
Fixpoint indexOf (a : list string) (v : string) : option nat :=
  match a with
  | [] => None
  | x :: r => if String.eqb x v then Some 0
              else match indexOf r v with
                   | Some i => Some (S i)
                   | None => None
                   end
  end.

(** [a.filter((v, i, a) => a.indexOf(v) === i)], scanning from index [i]. *)
Fixpoint filterFirstFrom (a : list string) (i : nat) (l : list string)
  : list string :=
  match l with
  | [] => []
  | v :: r =>
      let rest := filterFirstFrom a (S i) r in
      match indexOf a v with
      | Some j => if Nat.eqb j i then v :: rest else rest
      | None => rest
      end
  end.

Definition filterFirst (a : list string) : list string :=
  filterFirstFrom a 0 a.

(** [.map(f => f.properties && f.properties.NAME)] *)
Definition featureName (f : Feature) : option string :=
  match properties f with
  | Some p => NAME p
  | None => None
  end.

(** [.filter(Boolean)] keeps the truthy entries, which are strings. *)
Fixpoint filterBoolean (l : list (option string)) : list string :=
  match l with
  | [] => []
  | v :: r => if truthy v then orEmpty v :: filterBoolean r
              else filterBoolean r
  end.

(** ** Styles  (App.jsx:124-138) *)

Record PathStyle := mkPathStyle {
  fillColor : string;
  color : string;
  weight : Z;
  opacity : Q;
  fillOpacity : Q
}.

Definition highlightStyle : PathStyle :=
  mkPathStyle "#00ccff" "#0077cc" 4 1 0.6.

Definition conservancyStyle : PathStyle :=
  mkPathStyle "#ffcc00" "#ff6600" 2 0.8 0.4.

(** ** Side panel  (App.jsx:11-110) *)

Record Tab := mkTab { tab_id : string; tab_label : string; tab_suffix : string }.

Definition TAB_CONFIG : list Tab :=
  [ mkTab "fc" "Fractional Cover" "_GroundCover";
    mkTab "ndvi" "NDVI" "_NDVI";
    mkTab "rain" "Rainfall" "_Rainfall" ].

(** A chart document in the charting library's exchange format: traces, a
    layout and optional animation frames, all opaque to the dashboard. *)
Record Figure := mkFigure {
  fig_data : string;
  fig_layout : string;
  fig_frames : option string
}.

(** The [useState] cells of one mounted [SidePanel]; [mountId] tells the
    mounted instances apart, so that a continuation of an unmounted instance
    can be recognised. *)
Record SidePanel := mkSidePanel {
  mountId : nat;
  activeTabId : string;
  figure : option Figure;
  loading : bool;
  error : bool
}.

(** What the content area shows  (App.jsx:81-106): the loading line with
    the upper-cased tab id, the data-not-found block with the tab label, the
    plot. *)
Inductive PanelView :=
  | LoadingText (tab : string)
  | DataNotFound (tabLabel : option string)
  | Plot (fig : Figure).

(** ** The browser side *)

(** How a [fetch(...).then(res.ok ...).then(res.json())] chain ends. *)
Inductive Response (A : Type) :=
  | NetworkError
  | BadStatus
  | ParseError
  | Parsed (body : A).
Arguments NetworkError {A}.
Arguments BadStatus {A}.
Arguments ParseError {A}.
Arguments Parsed {A} body.

Record ChartFetch := mkChartFetch { url : string; owner : nat }.

Inductive TimerAction :=
  | DebouncedSelect (name : string)
  | InvalidateSize.

Record Timer := mkTimer { timer_id : nat; delay : Z; action : TimerAction }.

(** Calls made on the Leaflet map and its layers, in order. *)
Inductive MapCall :=
  | AddLayer (l : Layer)
  | SetStyle (l : Layer) (st : PathStyle)
  | BringToBack (l : Layer)
  | BringToFront (l : Layer)
  | FitBounds (l : Layer) (padding : Z * Z) (maxZoom : Z)
  | InvalidateSizeCall.

(** ** Application state  (App.jsx:113-121) *)

Record App := mkApp {
  (* useState *)
  conservancyData : option GeoJSON;
  conservancyList : list string;
  selectedConservancy : string;
  mapReady : bool;
  (* useRef *)
  mapRef : bool;                       (* [mapRef.current] holds the map *)
  selectedLayerRef : option Layer;
  layerMapRef : gmap string Layer;
  (* effect and child bookkeeping kept by React *)
  debounceTimeout : option nat;        (* timer captured by the cleanup *)
  sidePanel : option SidePanel;
  panelMounts : nat;
  (* browser *)
  boundaryPending : bool;
  layerStyle : gmap Layer PathStyle;
  clickHandlers : gmap Layer (option string);
  mapCalls : list MapCall;
  timers : list Timer;
  nextTimer : nat;
  chartFetches : list ChartFetch;      (* every chart request, in order *)
  settled : list nat                   (* requests whose promise settled *)
}.

Definition setConservancyData (v : option GeoJSON) (s : App) : App :=
  mkApp v (conservancyList s) (selectedConservancy s) (mapReady s)
    (mapRef s) (selectedLayerRef s) (layerMapRef s) (debounceTimeout s)
    (sidePanel s) (panelMounts s) (boundaryPending s) (layerStyle s)
    (clickHandlers s) (mapCalls s) (timers s) (nextTimer s) (chartFetches s)
    (settled s).

Definition setConservancyList (v : list string) (s : App) : App :=
  mkApp (conservancyData s) v (selectedConservancy s) (mapReady s)
    (mapRef s) (selectedLayerRef s) (layerMapRef s) (debounceTimeout s)
    (sidePanel s) (panelMounts s) (boundaryPending s) (layerStyle s)
    (clickHandlers s) (mapCalls s) (timers s) (nextTimer s) (chartFetches s)
    (settled s).

Definition setSelectedConservancy (v : string) (s : App) : App :=
  mkApp (conservancyData s) (conservancyList s) v (mapReady s) (mapRef s)
    (selectedLayerRef s) (layerMapRef s) (debounceTimeout s) (sidePanel s)
    (panelMounts s) (boundaryPending s) (layerStyle s) (clickHandlers s)
    (mapCalls s) (timers s) (nextTimer s) (chartFetches s) (settled s).

Definition setMapReady (v : bool) (s : App) : App :=
  mkApp (conservancyData s) (conservancyList s) (selectedConservancy s) v
    (mapRef s) (selectedLayerRef s) (layerMapRef s) (debounceTimeout s)
    (sidePanel s) (panelMounts s) (boundaryPending s) (layerStyle s)
    (clickHandlers s) (mapCalls s) (timers s) (nextTimer s) (chartFetches s)
    (settled s).

Definition set_mapRef (v : bool) (s : App) : App :=
  mkApp (conservancyData s) (conservancyList s) (selectedConservancy s)
    (mapReady s) v (selectedLayerRef s) (layerMapRef s) (debounceTimeout s)
    (sidePanel s) (panelMounts s) (boundaryPending s) (layerStyle s)
    (clickHandlers s) (mapCalls s) (timers s) (nextTimer s) (chartFetches s)
    (settled s).

Definition set_selectedLayerRef (v : option Layer) (s : App) : App :=
  mkApp (conservancyData s) (conservancyList s) (selectedConservancy s)
    (mapReady s) (mapRef s) v (layerMapRef s) (debounceTimeout s)
    (sidePanel s) (panelMounts s) (boundaryPending s) (layerStyle s)
    (clickHandlers s) (mapCalls s) (timers s) (nextTimer s) (chartFetches s)
    (settled s).

Definition set_layerMapRef (v : gmap string Layer) (s : App) : App :=
  mkApp (conservancyData s) (conservancyList s) (selectedConservancy s)
    (mapReady s) (mapRef s) (selectedLayerRef s) v (debounceTimeout s)
    (sidePanel s) (panelMounts s) (boundaryPending s) (layerStyle s)
    (clickHandlers s) (mapCalls s) (timers s) (nextTimer s) (chartFetches s)
    (settled s).

Definition set_debounceTimeout (v : option nat) (s : App) : App :=
  mkApp (conservancyData s) (conservancyList s) (selectedConservancy s)
    (mapReady s) (mapRef s) (selectedLayerRef s) (layerMapRef s) v
    (sidePanel s) (panelMounts s) (boundaryPending s) (layerStyle s)
    (clickHandlers s) (mapCalls s) (timers s) (nextTimer s) (chartFetches s)
    (settled s).

Definition set_sidePanel (v : option SidePanel) (s : App) : App :=
  mkApp (conservancyData s) (conservancyList s) (selectedConservancy s)
    (mapReady s) (mapRef s) (selectedLayerRef s) (layerMapRef s)
    (debounceTimeout s) v (panelMounts s) (boundaryPending s) (layerStyle s)
    (clickHandlers s) (mapCalls s) (timers s) (nextTimer s) (chartFetches s)
    (settled s).

Definition set_panelMounts (v : nat) (s : App) : App :=
  mkApp (conservancyData s) (conservancyList s) (selectedConservancy s)
    (mapReady s) (mapRef s) (selectedLayerRef s) (layerMapRef s)
    (debounceTimeout s) (sidePanel s) v (boundaryPending s) (layerStyle s)
    (clickHandlers s) (mapCalls s) (timers s) (nextTimer s) (chartFetches s)
    (settled s).

Definition set_boundaryPending (v : bool) (s : App) : App :=
  mkApp (conservancyData s) (conservancyList s) (selectedConservancy s)
    (mapReady s) (mapRef s) (selectedLayerRef s) (layerMapRef s)
    (debounceTimeout s) (sidePanel s) (panelMounts s) v (layerStyle s)
    (clickHandlers s) (mapCalls s) (timers s) (nextTimer s) (chartFetches s)
    (settled s).

Definition set_layerStyle (v : gmap Layer PathStyle) (s : App) : App :=
  mkApp (conservancyData s) (conservancyList s) (selectedConservancy s)
    (mapReady s) (mapRef s) (selectedLayerRef s) (layerMapRef s)
    (debounceTimeout s) (sidePanel s) (panelMounts s) (boundaryPending s) v
    (clickHandlers s) (mapCalls s) (timers s) (nextTimer s) (chartFetches s)
    (settled s).

Definition set_clickHandlers (v : gmap Layer (option string)) (s : App) : App :=
  mkApp (conservancyData s) (conservancyList s) (selectedConservancy s)
    (mapReady s) (mapRef s) (selectedLayerRef s) (layerMapRef s)
    (debounceTimeout s) (sidePanel s) (panelMounts s) (boundaryPending s)
    (layerStyle s) v (mapCalls s) (timers s) (nextTimer s) (chartFetches s)
    (settled s).

Definition set_mapCalls (v : list MapCall) (s : App) : App :=
  mkApp (conservancyData s) (conservancyList s) (selectedConservancy s)
    (mapReady s) (mapRef s) (selectedLayerRef s) (layerMapRef s)
    (debounceTimeout s) (sidePanel s) (panelMounts s) (boundaryPending s)
    (layerStyle s) (clickHandlers s) v (timers s) (nextTimer s)
    (chartFetches s) (settled s).

Definition set_timers (v : list Timer) (s : App) : App :=
  mkApp (conservancyData s) (conservancyList s) (selectedConservancy s)
    (mapReady s) (mapRef s) (selectedLayerRef s) (layerMapRef s)
    (debounceTimeout s) (sidePanel s) (panelMounts s) (boundaryPending s)
    (layerStyle s) (clickHandlers s) (mapCalls s) v (nextTimer s)
    (chartFetches s) (settled s).

Definition set_nextTimer (v : nat) (s : App) : App :=
  mkApp (conservancyData s) (conservancyList s) (selectedConservancy s)
    (mapReady s) (mapRef s) (selectedLayerRef s) (layerMapRef s)
    (debounceTimeout s) (sidePanel s) (panelMounts s) (boundaryPending s)
    (layerStyle s) (clickHandlers s) (mapCalls s) (timers s) v
    (chartFetches s) (settled s).

Definition set_chartFetches (v : list ChartFetch) (s : App) : App :=
  mkApp (conservancyData s) (conservancyList s) (selectedConservancy s)
    (mapReady s) (mapRef s) (selectedLayerRef s) (layerMapRef s)
    (debounceTimeout s) (sidePanel s) (panelMounts s) (boundaryPending s)
    (layerStyle s) (clickHandlers s) (mapCalls s) (timers s) (nextTimer s) v
    (settled s).

Definition set_settled (v : list nat) (s : App) : App :=
  mkApp (conservancyData s) (conservancyList s) (selectedConservancy s)
    (mapReady s) (mapRef s) (selectedLayerRef s) (layerMapRef s)
    (debounceTimeout s) (sidePanel s) (panelMounts s) (boundaryPending s)
    (layerStyle s) (clickHandlers s) (mapCalls s) (timers s) (nextTimer s)
    (chartFetches s) v.

Section Host.

(** Supplied by the host: the string methods, the build-time base path and
    the collation of [String.prototype.localeCompare] (negative, zero or
    positive). *)
Context {host : StringMethods}.
Variable BASE_URL : string.
Variable localeCompare : string -> string -> Z.

(** [Array.prototype.sort(cmp)] is stable; for a consistent comparator its
    result is the one stable sorted arrangement, computed here by insertion
    from the right. *)
Fixpoint sortInsert (x : string) (l : list string) : list string :=
  match l with
  | [] => [x]
  | y :: r => if Z.leb (localeCompare x y) 0 then x :: y :: r
              else y :: sortInsert x r
  end.

Fixpoint sortNames (l : list string) : list string :=
  match l with
  | [] => []
  | x :: r => sortInsert x (sortNames r)
  end.

(** The order [sort] arranges the names in. *)
Definition localeLe (a b : string) : Prop := (localeCompare a b <= 0)%Z.

(** The body of the effect: the list handed to [setConservancyList]. *)
Definition deriveNames (data : option GeoJSON) : list string :=
  match data with
  | None => []
  | Some d =>
      match features d with
      | None => []
      | Some fs => sortNames (filterFirst (filterBoolean (map featureName fs)))
      end
  end.

(** ** Browser primitives *)

(** [layer.setStyle(st)]: both style objects of the component give the same
    five keys, so the merge performed by Leaflet replaces the whole style. *)
Definition setStyle (l : Layer) (st : PathStyle) (s : App) : App :=
  set_mapCalls (mapCalls s ++ [SetStyle l st])
    (set_layerStyle (<[l := st]> (layerStyle s)) s).

Definition mapCall (c : MapCall) (s : App) : App :=
  set_mapCalls (mapCalls s ++ [c]) s.

(** [setTimeout(action, delay)]; the handle returned is [nextTimer s]. *)
Definition setTimeout (a : TimerAction) (d : Z) (s : App) : App :=
  set_nextTimer (S (nextTimer s))
    (set_timers (timers s ++ [mkTimer (nextTimer s) d a]) s).

Definition clearTimeout (t : nat) (s : App) : App :=
  set_timers (filter (fun x => timer_id x ≠ t) (timers s)) s.

(** ** [selectConservancyByName]  (App.jsx:168-198) *)

(** Lines 181-185: exact key first, normalized key when that is missing. *)
Definition resolveLayer (m : gmap string Layer) (name : string)
  : option Layer :=
  match m !! name with
  | Some layer => Some layer
  | None => m !! normalizeName name
  end.

(** Lines 173-177.  A method missing on the layer raises a [TypeError] that
    the [try] swallows; the reference is dropped in any case. *)
Definition revertSelected (s : App) : App :=
  match selectedLayerRef s with
  | Some old =>
      let s1 := if has_setStyle old then setStyle old conservancyStyle s
                else s in
      let s2 := if has_bringToBack old then mapCall (BringToBack old) s1
                else s1 in
      set_selectedLayerRef None s2
  | None => s
  end.

(** Lines 187-197. *)
Definition highlightLayer (layer : Layer) (s : App) : App :=
  let s1 := set_selectedLayerRef (Some layer) s in
  let s2 := if has_setStyle layer then setStyle layer highlightStyle s1
            else s1 in
  let s3 := if has_bringToFront layer then mapCall (BringToFront layer) s2
            else s2 in
  if has_getBounds layer
  then setTimeout InvalidateSize 300
         (mapCall (FitBounds layer (20, 20)%Z 15) s3)
  else s3.

Definition selectConservancyByName (name : option string)
  (updateState : bool) (s : App) : App :=
  let s0 := if updateState then setSelectedConservancy (orEmpty name) s
            else s in
  if negb (mapRef s0) then s0
  else
    let s1 := revertSelected s0 in
    if negb (truthy name) then s1
    else
      match resolveLayer (layerMapRef s1) (orEmpty name) with
      | Some layer => highlightLayer layer s1
      | None => s1
      end.

(** ** [handleSelectConservancy]  (App.jsx:200-206)

    The dropdown hands over [e.target.value], a string. *)
Definition handleSelectConservancy (value : string) (s : App) : App :=
  let name := Some value in
  let s0 := setSelectedConservancy (orEmpty name) s in
  if mapReady s && mapRef s then selectConservancyByName name false s0
  else s0.

(** ** [onClose] of the side panel  (App.jsx:277-283)

    [setStyle] is called without a guard here: on a layer without that
    method the handler stops at the [TypeError] and keeps the reference. *)
Definition onClose (s : App) : App :=
  let s0 := setSelectedConservancy "" s in
  match selectedLayerRef s0 with
  | Some l =>
      if has_setStyle l
      then set_selectedLayerRef None (setStyle l conservancyStyle s0)
      else s0
  | None => s0
  end.

(** ** [onEachFeature]  (App.jsx:216-225)

    [feature.properties.NAME] raises a [TypeError] when [properties] is
    [null]; that is the [None] result. *)
Definition onEachFeature (feature : Feature) (layer : Layer) (s : App)
  : option App :=
  match properties feature with
  | None => None
  | Some p =>
      let name := NAME p in
      let s1 :=
        if truthy name
        then set_layerMapRef
               (<[normalizeName (orEmpty name) := layer]>
                  (<[orEmpty name := layer]> (layerMapRef s))) s
        else s in
      Some (set_clickHandlers (<[layer := name]> (clickHandlers s1)) s1)
  end.

(** The [<GeoJSON data style onEachFeature>] element  (App.jsx:263-269):
    for every feature in order Leaflet gives the layer the [style] option
    (through [setStyle], when the layer has it), passes it to
    [onEachFeature] and adds it to the map. *)
Definition mountFeature (f : Feature) (s : App) : option App :=
  let l := drawable f in
  let s1 := if has_setStyle l then setStyle l conservancyStyle s else s in
  match onEachFeature f l s1 with
  | Some s2 => Some (mapCall (AddLayer l) s2)
  | None => None
  end.

Fixpoint mountFeatures (fs : list Feature) (s : App) : option App :=
  match fs with
  | [] => Some s
  | f :: r =>
      match mountFeature f s with
      | Some s1 => mountFeatures r s1
      | None => None
      end
  end.

(** A document without a [features] array is no feature collection:
    [L.geoJSON] finds neither features nor a geometry in it and raises while
    the element is rendered. *)
Definition mountGeoJSON (data : GeoJSON) (s : App) : option App :=
  match features data with
  | Some fs => mountFeatures fs s
  | None => None
  end.

(** ** The fetch effect of the side panel  (App.jsx:24-54) *)

Definition findTab (tabId : string) : option Tab :=
  find (fun t => String.eqb (tab_id t) tabId) TAB_CONFIG.

Definition chartUrl (conservancyName : string) (t : Tab) : string :=
  BASE_URL ++ "figs/" ++ conservancyName ++ "/" ++ conservancyName
    ++ tab_suffix t ++ ".json".

Definition fetchEffect (conservancyName : string) (p : SidePanel) (s : App)
  : App :=
  if negb (truthy (Some conservancyName)) then s
  else
    let p1 := mkSidePanel (mountId p) (activeTabId p) None true false in
    let s1 := set_sidePanel (Some p1) s in
    match findTab (activeTabId p) with
    | None => s1                     (* [currentTab.suffix] raises *)
    | Some t =>
        set_chartFetches
          (chartFetches s1 ++ [mkChartFetch (chartUrl conservancyName t)
                                 (mountId p)]) s1
    end.

(** Lines 45-53: the two continuations of the request. *)
Definition chartContinuation (r : Response Figure) (p : SidePanel)
  : SidePanel :=
  match r with
  | Parsed data => mkSidePanel (mountId p) (activeTabId p) (Some data) false
                     (error p)
  | _ => mkSidePanel (mountId p) (activeTabId p) (figure p) false true
  end.

(** Lines 81-106. *)
Definition renderPanel (p : SidePanel) : list PanelView :=
  (if loading p then [LoadingText (toUpperCase (activeTabId p))] else [])
  ++ (if error p
      then [DataNotFound (option_map tab_label (findTab (activeTabId p)))]
      else [])
  ++ match figure p with
     | Some fig => if negb (loading p) then [Plot fig] else []
     | None => []
     end.

(** ** Effects of [App] run after a render *)

(** Lines 208-214, run when one of its dependencies changed: first the
    cleanup of the previous run, then the body. *)
Definition debounceEffect (s : App) : App :=
  let s0 := match debounceTimeout s with
            | Some t => set_debounceTimeout None (clearTimeout t s)
            | None => s
            end in
  if negb (mapReady s0) || negb (truthy (Some (selectedConservancy s0)))
  then s0
  else set_debounceTimeout (Some (nextTimer s0))
         (setTimeout (DebouncedSelect (selectedConservancy s0)) 300 s0).

(** Lines 274-285: the panel exists exactly while the selection is truthy;
    a new instance starts on the first tab and runs its effect, a kept one
    runs it again when the name changed. *)
Definition renderSidePanel (old : App) (s : App) : App :=
  if negb (truthy (Some (selectedConservancy s)))
  then set_sidePanel None s
  else
    match sidePanel s with
    | None =>
        let p := mkSidePanel (panelMounts s)
                   (match TAB_CONFIG with t :: _ => tab_id t | [] => "" end)
                   None false false in
        fetchEffect (selectedConservancy s) p
          (set_panelMounts (S (panelMounts s)) (set_sidePanel (Some p) s))
    | Some p =>
        if String.eqb (selectedConservancy old) (selectedConservancy s)
        then s
        else fetchEffect (selectedConservancy s) p s
    end.

(** The commit that follows a handler: [old] is the state of the previous
    render, [s] the state the handler left. *)
Definition rerender (dataChanged : bool) (old : App) (s : App) : App :=
  let s1 := renderSidePanel old s in
  let s2 := if dataChanged
            then setConservancyList (deriveNames (conservancyData s1)) s1
            else s1 in
  if dataChanged
     || negb (String.eqb (selectedConservancy old) (selectedConservancy s))
     || negb (Bool.eqb (mapReady old) (mapReady s))
  then debounceEffect s2
  else s2.

(** ** Events and the transition function *)

Inductive Event :=
  | MapCreated                                   (* [whenCreated] *)
  | BoundaryResponse (r : Response GeoJSON)      (* lines 142-148 *)
  | LayerClick (l : Layer)
  | SelectChange (value : string)
  | CloseClick
  | TabClick (i : nat)
  | ChartResponse (k : nat) (r : Response Figure)
  | TimerFire (t : nat).

Definition initialApp : App :=
  mkApp None [] "" false false None ∅ None None 0 true ∅ ∅ [] [] 0 [] [].

Definition onTabClick (i : nat) (s : App) : App :=
  match sidePanel s, nth_error TAB_CONFIG i with
  | Some p, Some t =>
      if String.eqb (activeTabId p) (tab_id t) then s
      else fetchEffect (selectedConservancy s)
             (mkSidePanel (mountId p) (tab_id t) (figure p) (loading p)
                (error p)) s
  | _, _ => s
  end.

(** A settled promise runs its continuation once; [setState] of an
    instance that is no longer mounted does nothing. *)
Definition onChartResponse (k : nat) (r : Response Figure) (s : App) : App :=
  match nth_error (chartFetches s) k with
  | None => s
  | Some f =>
      if existsb (Nat.eqb k) (settled s) then s
      else
        let s1 := set_settled (k :: settled s) s in
        match sidePanel s1 with
        | Some p =>
            if Nat.eqb (mountId p) (owner f)
            then set_sidePanel (Some (chartContinuation r p)) s1
            else s1
        | None => s1
        end
  end.

Definition onTimerFire (t : nat) (s : App) : App :=
  match find (fun x => Nat.eqb (timer_id x) t) (timers s) with
  | None => s
  | Some x =>
      let s1 := clearTimeout t s in
      match action x with
      | DebouncedSelect name => selectConservancyByName (Some name) false s1
      | InvalidateSize =>
          if mapRef s1 then mapCall InvalidateSizeCall s1 else s1
      end
  end.

(** [None]: a [TypeError] escaped from [onEachFeature] while the layers were
    built. *)
Definition step (s : App) (e : Event) : option App :=
  match e with
  | MapCreated =>
      Some (rerender false s (setMapReady true (set_mapRef true s)))
  | BoundaryResponse r =>
      if boundaryPending s
      then
        let s0 := set_boundaryPending false s in
        match r with
        | Parsed data =>
            match mountGeoJSON data (setConservancyData (Some data) s0) with
            | Some s1 => Some (rerender true s s1)
            | None => None
            end
        | _ => Some s0
        end
      else Some s
  | LayerClick l =>
      match clickHandlers s !! l with
      | Some name => Some (rerender false s (selectConservancyByName name true s))
      | None => Some s
      end
  | SelectChange value =>
      Some (rerender false s (handleSelectConservancy value s))
  | CloseClick =>
      match sidePanel s with
      | Some _ => Some (rerender false s (onClose s))
      | None => Some s
      end
  | TabClick i => Some (onTabClick i s)
  | ChartResponse k r => Some (onChartResponse k r s)
  | TimerFire t => Some (onTimerFire t s)
  end.

Fixpoint run (s : App) (es : list Event) : option App :=
  match es with
  | [] => Some s
  | e :: r =>
      match step s e with
      | Some s1 => run s1 r
      | None => None
      end
  end.

Inductive reachable : App -> Prop :=
  | reachable_init : reachable initialApp
  | reachable_step s e s' :
      reachable s -> step s e = Some s' -> reachable s'.

End Host.

(** * Notions used in the statements *)

(** ** Name resolution *)

(** Lines 218-221 on the map alone. *)
Definition registerName {host : StringMethods}
  (f : Feature) (m : gmap string Layer)
  : gmap string Layer :=
  if truthy (featureName f)
  then <[normalizeName (orEmpty (featureName f)) := drawable f]>
         (<[orEmpty (featureName f) := drawable f]> m)
  else m.

Definition registerAll {host : StringMethods}
  (fs : list Feature) (m : gmap string Layer)
  : gmap string Layer :=
  fold_left (fun m f => registerName f m) fs m.

(** [k] is one of the two keys written for the feature [g]. *)
Definition registeredBy {host : StringMethods}
  (g : Feature) (k : string) : Prop :=
  exists m, featureName g = Some m /\ m <> ""
            /\ (k = m \/ k = normalizeName m).

Definition writesKey {host : StringMethods} (g : Feature) (k : string) : bool :=
  match featureName g with
  | Some m => negb (String.eqb m "")
              && (String.eqb m k || String.eqb (normalizeName m) k)
  | None => false
  end.

(** The feature whose call of [onEachFeature] wrote the key [k] last. *)
Definition lastWriter {host : StringMethods} (fs : list Feature) (k : string)
  : option Feature :=
  find (fun g => writesKey g k) (rev fs).

(** ** Highlight state *)

(** The style store as the calls made on the layers leave it. *)
Definition replayStyles (calls : list MapCall) : gmap Layer PathStyle :=
  fold_left (fun m c => match c with
                        | SetStyle l st => <[l := st]> m
                        | _ => m
                        end) calls ∅.

Definition highlighted (m : gmap Layer PathStyle) (l : Layer) : Prop :=
  m !! l = Some highlightStyle.

Definition atMostOneHighlighted (m : gmap Layer PathStyle) : Prop :=
  forall l1 l2, highlighted m l1 -> highlighted m l2 -> l1 = l2.

Definition noneHighlighted (m : gmap Layer PathStyle) : Prop :=
  forall l, ~ highlighted m l.

(** A call that gives the highlight style finds no layer highlighted. *)
Definition highlightFresh (pre : list MapCall) : Prop :=
  forall pre' l, pre = pre' ++ [SetStyle l highlightStyle] ->
                 noneHighlighted (replayStyles pre').

Definition callsOK (calls : list MapCall) : Prop :=
  forall pre, pre `prefix_of` calls ->
              atMostOneHighlighted (replayStyles pre) /\ highlightFresh pre.

(** The style store after lines 173-177 and after lines 187-190. *)
Definition stylesReverted (ref : option Layer) (m : gmap Layer PathStyle)
  : gmap Layer PathStyle :=
  match ref with
  | Some old => if has_setStyle old then <[old := conservancyStyle]> m else m
  | None => m
  end.

Definition stylesHighlighted (ref : option Layer) (m : gmap Layer PathStyle)
  : gmap Layer PathStyle :=
  match ref with
  | Some l => if has_setStyle l then <[l := highlightStyle]> m else m
  | None => m
  end.

(** ** Invariants of the reachable states *)

(** The map side: the readiness flag mirrors the map reference, a
    back-reference needs the map, a highlighted layer is the one referred
    to, and the style store is what the logged calls made it. *)
Record MapInv (s : App) : Prop := mkMapInv {
  inv_ready : mapReady s = mapRef s;
  inv_ref_map : is_Some (selectedLayerRef s) -> mapRef s = true;
  inv_highlight : forall l, highlighted (layerStyle s) l ->
                            selectedLayerRef s = Some l /\ has_setStyle l = true;
  inv_replay : layerStyle s = replayStyles (mapCalls s);
  inv_calls : callsOK (mapCalls s)
}.

(** The side panel is mounted exactly while a region is selected, its
    active tab is one of [TAB_CONFIG], and only issued requests settle. *)
Record PanelInv (s : App) : Prop := mkPanelInv {
  inv_panel : sidePanel s = None <-> selectedConservancy s = "";
  inv_tab : forall p, sidePanel s = Some p -> is_Some (findTab (activeTabId p));
  inv_settled : forall k, In k (settled s) -> k < length (chartFetches s)
}.

Definition isDebounce (x : Timer) : Prop :=
  exists n, action x = DebouncedSelect n.

(** The pending timers.  [sel] and [ready] are the values the last run of
    the debounced effect saw. *)
Record TimerInvAt (sel : string) (ready : bool) (s : App) : Prop := mkTimerInv {
  inv_ids : forall x, x ∈ timers s -> timer_id x < nextTimer s;
  inv_nodup : NoDup (map timer_id (timers s));
  inv_delay : forall x, x ∈ timers s -> delay x = 300%Z;
  inv_handle : forall t, debounceTimeout s = Some t -> t < nextTimer s;
  inv_debounce : forall x n, x ∈ timers s -> action x = DebouncedSelect n ->
      debounceTimeout s = Some (timer_id x)
      /\ n = sel /\ ready = true /\ n <> "";
  inv_invalidate : forall x, x ∈ timers s -> action x = InvalidateSize ->
      debounceTimeout s <> Some (timer_id x)
}.

Definition TimerInv (s : App) : Prop :=
  TimerInvAt (selectedConservancy s) (mapReady s) s.

Definition keepsInvalidate (s s' : App) : Prop :=
  forall x, x ∈ timers s -> action x = InvalidateSize -> x ∈ timers s'.

(** The fields no selection handler touches. *)
Definition sameOutsideSelection (s s' : App) : Prop :=
  conservancyData s' = conservancyData s
  /\ conservancyList s' = conservancyList s
  /\ mapReady s' = mapReady s /\ mapRef s' = mapRef s
  /\ layerMapRef s' = layerMapRef s
  /\ debounceTimeout s' = debounceTimeout s
  /\ sidePanel s' = sidePanel s /\ panelMounts s' = panelMounts s
  /\ boundaryPending s' = boundaryPending s
  /\ clickHandlers s' = clickHandlers s
  /\ chartFetches s' = chartFetches s /\ settled s' = settled s.

(** A response that runs the [catch] continuation. *)
Definition isFailure (r : Response Figure) : Prop :=
  match r with
  | Parsed _ => False
  | _ => True
  end.

(** ** Tactics *)

(** Projections of updated states are computed by need; a state that is not
    under a projection stays folded. *)
Ltac app_unfold := cbn [conservancyData
  conservancyList selectedConservancy mapReady mapRef selectedLayerRef
  layerMapRef debounceTimeout sidePanel panelMounts boundaryPending
  layerStyle clickHandlers mapCalls timers nextTimer chartFetches settled
  setConservancyData setConservancyList
  setSelectedConservancy setMapReady set_mapRef set_selectedLayerRef
  set_layerMapRef set_debounceTimeout set_sidePanel set_panelMounts
  set_boundaryPending set_layerStyle set_clickHandlers set_mapCalls
  set_timers set_nextTimer set_chartFetches set_settled
  setStyle mapCall setTimeout clearTimeout] in *.

Ltac frame_solve :=
  repeat first [ progress app_unfold | case_match ];
  repeat split; reflexivity.

(** * Sample host and sessions, to run the model on concrete inputs *)

(** The string methods on ASCII text: white space is TAB, LF, VT, FF, CR and
    SPACE, the letters A-Z have a lower case, every other character is left
    as it is. *)
Definition isSpace (c : ascii) : bool :=
  let n := nat_of_ascii c in
  Nat.eqb n 32 || (Nat.leb 9 n && Nat.leb n 13).

Definition toLowerChar (c : ascii) : ascii :=
  let n := nat_of_ascii c in
  if Nat.leb 65 n && Nat.leb n 90 then ascii_of_nat (n + 32) else c.

Fixpoint trimStart (l : list ascii) : list ascii :=
  match l with
  | c :: r => if isSpace c then trimStart r else l
  | [] => []
  end.

Definition trimEnd (l : list ascii) : list ascii :=
  rev (trimStart (rev l)).

(** Every maximal run of white space becomes one space.  [inRun] tells that
    the previous character was white space. *)
Fixpoint collapseRuns (inRun : bool) (l : list ascii) : list ascii :=
  match l with
  | [] => []
  | c :: r =>
      if isSpace c
      then (if inRun then collapseRuns true r
            else " "%char :: collapseRuns true r)
      else c :: collapseRuns false r
  end.

Definition onChars (f : list ascii -> list ascii) (s : string) : string :=
  string_of_list_ascii (f (list_ascii_of_string s)).

#[global] Instance sampleStrings : StringMethods := {|
  trim := onChars (fun l => trimEnd (trimStart l));
  toLowerCase := onChars (map toLowerChar);
  replaceSpaces := onChars (collapseRuns false)
|}.

(** A collation of ASCII strings in the manner of the root locale on
    letters: alphabetical, the lower-case letter before its capital. *)
Definition collationWeight (c : ascii) : Z :=
  let n := Z.of_nat (nat_of_ascii c) in
  if (Z.leb 65 n && Z.leb n 90)%bool then (2 * (n + 32) + 1)%Z
  else (2 * n)%Z.

Fixpoint collate (a b : list ascii) : Z :=
  match a, b with
  | [], [] => 0
  | [], _ :: _ => -1
  | _ :: _, [] => 1
  | x :: a', y :: b' =>
      let d := (collationWeight x - collationWeight y)%Z in
      if Z.eqb d 0 then collate a' b' else d
  end.

Definition sampleLocaleCompare (a b : string) : Z :=
  collate (list_ascii_of_string a) (list_ascii_of_string b).

Definition sampleBase : string := "/".

(** A polygon layer: a Leaflet path with every method the handlers use. *)
Definition polygon (i : nat) : Layer := mkLayer i true true true true.

Definition named (n : string) (l : Layer) : Feature :=
  mkFeature (Some (mkProperties (Some n))) l.

Definition collectionOf (fs : list Feature) : option GeoJSON :=
  Some (mkGeoJSON (Some fs)).

Definition sampleBAC : list Feature :=
  [named "B" (polygon 0); named "a" (polygon 1); named "C" (polygon 2)].

(** Two named regions and a feature without NAME. *)
Definition sampleRegions : list Feature :=
  [ named "Naapu" (polygon 0);
    named "Il Ngwesi" (polygon 1);
    mkFeature (Some (mkProperties None)) (polygon 2) ].

Definition sampleData : GeoJSON := mkGeoJSON (Some sampleRegions).

(** Two regions whose names differ in case only. *)
Definition sampleClash : list Feature :=
  [named "foo" (polygon 0); named "Foo" (polygon 1)].

(** The same two regions in the other order: the exact key of the first
    survives, its normalized key is taken over by the second. *)
Definition sampleShadow : list Feature :=
  [named "Foo" (polygon 0); named "foo" (polygon 1)].

(** A marker layer, as Leaflet builds it for a point: none of the path
    methods. *)
Definition marker (i : nat) : Layer := mkLayer i false false false false.

Definition sampleWithMarker : GeoJSON :=
  mkGeoJSON (Some [named "Naapu" (polygon 0); named "Lewa HQ" (marker 1)]).

Definition sampleFigure : Figure := mkFigure "[]" "{}" None.

Definition sampleRun (es : list Event) : option App :=
  run sampleBase sampleLocaleCompare initialApp es.

Definition stateAfter (es : list Event) : App :=
  match sampleRun es with
  | Some s => s
  | None => initialApp
  end.

(** The map is created and the boundary collection arrives. *)
Definition sampleLoaded : list Event :=
  [MapCreated; BoundaryResponse (Parsed sampleData)].

(** * Notions for the further properties *)

(** ** The loaded collection *)

Definition featuresOf (data : option GeoJSON) : list Feature :=
  match data with
  | Some d => match features d with
              | Some fs => fs
              | None => []
              end
  | None => []
  end.

(** What is derived from the boundary collection stays in step with it:
    the name list, the name-to-layer map and the click handlers. *)
Record DataInv {host : StringMethods}
  (localeCompare : string -> string -> Z) (s : App) : Prop :=
  mkDataInv {
  d_list : conservancyList s = deriveNames localeCompare (conservancyData s);
  d_map : layerMapRef s = registerAll (featuresOf (conservancyData s)) ∅;
  d_handlers : forall l name, clickHandlers s !! l = Some name ->
      exists f, f ∈ featuresOf (conservancyData s)
                /\ drawable f = l /\ featureName f = name;
  d_props : forall f, f ∈ featuresOf (conservancyData s) ->
                      is_Some (properties f);
  d_pending : boundaryPending s = true -> conservancyData s = None
}.

(** Nothing was ever drawn, highlighted or framed. *)
Definition untouchedMap (s : App) : Prop :=
  layerStyle s = ∅ /\ mapCalls s = [] /\ selectedLayerRef s = None
  /\ forall x, x ∈ timers s -> isDebounce x.

(** ** Chart requests *)

(** Every request was issued by a mounted panel for a non-empty region and
    a tab of [TAB_CONFIG], and a panel that shows the loading line has a
    request of its own that has not settled. *)
Record RequestInv (BASE_URL : string) (s : App) : Prop := mkRequestInv {
  q_owner : forall f, f ∈ chartFetches s -> owner f < panelMounts s;
  q_url : forall f, f ∈ chartFetches s ->
      exists n t, n <> "" /\ t ∈ TAB_CONFIG /\ url f = chartUrl BASE_URL n t;
  q_mount : forall p, sidePanel s = Some p -> mountId p < panelMounts s;
  q_loading : forall p, sidePanel s = Some p -> loading p = true ->
      exists k f, nth_error (chartFetches s) k = Some f
                  /\ owner f = mountId p /\ ~ In k (settled s)
}.

(** ** What is rendered *)

(** The tab bar  (App.jsx:66-76): one button per tab of [TAB_CONFIG]; the
    button whose id is the active tab id gets the class [active]. *)
Record TabButton := mkTabButton {
  btn_key : string;
  btn_active : bool;
  btn_label : string
}.

Definition tabButtons (p : SidePanel) : list TabButton :=
  map (fun tab => mkTabButton (tab_id tab)
                    (String.eqb (activeTabId p) (tab_id tab))
                    (tab_label tab))
      TAB_CONFIG.

(** The dropdown  (App.jsx:235-244): the empty option, then one option per
    listed name. *)
Record SelectOption := mkSelectOption {
  opt_value : string;
  opt_text : string
}.

Definition selectOptions (s : App) : list SelectOption :=
  mkSelectOption "" "-- Select conservancy --"
  :: map (fun name => mkSelectOption name name) (conservancyList s).

(** An event the page can produce: a change event of the dropdown carries
    the value of one of the options rendered. *)
Definition offered (s : App) (e : Event) : Prop :=
  match e with
  | SelectChange v => v ∈ map opt_value (selectOptions s)
  | _ => True
  end.

Inductive uiReachable {host : StringMethods} (BASE_URL : string)
  (localeCompare : string -> string -> Z) : App -> Prop :=
  | ui_init : uiReachable BASE_URL localeCompare initialApp
  | ui_step s e s' :
      uiReachable BASE_URL localeCompare s -> offered s e ->
      step BASE_URL localeCompare s e = Some s' ->
      uiReachable BASE_URL localeCompare s'.

(** ** Selection and map *)

(** The layer referred to is the one the selection resolves to, or the
    debounced call that will make it so is pending. *)
Definition shownOrPending {host : StringMethods} (s : App) : Prop :=
  selectedConservancy s <> "" -> mapRef s = true ->
  selectedLayerRef s = resolveLayer (layerMapRef s) (selectedConservancy s)
  \/ exists x, x ∈ timers s
               /\ action x = DebouncedSelect (selectedConservancy s).

(** The calls lines 173-177 make on the layer referred to, and the calls
    lines 187-194 make on the layer found, in order. *)
Definition revertCalls (ref : option Layer) : list MapCall :=
  match ref with
  | Some old =>
      (if has_setStyle old then [SetStyle old conservancyStyle] else [])
      ++ (if has_bringToBack old then [BringToBack old] else [])
  | None => []
  end.

Definition highlightCalls (l : Layer) : list MapCall :=
  (if has_setStyle l then [SetStyle l highlightStyle] else [])
  ++ (if has_bringToFront l then [BringToFront l] else [])
  ++ (if has_getBounds l then [FitBounds l (20, 20)%Z 15] else []).

(** A pending [invalidateSize] call finds the map. *)
Definition invalidateHasMap (s : App) : Prop :=
  forall x, x ∈ timers s -> action x = InvalidateSize -> mapRef s = true.

(** While a panel loads it holds neither a figure nor an error. *)
Definition loadingAlone (s : App) : Prop :=
  forall p, sidePanel s = Some p -> loading p = true ->
            figure p = None /\ error p = false.

(** * Properties *)

Lemma filterBoolean_elem (l : list (option string)) (v : string) :
  v ∈ filterBoolean l <-> Some v ∈ l /\ v <> "".
Proof.
  induction l as [|o r IH]; simpl.
  - split; [intros H; inversion H | intros [H _]; inversion H].
  - destruct o as [s|]; simpl.
    + destruct (String.eqb_spec s "") as [->|Hs]; simpl.
      * rewrite IH, elem_of_cons. split.
        -- intros [H1 H2]. auto.
        -- intros [[H1|H1] H2]; [congruence | auto].
      * rewrite !elem_of_cons, IH. split.
        -- intros [->|[H1 H2]]; auto.
        -- intros [[H1|H1] H2]; [left; congruence | auto].
    + rewrite IH, elem_of_cons. split.
      * intros [H1 H2]. auto.
      * intros [[H1|H1] H2]; [discriminate | auto].
Qed.

Lemma indexOf_fresh (pre r : list string) (v : string) :
  v ∉ pre -> indexOf (pre ++ v :: r) v = Some (length pre).
Proof.
  induction pre as [|x pre IH]; simpl; intros Hn.
  - rewrite String.eqb_refl. reflexivity.
  - rewrite not_elem_of_cons in Hn. destruct Hn as [Hx Hn].
    destruct (String.eqb_spec x v) as [->|_]; [congruence|].
    rewrite IH by assumption. reflexivity.
Qed.

Lemma indexOf_seen (pre r : list string) (v : string) :
  v ∈ pre -> exists j, indexOf (pre ++ r) v = Some j /\ j < length pre.
Proof.
  induction pre as [|x pre IH]; simpl; intros Hin.
  - inversion Hin.
  - destruct (String.eqb_spec x v) as [->|Hx].
    + exists 0. split; [reflexivity | lia].
    + rewrite elem_of_cons in Hin. destruct Hin as [->|Hin]; [congruence|].
      destruct (IH Hin) as (j & -> & Hj). exists (S j). split; [reflexivity | lia].
Qed.

Lemma filterFirstFrom_spec (l pre : list string) :
  NoDup (filterFirstFrom (pre ++ l) (length pre) l)
  /\ forall v, v ∈ filterFirstFrom (pre ++ l) (length pre) l
               <-> v ∈ l /\ v ∉ pre.
Proof.
  revert pre. induction l as [|x r IH]; intros pre; simpl.
  - split; [constructor|]. intros v. split; [intros H; inversion H|].
    intros [H _]; inversion H.
  - specialize (IH (pre ++ [x])).
    rewrite <- app_assoc, length_app in IH. simpl in IH.
    replace (length pre + 1) with (S (length pre)) in IH by lia.
    destruct IH as [IHn IHm].
    destruct (decide (x ∈ pre)) as [Hin|Hnin].
    + destruct (indexOf_seen pre (x :: r) x Hin) as (j & -> & Hj).
      destruct (Nat.eqb_spec j (length pre)) as [->|_]; [lia|].
      split; [assumption|]. intros v. rewrite IHm, elem_of_cons, not_elem_of_app.
      rewrite list_elem_of_singleton. split.
      * intros (H1 & H2 & H3). auto.
      * intros [[->|H1] H2]; [contradiction|]. repeat split; auto. congruence.
    + rewrite (indexOf_fresh pre r x Hnin), Nat.eqb_refl.
      split.
      * constructor; [|assumption]. rewrite IHm, not_elem_of_app.
        rewrite list_elem_of_singleton. intros (_ & _ & H). congruence.
      * intros v. rewrite !elem_of_cons, IHm, not_elem_of_app.
        rewrite list_elem_of_singleton. split.
        -- intros [->|(H1 & H2 & H3)]; auto.
        -- intros [[->|H1] H2]; [auto|].
           destruct (decide (v = x)) as [->|Hne]; auto.
Qed.

Lemma filterFirst_NoDup (a : list string) : NoDup (filterFirst a).
Proof. exact (proj1 (filterFirstFrom_spec a [])). Qed.

Lemma filterFirst_elem (a : list string) (v : string) :
  v ∈ filterFirst a <-> v ∈ a.
Proof.
  unfold filterFirst. rewrite (proj2 (filterFirstFrom_spec a []) v).
  split; [tauto|]. intros H. split; [assumption|]. apply not_elem_of_nil.
Qed.

Lemma featureName_elem (fs : list Feature) (v : string) :
  Some v ∈ map featureName fs
  <-> exists f, f ∈ fs /\ featureName f = Some v.
Proof.
  change (map featureName fs) with (featureName <$> fs).
  rewrite list_elem_of_fmap. split; intros (f & H1 & H2); exists f; auto.
Qed.

Section NameList.

Context {host : StringMethods}.

Variable localeCompare : string -> string -> Z.

(** A consistent comparator in the sense of [Array.prototype.sort]. *)
Hypothesis localeCompare_flip :
  forall a b, (localeCompare a b < 0 <-> 0 < localeCompare b a)%Z.
Hypothesis localeCompare_trans :
  forall a b c, (localeCompare a b <= 0)%Z -> (localeCompare b c <= 0)%Z ->
                (localeCompare a c <= 0)%Z.
(** A locale-aware collation puts ["a"] before ["B"] before ["C"]. *)
Hypothesis localeCompare_aBC :
  (localeCompare "a" "B" < 0 /\ localeCompare "B" "C" < 0)%Z.

Lemma sortInsert_perm (x : string) (l : list string) :
  sortInsert localeCompare x l ≡ₚ x :: l.
Proof using Type.
  induction l as [|y r IH]; simpl; [reflexivity|].
  destruct (Z.leb _ _); [reflexivity|].
  rewrite IH. apply perm_swap.
Qed.

Lemma sortNames_perm (l : list string) : sortNames localeCompare l ≡ₚ l.
Proof using Type.
  induction l as [|x r IH]; simpl; [reflexivity|].
  rewrite sortInsert_perm, IH. reflexivity.
Qed.

Lemma sortInsert_sorted (x : string) (l : list string) :
  StronglySorted (localeLe localeCompare) l ->
  StronglySorted (localeLe localeCompare) (sortInsert localeCompare x l).
Proof using localeCompare_flip localeCompare_trans.
  induction 1 as [|y r Hs IH Hall]; simpl.
  - repeat constructor.
  - destruct (Z.leb_spec (localeCompare x y) 0) as [Hle|Hgt].
    + constructor; [constructor; assumption|].
      constructor; [exact Hle|].
      eapply Forall_impl; [|exact Hall].
      intros z Hz. exact (localeCompare_trans _ _ _ Hle Hz).
    + assert (Hyx : localeLe localeCompare y x).
      { unfold localeLe. apply localeCompare_flip in Hgt. lia. }
      constructor; [exact IH|].
      rewrite (sortInsert_perm x r). constructor; assumption.
Qed.

Lemma sortNames_sorted (l : list string) :
  StronglySorted (localeLe localeCompare) (sortNames localeCompare l).
Proof using localeCompare_flip localeCompare_trans.
  induction l as [|x r IH]; simpl; [constructor|].
  apply sortInsert_sorted, IH.
Qed.

Lemma deriveNames_elem (fs : list Feature) (v : string) :
  v ∈ deriveNames localeCompare (collectionOf fs)
  <-> v <> "" /\ exists f, f ∈ fs /\ featureName f = Some v.
Proof using Type.
  unfold deriveNames, collectionOf. cbn [features].
  rewrite (sortNames_perm _), filterFirst_elem, filterBoolean_elem.
  rewrite featureName_elem.
  clear localeCompare_flip localeCompare_trans localeCompare_aBC. tauto.
Qed.

Lemma deriveNames_NoDup (fs : list Feature) :
  NoDup (deriveNames localeCompare (collectionOf fs)).
Proof using Type.
  unfold deriveNames, collectionOf. cbn [features].
  rewrite (sortNames_perm _). apply filterFirst_NoDup.
Qed.

Lemma deriveNames_BAC :
  deriveNames localeCompare (collectionOf sampleBAC) = ["a"; "B"; "C"].
Proof using All.
  destruct localeCompare_aBC as [HaB HBC].
  assert (HaC : (localeCompare "a" "C" <= 0)%Z).
  { apply (localeCompare_trans "a" "B" "C"); lia. }
  assert (HBa : (0 < localeCompare "B" "a")%Z) by (apply localeCompare_flip, HaB).
  unfold deriveNames, collectionOf, sampleBAC. cbn [features].
  apply Z.leb_le in HaC. apply Z.leb_gt in HBa.
  assert (HBC' : (localeCompare "B" "C" <=? 0)%Z = true) by (apply Z.leb_le; lia).
  simpl. rewrite HaC. simpl. rewrite HBa, HBC'. reflexivity.
Qed.

End NameList.

(** The sample collation is a consistent comparator. *)

Lemma collate_flip (a b : list ascii) :
  (collate a b < 0 <-> 0 < collate b a)%Z.
Proof.
  revert b. induction a as [|x a IH]; intros [|y b]; simpl; try lia.
  destruct (Z.eqb_spec (collationWeight x - collationWeight y) 0) as [E|E];
    destruct (Z.eqb_spec (collationWeight y - collationWeight x) 0) as [E'|E'];
    try lia.
  apply IH.
Qed.

Lemma collate_trans (a b c : list ascii) :
  (collate a b <= 0 -> collate b c <= 0 -> collate a c <= 0)%Z.
Proof.
  revert b c. induction a as [|x a IH]; intros [|y b] [|z c]; simpl; try lia.
  destruct (Z.eqb_spec (collationWeight x - collationWeight y) 0) as [E1|E1];
    destruct (Z.eqb_spec (collationWeight y - collationWeight z) 0) as [E2|E2];
    destruct (Z.eqb_spec (collationWeight x - collationWeight z) 0) as [E3|E3];
    try lia.
  apply IH.
Qed.

Lemma sampleLocaleCompare_flip (a b : string) :
  (sampleLocaleCompare a b < 0 <-> 0 < sampleLocaleCompare b a)%Z.
Proof. apply collate_flip. Qed.

Lemma sampleLocaleCompare_trans (a b c : string) :
  (sampleLocaleCompare a b <= 0)%Z -> (sampleLocaleCompare b c <= 0)%Z ->
  (sampleLocaleCompare a c <= 0)%Z.
Proof. apply collate_trans. Qed.

Lemma sampleLocaleCompare_aBC :
  (sampleLocaleCompare "a" "B" < 0 /\ sampleLocaleCompare "B" "C" < 0)%Z.
Proof. split; reflexivity. Qed.

(** ** The state machine *)

Lemma highlight_neq_default : highlightStyle <> conservancyStyle.
Proof. discriminate. Qed.

Lemma replayStyles_snoc (calls : list MapCall) (c : MapCall) :
  replayStyles (calls ++ [c])
  = match c with
    | SetStyle l st => <[l := st]> (replayStyles calls)
    | _ => replayStyles calls
    end.
Proof. unfold replayStyles. rewrite fold_left_app. reflexivity. Qed.

Lemma prefix_snoc_cases {A} (pre l : list A) (c : A) :
  pre `prefix_of` l ++ [c] -> pre = l ++ [c] \/ pre `prefix_of` l.
Proof.
  intros [k Hk]. destruct k as [|x k _] using rev_ind.
  - left. rewrite app_nil_r in Hk. congruence.
  - right. rewrite app_assoc in Hk. apply app_inj_tail in Hk as [-> _].
    exists k. reflexivity.
Qed.

Lemma callsOK_snoc (calls : list MapCall) (c : MapCall) :
  callsOK calls -> atMostOneHighlighted (replayStyles (calls ++ [c])) ->
  (forall l, c = SetStyle l highlightStyle ->
             noneHighlighted (replayStyles calls)) ->
  callsOK (calls ++ [c]).
Proof.
  intros Hok Hlast Hfresh pre Hpre.
  destruct (prefix_snoc_cases _ _ _ Hpre) as [->|H]; [|apply Hok, H].
  split; [exact Hlast|]. intros pre' l E.
  apply app_inj_tail in E as [-> ->]. apply (Hfresh l eq_refl).
Qed.

Lemma atMostOne_of_none (m : gmap Layer PathStyle) :
  noneHighlighted m -> atMostOneHighlighted m.
Proof. intros H l1 l2 H1. destruct (H l1 H1). Qed.

Lemma highlighted_insert_default (m : gmap Layer PathStyle) (l l' : Layer) :
  highlighted (<[l := conservancyStyle]> m) l' -> l' <> l /\ highlighted m l'.
Proof.
  unfold highlighted. destruct (decide (l = l')) as [->|Hne].
  - rewrite lookup_insert_eq. intros H. inversion H.
  - rewrite lookup_insert_ne by assumption. auto.
Qed.

Lemma atMostOne_insert_default (m : gmap Layer PathStyle) (l : Layer) :
  atMostOneHighlighted m -> atMostOneHighlighted (<[l := conservancyStyle]> m).
Proof.
  intros H l1 l2 H1 H2.
  apply highlighted_insert_default in H1 as [_ H1].
  apply highlighted_insert_default in H2 as [_ H2]. exact (H l1 l2 H1 H2).
Qed.

Lemma highlighted_insert_highlight (m : gmap Layer PathStyle) (l l' : Layer) :
  noneHighlighted m -> highlighted (<[l := highlightStyle]> m) l' -> l' = l.
Proof.
  unfold highlighted. intros Hn H. destruct (decide (l = l')) as [->|Hne].
  - reflexivity.
  - rewrite lookup_insert_ne in H by assumption. destruct (Hn l' H).
Qed.

Lemma callsOK_quiet_call (calls : list MapCall) (c : MapCall) :
  callsOK calls -> (forall l st, c <> SetStyle l st) -> callsOK (calls ++ [c]).
Proof.
  intros Hok Hc. apply callsOK_snoc; [exact Hok| |].
  - rewrite replayStyles_snoc.
    destruct c; try (apply Hok; reflexivity). destruct (Hc l st eq_refl).
  - intros l ->. destruct (Hc l highlightStyle eq_refl).
Qed.

Lemma MapInv_ext (s s' : App) :
  mapReady s' = mapReady s -> mapRef s' = mapRef s ->
  selectedLayerRef s' = selectedLayerRef s ->
  layerStyle s' = layerStyle s -> mapCalls s' = mapCalls s ->
  MapInv s -> MapInv s'.
Proof.
  intros E1 E2 E3 E4 E5 [Hr Hm Hh Hp Hc].
  split; rewrite ?E1, ?E2, ?E3, ?E4, ?E5; assumption.
Qed.

Lemma setStyle_default_inv (l : Layer) (s : App) :
  MapInv s -> MapInv (setStyle l conservancyStyle s).
Proof.
  intros [Hr Hm Hh Hp Hc]. split; app_unfold; try assumption.
  - intros l' Hl. apply highlighted_insert_default in Hl as [_ Hl]. auto.
  - rewrite replayStyles_snoc, Hp. reflexivity.
  - apply callsOK_snoc; [exact Hc| |].
    + rewrite replayStyles_snoc.
      apply atMostOne_insert_default, Hc. reflexivity.
    + intros l' E. inversion E.
Qed.

Lemma mapCall_inv (c : MapCall) (s : App) :
  (forall l st, c <> SetStyle l st) -> MapInv s -> MapInv (mapCall c s).
Proof.
  intros Hq [Hr Hm Hh Hp Hc]. split; app_unfold; try assumption.
  - rewrite replayStyles_snoc, Hp. destruct c; try reflexivity.
    destruct (Hq l st eq_refl).
  - apply callsOK_quiet_call; assumption.
Qed.

Lemma dropRef_inv (s : App) :
  noneHighlighted (layerStyle s) -> MapInv s ->
  MapInv (set_selectedLayerRef None s).
Proof.
  intros Hn [Hr Hm Hh Hp Hc]. split; app_unfold; try assumption.
  - intros [? [=]].
  - intros l Hl. destruct (Hn l Hl).
Qed.

(** Lines 173-177 leave no layer highlighted. *)
Lemma revertSelected_spec (s : App) :
  MapInv s ->
  MapInv (revertSelected s)
  /\ noneHighlighted (layerStyle (revertSelected s))
  /\ selectedLayerRef (revertSelected s) = None
  /\ mapRef (revertSelected s) = mapRef s.
Proof.
  intros Hinv. unfold revertSelected.
  destruct (selectedLayerRef s) as [old|] eqn:Eref.
  - set (s1 := if has_setStyle old then setStyle old conservancyStyle s else s).
    set (s2 := if has_bringToBack old then mapCall (BringToBack old) s1 else s1).
    assert (H1 : MapInv s1 /\ noneHighlighted (layerStyle s1)
                 /\ mapRef s1 = mapRef s).
    { subst s1. destruct (has_setStyle old) eqn:Es.
      - split; [apply setStyle_default_inv, Hinv|]. split; [|reflexivity].
        intros l Hl. app_unfold.
        apply highlighted_insert_default in Hl as [Hne Hl].
        destruct (inv_highlight s Hinv l Hl) as [E _]. congruence.
      - split; [exact Hinv|]. split; [|reflexivity].
        intros l Hl. destruct (inv_highlight s Hinv l Hl) as [E Hs].
        congruence. }
    destruct H1 as (Hinv1 & Hn1 & Hm1).
    assert (H2 : MapInv s2 /\ layerStyle s2 = layerStyle s1
                 /\ mapRef s2 = mapRef s1).
    { subst s2. destruct (has_bringToBack old); [|auto].
      split; [apply mapCall_inv; [discriminate|exact Hinv1]|]. auto. }
    destruct H2 as (Hinv2 & Hs2 & Hm2).
    assert (Hn2 : noneHighlighted (layerStyle s2)) by (rewrite Hs2; exact Hn1).
    split; [apply dropRef_inv; assumption|].
    split; [exact Hn2|]. split; [reflexivity|]. cbn. congruence.
  - split; [exact Hinv|]. split; [|auto].
    intros l Hl. destruct (inv_highlight s Hinv l Hl) as [E _]. congruence.
Qed.

(** Lines 187-197 highlight one layer, starting from none. *)
Lemma highlightLayer_inv (layer : Layer) (s : App) :
  MapInv s -> noneHighlighted (layerStyle s) -> mapRef s = true ->
  MapInv (highlightLayer layer s).
Proof.
  intros Hinv Hn Hmap. unfold highlightLayer.
  set (s1 := set_selectedLayerRef (Some layer) s).
  set (s2 := if has_setStyle layer then setStyle layer highlightStyle s1 else s1).
  set (s3 := if has_bringToFront layer then mapCall (BringToFront layer) s2 else s2).
  assert (H2 : MapInv s2).
  { destruct Hinv as [Hr Hm Hh Hp Hc].
    subst s2 s1. destruct (has_setStyle layer) eqn:Es;
      split; app_unfold; try assumption; try (intros _; assumption).
    - intros l Hl. apply highlighted_insert_highlight in Hl; [|exact Hn].
      subst l. auto.
    - rewrite replayStyles_snoc, Hp. reflexivity.
    - apply callsOK_snoc; [exact Hc| |].
      + rewrite replayStyles_snoc, <- Hp.
        intros l1 l2 Hl1 Hl2.
        apply highlighted_insert_highlight in Hl1; [|exact Hn].
        apply highlighted_insert_highlight in Hl2; [|exact Hn]. congruence.
      + intros _ _. rewrite <- Hp. exact Hn.
    - intros l Hl. destruct (Hn l Hl). }
  assert (H3 : MapInv s3).
  { subst s3. destruct (has_bringToFront layer); [|exact H2].
    apply mapCall_inv; [discriminate|exact H2]. }
  destruct (has_getBounds layer); [|exact H3].
  apply (MapInv_ext (mapCall (FitBounds layer (20, 20)%Z 15) s3));
    try reflexivity.
  apply mapCall_inv; [discriminate|exact H3].
Qed.

Lemma selectConservancyByName_inv {host : StringMethods}
  (name : option string) (u : bool) (s : App) :
  MapInv s -> MapInv (selectConservancyByName name u s).
Proof.
  intros Hinv. unfold selectConservancyByName.
  set (s0 := if u then setSelectedConservancy (orEmpty name) s else s).
  assert (H0 : MapInv s0).
  { subst s0. destruct u; [|exact Hinv].
    apply (MapInv_ext s); try reflexivity. exact Hinv. }
  destruct (mapRef s0) eqn:Emap; cbn [negb]; [|exact H0].
  destruct (revertSelected_spec s0 H0) as (H1 & Hn & Href & Hm).
  destruct (truthy name); cbn [negb]; [|exact H1].
  destruct (resolveLayer _ _) as [layer|]; [|exact H1].
  apply highlightLayer_inv; try assumption. congruence.
Qed.

(** *** What the effects leave alone *)

Section Frames.

Context {host : StringMethods}.

Variable BASE_URL : string.
Variable localeCompare : string -> string -> Z.

Lemma fetchEffect_frame (n : string) (p : SidePanel) (s : App) :
  let s' := fetchEffect BASE_URL n p s in
  conservancyData s' = conservancyData s
  /\ conservancyList s' = conservancyList s
  /\ selectedConservancy s' = selectedConservancy s
  /\ mapReady s' = mapReady s /\ mapRef s' = mapRef s
  /\ selectedLayerRef s' = selectedLayerRef s
  /\ layerMapRef s' = layerMapRef s
  /\ debounceTimeout s' = debounceTimeout s
  /\ panelMounts s' = panelMounts s
  /\ boundaryPending s' = boundaryPending s
  /\ layerStyle s' = layerStyle s /\ clickHandlers s' = clickHandlers s
  /\ mapCalls s' = mapCalls s /\ timers s' = timers s
  /\ nextTimer s' = nextTimer s /\ settled s' = settled s.
Proof. unfold fetchEffect. frame_solve. Qed.

Lemma renderSidePanel_frame (old s : App) :
  let s' := renderSidePanel BASE_URL old s in
  conservancyData s' = conservancyData s
  /\ conservancyList s' = conservancyList s
  /\ selectedConservancy s' = selectedConservancy s
  /\ mapReady s' = mapReady s /\ mapRef s' = mapRef s
  /\ selectedLayerRef s' = selectedLayerRef s
  /\ layerMapRef s' = layerMapRef s
  /\ debounceTimeout s' = debounceTimeout s
  /\ boundaryPending s' = boundaryPending s
  /\ layerStyle s' = layerStyle s /\ clickHandlers s' = clickHandlers s
  /\ mapCalls s' = mapCalls s /\ timers s' = timers s
  /\ nextTimer s' = nextTimer s /\ settled s' = settled s.
Proof. unfold renderSidePanel, fetchEffect. frame_solve. Qed.

Lemma debounceEffect_frame (s : App) :
  let s' := debounceEffect s in
  conservancyData s' = conservancyData s
  /\ conservancyList s' = conservancyList s
  /\ selectedConservancy s' = selectedConservancy s
  /\ mapReady s' = mapReady s /\ mapRef s' = mapRef s
  /\ selectedLayerRef s' = selectedLayerRef s
  /\ layerMapRef s' = layerMapRef s
  /\ sidePanel s' = sidePanel s /\ panelMounts s' = panelMounts s
  /\ boundaryPending s' = boundaryPending s
  /\ layerStyle s' = layerStyle s /\ clickHandlers s' = clickHandlers s
  /\ mapCalls s' = mapCalls s
  /\ chartFetches s' = chartFetches s /\ settled s' = settled s.
Proof.
  unfold debounceEffect. cbv zeta.
  destruct (debounceTimeout s); app_unfold;
    destruct (negb _ || negb _); app_unfold; repeat split.
Qed.

Lemma rerender_frame (d : bool) (old s : App) :
  let s' := rerender BASE_URL localeCompare d old s in
  conservancyData s' = conservancyData s
  /\ selectedConservancy s' = selectedConservancy s
  /\ mapReady s' = mapReady s /\ mapRef s' = mapRef s
  /\ selectedLayerRef s' = selectedLayerRef s
  /\ layerMapRef s' = layerMapRef s
  /\ boundaryPending s' = boundaryPending s
  /\ layerStyle s' = layerStyle s /\ clickHandlers s' = clickHandlers s
  /\ mapCalls s' = mapCalls s /\ settled s' = settled s.
Proof.
  cbv zeta. unfold rerender.
  destruct (renderSidePanel_frame old s)
    as (R1 & R2 & R3 & R4 & R5 & R6 & R7 & R8 & R9 & R10 & R11 & R12 & R13 & R14 & R15).
  set (s1 := renderSidePanel BASE_URL old s) in *.
  set (s2 := if d then setConservancyList _ s1 else s1).
  assert (F2 : conservancyData s2 = conservancyData s
    /\ selectedConservancy s2 = selectedConservancy s
    /\ mapReady s2 = mapReady s /\ mapRef s2 = mapRef s
    /\ selectedLayerRef s2 = selectedLayerRef s
    /\ layerMapRef s2 = layerMapRef s
    /\ boundaryPending s2 = boundaryPending s
    /\ layerStyle s2 = layerStyle s /\ clickHandlers s2 = clickHandlers s
    /\ mapCalls s2 = mapCalls s /\ settled s2 = settled s).
  { subst s2. destruct d; app_unfold; repeat split; assumption. }
  destruct (_ || _ || _); [|exact F2].
  destruct (debounceEffect_frame s2)
    as (D1 & D2 & D3 & D4 & D5 & D6 & D7 & D8 & D9 & D10 & D11 & D12 & D13 & D14 & D15).
  cbv zeta in *. rewrite D1, D3, D4, D5, D6, D7, D10, D11, D12, D13, D15.
  exact F2.
Qed.

End Frames.

Section Preservation.

Context {host : StringMethods}.

Variable BASE_URL : string.
Variable localeCompare : string -> string -> Z.

Lemma rerender_inv (d : bool) (old s : App) :
  MapInv s -> MapInv (rerender BASE_URL localeCompare d old s).
Proof.
  destruct (rerender_frame BASE_URL localeCompare d old s)
    as (R1 & R2 & R3 & R4 & R5 & R6 & R7 & R8 & R9 & R10 & R11).
  apply MapInv_ext; assumption.
Qed.

Lemma handleSelectConservancy_inv (v : string) (s : App) :
  MapInv s -> MapInv (handleSelectConservancy v s).
Proof.
  intros Hinv. unfold handleSelectConservancy.
  assert (H0 : MapInv (setSelectedConservancy (orEmpty (Some v)) s)).
  { apply (MapInv_ext s); try reflexivity. exact Hinv. }
  destruct (mapReady s && mapRef s); [|exact H0].
  apply selectConservancyByName_inv, H0.
Qed.

Lemma onClose_inv (s : App) : MapInv s -> MapInv (onClose s).
Proof.
  intros Hinv. unfold onClose.
  assert (H0 : MapInv (setSelectedConservancy "" s)).
  { apply (MapInv_ext s); try reflexivity. exact Hinv. }
  set (s0 := setSelectedConservancy "" s) in *.
  destruct (selectedLayerRef s0) as [l|] eqn:Eref; [|exact H0].
  destruct (has_setStyle l) eqn:Es; [|exact H0].
  apply dropRef_inv; [|apply setStyle_default_inv, H0].
  intros l' Hl. app_unfold.
  apply highlighted_insert_default in Hl as [Hne Hl].
  destruct (inv_highlight s Hinv l' Hl) as [E _].
  subst s0. app_unfold. congruence.
Qed.

Lemma onEachFeature_frame (f : Feature) (l : Layer) (s s' : App) :
  onEachFeature f l s = Some s' ->
  conservancyData s' = conservancyData s
  /\ conservancyList s' = conservancyList s
  /\ selectedConservancy s' = selectedConservancy s
  /\ mapReady s' = mapReady s /\ mapRef s' = mapRef s
  /\ selectedLayerRef s' = selectedLayerRef s
  /\ debounceTimeout s' = debounceTimeout s
  /\ sidePanel s' = sidePanel s /\ panelMounts s' = panelMounts s
  /\ boundaryPending s' = boundaryPending s
  /\ layerStyle s' = layerStyle s /\ mapCalls s' = mapCalls s
  /\ timers s' = timers s /\ nextTimer s' = nextTimer s
  /\ chartFetches s' = chartFetches s /\ settled s' = settled s.
Proof.
  unfold onEachFeature. destruct (properties f); [|discriminate].
  intros [= <-]. frame_solve.
Qed.

Lemma mountFeature_inv (f : Feature) (s s' : App) :
  mountFeature f s = Some s' -> MapInv s -> MapInv s'.
Proof.
  unfold mountFeature. intros H Hinv.
  set (s1 := if has_setStyle (drawable f)
             then setStyle (drawable f) conservancyStyle s else s) in *.
  assert (H1 : MapInv s1).
  { subst s1. destruct (has_setStyle _); [|exact Hinv].
    apply setStyle_default_inv, Hinv. }
  destruct (onEachFeature f (drawable f) s1) as [s2|] eqn:E; [|discriminate].
  injection H as <-.
  destruct (onEachFeature_frame _ _ _ _ E)
    as (F1 & F2 & F3 & F4 & F5 & F6 & F7 & F8 & F9 & F10 & F11 & F12 & _).
  apply mapCall_inv; [discriminate|].
  apply (MapInv_ext s1); assumption.
Qed.

Lemma mountFeatures_inv (fs : list Feature) (s s' : App) :
  mountFeatures fs s = Some s' -> MapInv s -> MapInv s'.
Proof.
  revert s. induction fs as [|f r IH]; simpl; intros s H Hinv.
  - congruence.
  - destruct (mountFeature f s) as [s1|] eqn:E; [|discriminate].
    apply (IH s1 H). exact (mountFeature_inv _ _ _ E Hinv).
Qed.

Lemma onTimerFire_inv (t : nat) (s : App) : MapInv s -> MapInv (onTimerFire t s).
Proof.
  intros Hinv. unfold onTimerFire.
  destruct (find _ _) as [x|]; [|exact Hinv].
  assert (H1 : MapInv (clearTimeout t s)).
  { apply (MapInv_ext s); try reflexivity. exact Hinv. }
  destruct (action x).
  - apply selectConservancyByName_inv, H1.
  - destruct (mapRef _); [|exact H1]. apply mapCall_inv; [discriminate|exact H1].
Qed.

Lemma onTabClick_frame (i : nat) (s : App) :
  let s' := onTabClick BASE_URL i s in
  conservancyData s' = conservancyData s
  /\ conservancyList s' = conservancyList s
  /\ selectedConservancy s' = selectedConservancy s
  /\ mapReady s' = mapReady s /\ mapRef s' = mapRef s
  /\ selectedLayerRef s' = selectedLayerRef s
  /\ layerMapRef s' = layerMapRef s
  /\ debounceTimeout s' = debounceTimeout s
  /\ panelMounts s' = panelMounts s
  /\ boundaryPending s' = boundaryPending s
  /\ layerStyle s' = layerStyle s /\ clickHandlers s' = clickHandlers s
  /\ mapCalls s' = mapCalls s /\ timers s' = timers s
  /\ nextTimer s' = nextTimer s /\ settled s' = settled s.
Proof. unfold onTabClick, fetchEffect. frame_solve. Qed.

Lemma onChartResponse_frame (k : nat) (r : Response Figure) (s : App) :
  let s' := onChartResponse k r s in
  conservancyData s' = conservancyData s
  /\ conservancyList s' = conservancyList s
  /\ selectedConservancy s' = selectedConservancy s
  /\ mapReady s' = mapReady s /\ mapRef s' = mapRef s
  /\ selectedLayerRef s' = selectedLayerRef s
  /\ layerMapRef s' = layerMapRef s
  /\ debounceTimeout s' = debounceTimeout s
  /\ panelMounts s' = panelMounts s
  /\ boundaryPending s' = boundaryPending s
  /\ layerStyle s' = layerStyle s /\ clickHandlers s' = clickHandlers s
  /\ mapCalls s' = mapCalls s /\ timers s' = timers s
  /\ nextTimer s' = nextTimer s /\ chartFetches s' = chartFetches s.
Proof. unfold onChartResponse. frame_solve. Qed.

Lemma initialApp_inv : MapInv initialApp.
Proof.
  split; cbn; try reflexivity.
  - intros [? [=]].
  - intros l H. unfold highlighted in H. rewrite lookup_empty in H. discriminate.
  - intros pre Hpre. apply prefix_nil_inv in Hpre. subst pre. split.
    + intros l1 l2 H. unfold highlighted, replayStyles in H. cbn in H.
      rewrite lookup_empty in H. discriminate.
    + intros pre' l E. destruct pre'; discriminate E.
Qed.

Lemma step_inv (s s' : App) (e : Event) :
  step BASE_URL localeCompare s e = Some s' -> MapInv s -> MapInv s'.
Proof.
  intros Hstep Hinv. destruct e; unfold step in Hstep.
  - injection Hstep as <-. apply rerender_inv.
    destruct Hinv as [Hr Hm Hh Hp Hc]. split; app_unfold; auto.
  - destruct (boundaryPending s); [|congruence].
    destruct r; try (injection Hstep as <-;
      apply (MapInv_ext s); try reflexivity; exact Hinv).
    destruct (mountGeoJSON _ _) as [s1|] eqn:E; [|discriminate].
    injection Hstep as <-. apply rerender_inv.
    unfold mountGeoJSON in E.
    assert (H0 : MapInv (setConservancyData (Some body)
                           (set_boundaryPending false s))).
    { apply (MapInv_ext s); try reflexivity. exact Hinv. }
    destruct (features body) as [fs|].
    + exact (mountFeatures_inv _ _ _ E H0).
    + congruence.
  - destruct (clickHandlers s !! l) as [name|]; injection Hstep as <-;
      [|exact Hinv].
    apply rerender_inv, selectConservancyByName_inv, Hinv.
  - injection Hstep as <-.
    apply rerender_inv, handleSelectConservancy_inv, Hinv.
  - destruct (sidePanel s); injection Hstep as <-; [|exact Hinv].
    apply rerender_inv, onClose_inv, Hinv.
  - injection Hstep as <-.
    destruct (onTabClick_frame i s)
      as (F1 & F2 & F3 & F4 & F5 & F6 & F7 & F8 & F9 & F10 & F11 & F12 & F13 & _).
    apply (MapInv_ext s); assumption.
  - injection Hstep as <-.
    destruct (onChartResponse_frame k r s)
      as (F1 & F2 & F3 & F4 & F5 & F6 & F7 & F8 & F9 & F10 & F11 & F12 & F13 & _).
    apply (MapInv_ext s); assumption.
  - injection Hstep as <-. apply onTimerFire_inv, Hinv.
Qed.

Lemma reachable_inv (s : App) :
  reachable BASE_URL localeCompare s -> MapInv s.
Proof.
  induction 1 as [|s e s' _ IH Hstep]; [exact initialApp_inv|].
  exact (step_inv _ _ _ Hstep IH).
Qed.

End Preservation.

(** *** The side panel follows the selection *)

Lemma truthy_Some (v : string) : truthy (Some v) = negb (String.eqb v "").
Proof. reflexivity. Qed.

Lemma truthy_false_iff (v : string) : truthy (Some v) = false <-> v = "".
Proof.
  cbn. destruct (String.eqb_spec v ""); cbn; split; congruence.
Qed.

Lemma falsy_orEmpty (name : option string) :
  truthy name = false -> orEmpty name = "".
Proof. destruct name as [v|]; [apply truthy_false_iff | reflexivity]. Qed.

Lemma findTab_nth (i : nat) (t : Tab) :
  nth_error TAB_CONFIG i = Some t -> findTab (tab_id t) = Some t.
Proof.
  destruct i as [|[|[|i]]]; cbn; intros H;
    try (injection H as <-; reflexivity).
  destruct i; discriminate.
Qed.

Lemma sameOutsideSelection_refl (s : App) : sameOutsideSelection s s.
Proof. repeat split. Qed.

Lemma sameOutsideSelection_trans (s1 s2 s3 : App) :
  sameOutsideSelection s1 s2 -> sameOutsideSelection s2 s3 ->
  sameOutsideSelection s1 s3.
Proof.
  unfold sameOutsideSelection.
  intros (A1 & A2 & A3 & A4 & A5 & A6 & A7 & A8 & A9 & A10 & A11 & A12)
         (B1 & B2 & B3 & B4 & B5 & B6 & B7 & B8 & B9 & B10 & B11 & B12).
  repeat split; congruence.
Qed.

Lemma revertSelected_frame (s : App) :
  sameOutsideSelection s (revertSelected s)
  /\ selectedConservancy (revertSelected s) = selectedConservancy s.
Proof.
  unfold revertSelected, sameOutsideSelection.
  destruct (selectedLayerRef s) as [old|]; [|repeat split].
  destruct (has_setStyle old), (has_bringToBack old); repeat split.
Qed.

Lemma highlightLayer_frame (l : Layer) (s : App) :
  sameOutsideSelection s (highlightLayer l s)
  /\ selectedConservancy (highlightLayer l s) = selectedConservancy s.
Proof.
  unfold highlightLayer, sameOutsideSelection.
  destruct (has_setStyle l), (has_bringToFront l), (has_getBounds l);
    repeat split.
Qed.

Lemma selectConservancyByName_same {host : StringMethods}
  (name : option string) (u : bool)
  (s : App) :
  sameOutsideSelection s (selectConservancyByName name u s)
  /\ selectedConservancy (selectConservancyByName name u s)
     = (if u then orEmpty name else selectedConservancy s).
Proof.
  unfold selectConservancyByName.
  set (s0 := if u then setSelectedConservancy (orEmpty name) s else s).
  assert (H0 : sameOutsideSelection s s0
               /\ selectedConservancy s0
                  = (if u then orEmpty name else selectedConservancy s)).
  { subst s0. destruct u; split; try reflexivity; repeat split. }
  destruct H0 as [H0 E0].
  destruct (mapRef s0); cbn [negb]; [|auto].
  destruct (revertSelected_frame s0) as [H1 E1].
  pose proof (sameOutsideSelection_trans _ _ _ H0 H1) as H01.
  destruct (truthy name); cbn [negb]; [|split; congruence].
  destruct (resolveLayer _ _) as [layer|]; [|split; congruence].
  destruct (highlightLayer_frame layer (revertSelected s0)) as [H2 E2].
  split; [exact (sameOutsideSelection_trans _ _ _ H01 H2) | congruence].
Qed.

Lemma selectConservancyByName_frame {host : StringMethods}
  (name : option string) (u : bool) (s : App) :
  let s' := selectConservancyByName name u s in
  conservancyData s' = conservancyData s
  /\ conservancyList s' = conservancyList s
  /\ selectedConservancy s'
     = (if u then orEmpty name else selectedConservancy s)
  /\ mapReady s' = mapReady s /\ mapRef s' = mapRef s
  /\ layerMapRef s' = layerMapRef s
  /\ debounceTimeout s' = debounceTimeout s
  /\ sidePanel s' = sidePanel s /\ panelMounts s' = panelMounts s
  /\ boundaryPending s' = boundaryPending s
  /\ clickHandlers s' = clickHandlers s
  /\ chartFetches s' = chartFetches s /\ settled s' = settled s.
Proof.
  destruct (selectConservancyByName_same name u s)
    as [(A1 & A2 & A3 & A4 & A5 & A6 & A7 & A8 & A9 & A10 & A11 & A12) E].
  cbv zeta. repeat split; assumption.
Qed.

Lemma handleSelectConservancy_frame {host : StringMethods}
  (v : string) (s : App) :
  let s' := handleSelectConservancy v s in
  conservancyData s' = conservancyData s
  /\ conservancyList s' = conservancyList s
  /\ selectedConservancy s' = v
  /\ mapReady s' = mapReady s /\ mapRef s' = mapRef s
  /\ layerMapRef s' = layerMapRef s
  /\ debounceTimeout s' = debounceTimeout s
  /\ sidePanel s' = sidePanel s /\ panelMounts s' = panelMounts s
  /\ boundaryPending s' = boundaryPending s
  /\ clickHandlers s' = clickHandlers s
  /\ chartFetches s' = chartFetches s /\ settled s' = settled s.
Proof.
  unfold handleSelectConservancy. cbv zeta.
  destruct (mapReady s && mapRef s).
  - destruct (selectConservancyByName_frame (Some v) false
                (setSelectedConservancy (orEmpty (Some v)) s))
      as (F1 & F2 & F3 & F4 & F5 & F6 & F7 & F8 & F9 & F10 & F11 & F12 & F13).
    cbv zeta in *. rewrite F1, F2, F3, F4, F5, F6, F7, F8, F9, F10, F11, F12, F13.
    repeat split.
  - repeat split.
Qed.

Lemma onClose_frame (s : App) :
  let s' := onClose s in
  conservancyData s' = conservancyData s
  /\ conservancyList s' = conservancyList s
  /\ selectedConservancy s' = ""
  /\ mapReady s' = mapReady s /\ mapRef s' = mapRef s
  /\ layerMapRef s' = layerMapRef s
  /\ debounceTimeout s' = debounceTimeout s
  /\ sidePanel s' = sidePanel s /\ panelMounts s' = panelMounts s
  /\ boundaryPending s' = boundaryPending s
  /\ clickHandlers s' = clickHandlers s
  /\ timers s' = timers s /\ nextTimer s' = nextTimer s
  /\ chartFetches s' = chartFetches s /\ settled s' = settled s.
Proof. unfold onClose. frame_solve. Qed.

Lemma mountFeatures_frame {host : StringMethods}
  (fs : list Feature) (s s' : App) :
  mountFeatures fs s = Some s' ->
  conservancyData s' = conservancyData s
  /\ conservancyList s' = conservancyList s
  /\ selectedConservancy s' = selectedConservancy s
  /\ mapReady s' = mapReady s /\ mapRef s' = mapRef s
  /\ selectedLayerRef s' = selectedLayerRef s
  /\ debounceTimeout s' = debounceTimeout s
  /\ sidePanel s' = sidePanel s /\ panelMounts s' = panelMounts s
  /\ boundaryPending s' = boundaryPending s
  /\ timers s' = timers s /\ nextTimer s' = nextTimer s
  /\ chartFetches s' = chartFetches s /\ settled s' = settled s.
Proof.
  revert s. induction fs as [|f r IH]; simpl; intros s H.
  - injection H as <-. repeat split.
  - destruct (mountFeature f s) as [s1|] eqn:E; [|discriminate].
    destruct (IH s1 H)
      as (F1 & F2 & F3 & F4 & F5 & F6 & F7 & F8 & F9 & F10 & F11 & F12 & F13 & F14).
    rewrite F1, F2, F3, F4, F5, F6, F7, F8, F9, F10, F11, F12, F13, F14.
    clear - E. unfold mountFeature in E.
    destruct (onEachFeature _ _ _) as [s2|] eqn:E2; [|discriminate].
    injection E as <-.
    destruct (onEachFeature_frame _ _ _ _ E2)
      as (G1 & G2 & G3 & G4 & G5 & G6 & G7 & G8 & G9 & G10 & G11 & G12 & G13 & G14 & G15 & G16).
    app_unfold.
    rewrite G1, G2, G3, G4, G5, G6, G7, G8, G9, G10, G13, G14, G15, G16.
    destruct (has_setStyle (drawable f)); repeat split.
Qed.

Lemma PanelInv_ext (s s' : App) :
  sidePanel s' = sidePanel s ->
  selectedConservancy s' = selectedConservancy s ->
  chartFetches s' = chartFetches s -> settled s' = settled s ->
  PanelInv s -> PanelInv s'.
Proof.
  intros E1 E2 E3 E4 [H1 H2 H3]. split; rewrite ?E1, ?E2, ?E3, ?E4; assumption.
Qed.

Section PanelPreservation.

Context {host : StringMethods}.

Variable BASE_URL : string.
Variable localeCompare : string -> string -> Z.

Lemma fetchEffect_panel (n : string) (p : SidePanel) (s : App) :
  n <> "" -> selectedConservancy s = n ->
  is_Some (findTab (activeTabId p)) ->
  (forall k, In k (settled s) -> k < length (chartFetches s)) ->
  PanelInv (fetchEffect BASE_URL n p s).
Proof.
  intros Hn Hsel [t Ht] Hset. unfold fetchEffect.
  assert (Htr : truthy (Some n) = true).
  { destruct (truthy (Some n)) eqn:E; [reflexivity|].
    apply truthy_false_iff in E. contradiction. }
  rewrite Htr, Ht. cbn [negb]. split; app_unfold.
  - split; [discriminate | congruence].
  - intros p' [= <-]. cbn [activeTabId]. eauto.
  - intros k Hk. rewrite length_app. specialize (Hset k Hk). lia.
Qed.

Lemma renderSidePanel_panel (old s : App) :
  (forall p, sidePanel s = Some p -> is_Some (findTab (activeTabId p))) ->
  (forall k, In k (settled s) -> k < length (chartFetches s)) ->
  PanelInv (renderSidePanel BASE_URL old s).
Proof.
  intros Htab Hset. unfold renderSidePanel.
  destruct (truthy (Some (selectedConservancy s))) eqn:Etr; cbn [negb].
  - assert (Hne : selectedConservancy s <> "").
    { intros E. apply truthy_false_iff in E. congruence. }
    destruct (sidePanel s) as [p|] eqn:Ep.
    + destruct (String.eqb _ _).
      * split; [|rewrite Ep; exact Htab|exact Hset].
        rewrite Ep. split; [discriminate | contradiction].
      * apply fetchEffect_panel; auto.
    + apply fetchEffect_panel; auto; cbn; eauto.
  - apply truthy_false_iff in Etr. split; app_unfold.
    + tauto.
    + discriminate.
    + exact Hset.
Qed.

Lemma rerender_panel (d : bool) (old s : App) :
  (forall p, sidePanel s = Some p -> is_Some (findTab (activeTabId p))) ->
  (forall k, In k (settled s) -> k < length (chartFetches s)) ->
  PanelInv (rerender BASE_URL localeCompare d old s).
Proof.
  intros Htab Hset. unfold rerender.
  pose proof (renderSidePanel_panel old s Htab Hset) as H1.
  set (s1 := renderSidePanel BASE_URL old s) in *.
  set (s2 := if d then setConservancyList _ s1 else s1).
  assert (H2 : PanelInv s2).
  { subst s2. destruct d; [|exact H1].
    apply (PanelInv_ext s1); try reflexivity. exact H1. }
  destruct (_ || _ || _); [|exact H2].
  destruct (debounceEffect_frame s2)
    as (D1 & D2 & D3 & D4 & D5 & D6 & D7 & D8 & D9 & D10 & D11 & D12 & D13 & D14 & D15).
  apply (PanelInv_ext s2); assumption.
Qed.

Lemma rerender_after (d : bool) (old s0 s : App) :
  sidePanel s = sidePanel s0 -> chartFetches s = chartFetches s0 ->
  settled s = settled s0 -> PanelInv s0 ->
  PanelInv (rerender BASE_URL localeCompare d old s).
Proof.
  intros E1 E2 E3 [H1 H2 H3].
  apply rerender_panel; rewrite ?E1, ?E2, ?E3; assumption.
Qed.

Lemma onTabClick_panel (i : nat) (s : App) :
  PanelInv s -> PanelInv (onTabClick BASE_URL i s).
Proof.
  intros Hinv. unfold onTabClick.
  destruct (sidePanel s) as [p|] eqn:Ep; [|exact Hinv].
  destruct (nth_error TAB_CONFIG i) as [t|] eqn:Et; [|exact Hinv].
  destruct (String.eqb _ _); [exact Hinv|].
  apply fetchEffect_panel; auto.
  - intros E. apply (inv_panel s Hinv) in E. congruence.
  - cbn [activeTabId]. rewrite (findTab_nth _ _ Et). eauto.
  - apply (inv_settled s Hinv).
Qed.

Lemma onChartResponse_panel (k : nat) (r : Response Figure) (s : App) :
  PanelInv s -> PanelInv (onChartResponse k r s).
Proof.
  intros [H1 H2 H3]. unfold onChartResponse.
  destruct (nth_error (chartFetches s) k) as [f|] eqn:Ef; [|split; assumption].
  destruct (existsb _ _); [split; assumption|].
  assert (Hk : k < length (chartFetches s)).
  { apply nth_error_Some. congruence. }
  assert (Hset : forall j, In j (k :: settled s) -> j < length (chartFetches s)).
  { intros j [<-|Hj]; auto. }
  app_unfold. destruct (sidePanel s) as [p|] eqn:Ep.
  - destruct (Nat.eqb _ _); split; app_unfold; rewrite ?Ep; try assumption.
    + split; [discriminate|]. intros E. apply H1 in E. discriminate.
    + intros p' [= <-]. destruct r; cbn; apply (H2 p eq_refl).
  - split; app_unfold; rewrite ?Ep; assumption.
Qed.

Lemma onTimerFire_frame (t : nat) (s : App) :
  let s' := onTimerFire t s in
  conservancyData s' = conservancyData s
  /\ conservancyList s' = conservancyList s
  /\ selectedConservancy s' = selectedConservancy s
  /\ mapReady s' = mapReady s /\ mapRef s' = mapRef s
  /\ layerMapRef s' = layerMapRef s
  /\ debounceTimeout s' = debounceTimeout s
  /\ sidePanel s' = sidePanel s /\ panelMounts s' = panelMounts s
  /\ boundaryPending s' = boundaryPending s
  /\ clickHandlers s' = clickHandlers s
  /\ chartFetches s' = chartFetches s /\ settled s' = settled s.
Proof.
  unfold onTimerFire. cbv zeta. destruct (find _ _) as [x|]; [|repeat split].
  destruct (action x).
  - destruct (selectConservancyByName_frame (Some name) false (clearTimeout t s))
      as (F1 & F2 & F3 & F4 & F5 & F6 & F7 & F8 & F9 & F10 & F11 & F12 & F13).
    cbv zeta in *. rewrite F1, F2, F3, F4, F5, F6, F7, F8, F9, F10, F11, F12, F13.
    repeat split.
  - destruct (mapRef (clearTimeout t s)); repeat split.
Qed.

Lemma initialApp_panel : PanelInv initialApp.
Proof.
  split; cbn.
  - tauto.
  - discriminate.
  - intros k [].
Qed.

Lemma step_panel (s s' : App) (e : Event) :
  step BASE_URL localeCompare s e = Some s' -> PanelInv s -> PanelInv s'.
Proof.
  intros Hstep Hinv. destruct e; unfold step in Hstep.
  - injection Hstep as <-. apply (rerender_after _ _ s); auto.
  - destruct (boundaryPending s); [|congruence].
    destruct r; try (injection Hstep as <-;
      apply (PanelInv_ext s); try reflexivity; exact Hinv).
    destruct (mountGeoJSON _ _) as [s1|] eqn:E; [|discriminate].
    injection Hstep as <-. unfold mountGeoJSON in E.
    destruct (features body) as [fs|].
    + destruct (mountFeatures_frame _ _ _ E)
        as (F1 & F2 & F3 & F4 & F5 & F6 & F7 & F8 & F9 & F10 & F11 & F12 & F13 & F14).
      apply (rerender_after _ _ s); auto.
    + discriminate E.
  - destruct (clickHandlers s !! l) as [name|]; injection Hstep as <-;
      [|exact Hinv].
    destruct (selectConservancyByName_frame name true s)
      as (F1 & F2 & F3 & F4 & F5 & F6 & F7 & F8 & F9 & F10 & F11 & F12 & F13).
    apply (rerender_after _ _ s); auto.
  - injection Hstep as <-.
    destruct (handleSelectConservancy_frame value s)
      as (F1 & F2 & F3 & F4 & F5 & F6 & F7 & F8 & F9 & F10 & F11 & F12 & F13).
    apply (rerender_after _ _ s); auto.
  - destruct (sidePanel s); injection Hstep as <-; [|exact Hinv].
    destruct (onClose_frame s)
      as (F1 & F2 & F3 & F4 & F5 & F6 & F7 & F8 & F9 & F10 & F11 & F12 & F13 & F14 & F15).
    apply (rerender_after _ _ s); auto.
  - injection Hstep as <-. apply onTabClick_panel, Hinv.
  - injection Hstep as <-. apply onChartResponse_panel, Hinv.
  - injection Hstep as <-.
    destruct (onTimerFire_frame t s)
      as (F1 & F2 & F3 & F4 & F5 & F6 & F7 & F8 & F9 & F10 & F11 & F12 & F13).
    apply (PanelInv_ext s); assumption.
Qed.

Lemma reachable_panel (s : App) :
  reachable BASE_URL localeCompare s -> PanelInv s.
Proof.
  induction 1 as [|s e s' _ IH Hstep]; [exact initialApp_panel|].
  exact (step_panel _ _ _ Hstep IH).
Qed.

Lemma run_reachable (es : list Event) (s s' : App) :
  reachable BASE_URL localeCompare s ->
  run BASE_URL localeCompare s es = Some s' ->
  reachable BASE_URL localeCompare s'.
Proof.
  revert s. induction es as [|e r IH]; simpl; intros s Hs H.
  - injection H as <-. exact Hs.
  - destruct (step BASE_URL localeCompare s e) as [s1|] eqn:E; [|discriminate].
    apply (IH s1); [|exact H]. exact (reachable_step _ _ _ _ _ Hs E).
Qed.

End PanelPreservation.

(** *** Timers *)

Lemma TimerInvAt_ext (sel : string) (ready : bool) (s s' : App) :
  timers s' = timers s -> nextTimer s' = nextTimer s ->
  debounceTimeout s' = debounceTimeout s ->
  TimerInvAt sel ready s -> TimerInvAt sel ready s'.
Proof.
  intros E1 E2 E3 [H1 H2 H3 H4 H5 H6].
  split; rewrite ?E1, ?E2, ?E3; assumption.
Qed.

Lemma setTimeout_invalidate (sel : string) (ready : bool) (s : App) :
  TimerInvAt sel ready s ->
  TimerInvAt sel ready (setTimeout InvalidateSize 300 s).
Proof.
  intros [H1 H2 H3 H4 H5 H6]. split; app_unfold.
  - intros x Hx. apply elem_of_app in Hx as [Hx|Hx].
    + specialize (H1 x Hx). lia.
    + apply list_elem_of_singleton in Hx. subst x. cbn. lia.
  - rewrite map_app. cbn. apply list.NoDup_app. split; [exact H2|]. split.
    + intros i Hi Hi'. apply list_elem_of_singleton in Hi'. subst i.
      change (map timer_id (timers s)) with (timer_id <$> timers s) in Hi.
      apply list_elem_of_fmap in Hi as (x & E & Hx).
      specialize (H1 x Hx). lia.
    + apply list.NoDup_singleton.
  - intros x Hx. apply elem_of_app in Hx as [Hx|Hx]; [auto|].
    apply list_elem_of_singleton in Hx. subst x. reflexivity.
  - intros t Ht. specialize (H4 t Ht). lia.
  - intros x n Hx Hn. apply elem_of_app in Hx as [Hx|Hx]; [eauto|].
    apply list_elem_of_singleton in Hx. subst x. discriminate Hn.
  - intros x Hx Hn. apply elem_of_app in Hx as [Hx|Hx]; [eauto|].
    apply list_elem_of_singleton in Hx. subst x. cbn.
    intros E. specialize (H4 _ E). lia.
Qed.

Lemma clearTimeout_inv (sel : string) (ready : bool) (t : nat) (s : App) :
  TimerInvAt sel ready s -> TimerInvAt sel ready (clearTimeout t s).
Proof.
  intros [H1 H2 H3 H4 H5 H6]. split; app_unfold; try assumption.
  - intros x Hx. apply list_elem_of_filter in Hx as [_ Hx]. auto.
  - change (map timer_id (filter (fun x => timer_id x <> t) (timers s)))
      with (timer_id <$> filter (fun x => timer_id x <> t) (timers s)).
    change (map timer_id (timers s)) with (timer_id <$> timers s) in H2.
    clear - H2. induction (timers s) as [|y r IH]; [constructor|].
    rewrite fmap_cons in H2. apply list.NoDup_cons in H2 as [Hy Hr].
    rewrite filter_cons. destruct (decide (timer_id y <> t)); [|auto].
    rewrite fmap_cons. apply list.NoDup_cons. split; [|auto].
    intros Hin. apply Hy. apply list_elem_of_fmap in Hin as (z & E & Hz).
    apply list_elem_of_filter in Hz as [_ Hz].
    apply list_elem_of_fmap. eauto.
  - intros x Hx. apply list_elem_of_filter in Hx as [_ Hx]. auto.
  - intros x n Hx. apply list_elem_of_filter in Hx as [_ Hx]. eauto.
  - intros x Hx. apply list_elem_of_filter in Hx as [_ Hx]. eauto.
Qed.

Lemma highlightLayer_timers (l : Layer) (s : App) :
  debounceTimeout (highlightLayer l s) = debounceTimeout s
  /\ ((timers (highlightLayer l s) = timers s
       /\ nextTimer (highlightLayer l s) = nextTimer s)
      \/ (timers (highlightLayer l s)
            = timers s ++ [mkTimer (nextTimer s) 300 InvalidateSize]
          /\ nextTimer (highlightLayer l s) = S (nextTimer s))).
Proof.
  unfold highlightLayer.
  destruct (has_setStyle l), (has_bringToFront l), (has_getBounds l);
    app_unfold; split; auto.
Qed.

Lemma revertSelected_timers (s : App) :
  timers (revertSelected s) = timers s
  /\ nextTimer (revertSelected s) = nextTimer s
  /\ debounceTimeout (revertSelected s) = debounceTimeout s.
Proof. unfold revertSelected. frame_solve. Qed.

Lemma selectConservancyByName_timers {host : StringMethods}
  (name : option string) (u : bool)
  (s : App) :
  let s' := selectConservancyByName name u s in
  debounceTimeout s' = debounceTimeout s
  /\ ((timers s' = timers s /\ nextTimer s' = nextTimer s)
      \/ (timers s' = timers s ++ [mkTimer (nextTimer s) 300 InvalidateSize]
          /\ nextTimer s' = S (nextTimer s))).
Proof.
  cbv zeta. unfold selectConservancyByName.
  set (s0 := if u then setSelectedConservancy (orEmpty name) s else s).
  assert (E0 : timers s0 = timers s /\ nextTimer s0 = nextTimer s
               /\ debounceTimeout s0 = debounceTimeout s).
  { subst s0. destruct u; repeat split. }
  destruct E0 as (T0 & N0 & D0).
  destruct (mapRef s0); cbn [negb]; [|auto].
  destruct (revertSelected_timers s0) as (T1 & N1 & D1).
  destruct (truthy name); cbn [negb].
  - destruct (resolveLayer _ _) as [layer|].
    + destruct (highlightLayer_timers layer (revertSelected s0)) as [D2 H2].
      rewrite D2, D1, D0. split; [reflexivity|].
      rewrite T1, N1, T0, N0 in H2. exact H2.
    + rewrite T1, N1, D1. auto.
  - rewrite T1, N1, D1. auto.
Qed.

Lemma selectConservancyByName_timerInv {host : StringMethods}
  (sel : string) (ready : bool)
  (name : option string) (u : bool) (s : App) :
  TimerInvAt sel ready s ->
  TimerInvAt sel ready (selectConservancyByName name u s).
Proof.
  intros Hinv.
  destruct (selectConservancyByName_timers name u s) as [D [[T N]|[T N]]].
  - apply (TimerInvAt_ext _ _ s); assumption.
  - apply (TimerInvAt_ext _ _ (setTimeout InvalidateSize 300 s)); try assumption.
    apply setTimeout_invalidate, Hinv.
Qed.

(** Lines 208-214: the cleanup cancels the pending debounce, the body
    schedules the one for the current selection. *)
Lemma debounceEffect_timerInv (sel : string) (ready : bool) (s : App) :
  TimerInvAt sel ready s -> TimerInv (debounceEffect s).
Proof.
  intros Hinv. unfold TimerInv, debounceEffect.
  set (s0 := match debounceTimeout s with
             | Some t => set_debounceTimeout None (clearTimeout t s)
             | None => s
             end).
  assert (H0 : TimerInvAt sel ready s0 /\ debounceTimeout s0 = None
               /\ (forall x, x ∈ timers s0 -> action x = InvalidateSize)
               /\ selectedConservancy s0 = selectedConservancy s
               /\ mapReady s0 = mapReady s).
  { subst s0. destruct (debounceTimeout s) as [t|] eqn:Et.
    - pose proof (clearTimeout_inv sel ready t s Hinv) as [H1 H2 H3 H4 H5 H6].
      split; [|split; [reflexivity|split; [|split; reflexivity]]].
      + split; app_unfold; try assumption; try discriminate.
        intros x n Hx Hn. apply list_elem_of_filter in Hx as [Hne Hx].
        destruct (inv_debounce _ _ _ Hinv x n Hx Hn) as (E & _).
        congruence.
      + app_unfold. intros x Hx. apply list_elem_of_filter in Hx as [Hne Hx].
        destruct (action x) as [n|] eqn:Ea; [|reflexivity].
        destruct (inv_debounce _ _ _ Hinv x n Hx Ea) as (E & _). congruence.
    - split; [exact Hinv|]. split; [exact Et|]. split; [|split; reflexivity].
      intros x Hx. destruct (action x) as [n|] eqn:Ea; [|reflexivity].
      destruct (inv_debounce _ _ _ Hinv x n Hx Ea) as (E & _). congruence. }
  destruct H0 as ([H1 H2 H3 H4 H5 H6] & Hd & Hall & Hsel & Hready).
  destruct (mapReady s0) eqn:Er; cbn [negb orb].
  - destruct (truthy (Some (selectedConservancy s0))) eqn:Etr; cbn [negb].
    + assert (Hne : selectedConservancy s0 <> "").
      { intros E. apply truthy_false_iff in E. congruence. }
      split; app_unfold.
      * intros x Hx. apply elem_of_app in Hx as [Hx|Hx].
        -- specialize (H1 x Hx). lia.
        -- apply list_elem_of_singleton in Hx. subst x. cbn. lia.
      * rewrite map_app. cbn. apply list.NoDup_app. split; [exact H2|]. split.
        -- intros i Hi Hi'. apply list_elem_of_singleton in Hi'. subst i.
           change (map timer_id (timers s0)) with (timer_id <$> timers s0) in Hi.
           apply list_elem_of_fmap in Hi as (x & E & Hx).
           specialize (H1 x Hx). lia.
        -- apply list.NoDup_singleton.
      * intros x Hx. apply elem_of_app in Hx as [Hx|Hx]; [auto|].
        apply list_elem_of_singleton in Hx. subst x. reflexivity.
      * intros t [= <-]. lia.
      * intros x n Hx Hn. apply elem_of_app in Hx as [Hx|Hx].
        -- rewrite (Hall x Hx) in Hn. discriminate.
        -- apply list_elem_of_singleton in Hx. subst x. cbn in *.
           injection Hn as <-. auto.
      * intros x Hx Hn. apply elem_of_app in Hx as [Hx|Hx].
        -- specialize (H1 x Hx). intros [= E]. lia.
        -- apply list_elem_of_singleton in Hx. subst x. discriminate Hn.
    + split; try assumption.
      * intros x n Hx Hn. rewrite (Hall x Hx) in Hn. discriminate.
  - split; try assumption.
    intros x n Hx Hn. rewrite (Hall x Hx) in Hn. discriminate.
Qed.

Lemma keepsInvalidate_refl (s s' : App) :
  timers s' = timers s -> keepsInvalidate s s'.
Proof. intros E x Hx _. rewrite E. exact Hx. Qed.

Lemma keepsInvalidate_trans (s1 s2 s3 : App) :
  keepsInvalidate s1 s2 -> keepsInvalidate s2 s3 -> keepsInvalidate s1 s3.
Proof. intros H12 H23 x Hx Ha. apply H23; [apply H12|]; assumption. Qed.

Lemma selectConservancyByName_keeps {host : StringMethods}
  (name : option string) (u : bool)
  (s : App) :
  keepsInvalidate s (selectConservancyByName name u s).
Proof.
  destruct (selectConservancyByName_timers name u s) as [_ [[T _]|[T _]]];
    intros x Hx _; rewrite T; [exact Hx|].
  apply elem_of_app. left. exact Hx.
Qed.

Lemma debounceEffect_keeps (sel : string) (ready : bool) (s : App) :
  TimerInvAt sel ready s -> keepsInvalidate s (debounceEffect s).
Proof.
  intros Hinv x Hx Ha. unfold debounceEffect.
  assert (Hkeep : x ∈ timers (match debounceTimeout s with
                              | Some t => set_debounceTimeout None (clearTimeout t s)
                              | None => s
                              end)).
  { destruct (debounceTimeout s) as [t|] eqn:Et; [|exact Hx].
    app_unfold. apply list_elem_of_filter. split; [|exact Hx].
    intros E. apply (inv_invalidate _ _ _ Hinv x Hx Ha). congruence. }
  destruct (_ || _); [exact Hkeep|].
  app_unfold. apply elem_of_app. left. exact Hkeep.
Qed.

Section TimerPreservation.

Context {host : StringMethods}.

Variable BASE_URL : string.
Variable localeCompare : string -> string -> Z.

Lemma rerender_timers_before (d : bool) (old s : App) :
  exists s2,
    rerender BASE_URL localeCompare d old s
    = (if d || negb (String.eqb (selectedConservancy old)
                       (selectedConservancy s))
          || negb (Bool.eqb (mapReady old) (mapReady s))
       then debounceEffect s2 else s2)
    /\ timers s2 = timers s /\ nextTimer s2 = nextTimer s
    /\ debounceTimeout s2 = debounceTimeout s
    /\ selectedConservancy s2 = selectedConservancy s
    /\ mapReady s2 = mapReady s.
Proof.
  unfold rerender.
  destruct (renderSidePanel_frame BASE_URL old s)
    as (R1 & R2 & R3 & R4 & R5 & R6 & R7 & R8 & R9 & R10 & R11 & R12 & R13 & R14 & R15).
  set (s1 := renderSidePanel BASE_URL old s) in *.
  exists (if d then setConservancyList (deriveNames localeCompare
                                          (conservancyData s1)) s1 else s1).
  split; [reflexivity|]. destruct d; app_unfold; auto.
Qed.

Lemma rerender_timerInv (d : bool) (old s : App) :
  TimerInvAt (selectedConservancy old) (mapReady old) s ->
  TimerInv (rerender BASE_URL localeCompare d old s).
Proof.
  intros Hinv.
  destruct (rerender_timers_before d old s) as (s2 & -> & T & N & D & S & M).
  assert (H2 : TimerInvAt (selectedConservancy old) (mapReady old) s2).
  { apply (TimerInvAt_ext _ _ s); assumption. }
  destruct d; cbn [orb].
  - exact (debounceEffect_timerInv _ _ _ H2).
  - destruct (String.eqb_spec (selectedConservancy old) (selectedConservancy s))
      as [Es|_]; cbn [negb orb];
      [|exact (debounceEffect_timerInv _ _ _ H2)].
    destruct (Bool.eqb (mapReady old) (mapReady s)) eqn:Em; cbn [negb];
      [|exact (debounceEffect_timerInv _ _ _ H2)].
    apply Bool.eqb_prop in Em. unfold TimerInv. rewrite S, M, <- Es, <- Em.
    exact H2.
Qed.

Lemma rerender_keeps (d : bool) (old s : App) :
  TimerInvAt (selectedConservancy old) (mapReady old) s ->
  keepsInvalidate s (rerender BASE_URL localeCompare d old s).
Proof.
  intros Hinv.
  destruct (rerender_timers_before d old s) as (s2 & -> & T & N & D & S & M).
  assert (H2 : TimerInvAt (selectedConservancy old) (mapReady old) s2).
  { apply (TimerInvAt_ext _ _ s); assumption. }
  apply (keepsInvalidate_trans s s2); [apply keepsInvalidate_refl, T|].
  destruct (_ || _ || _); [|apply keepsInvalidate_refl; reflexivity].
  exact (debounceEffect_keeps _ _ _ H2).
Qed.


Lemma initialApp_timerInv : TimerInv initialApp.
Proof.
  split; cbn.
  - intros x Hx. inversion Hx.
  - constructor.
  - intros x Hx. inversion Hx.
  - discriminate.
  - intros x n Hx. inversion Hx.
  - intros x Hx. inversion Hx.
Qed.

Lemma handler_timers_ext (s s' : App) :
  timers s' = timers s -> nextTimer s' = nextTimer s ->
  debounceTimeout s' = debounceTimeout s ->
  TimerInv s ->
  TimerInvAt (selectedConservancy s) (mapReady s) s'.
Proof. intros T N D H. exact (TimerInvAt_ext _ _ s s' T N D H). Qed.

Lemma onTimerFire_timers (t : nat) (s : App) :
  TimerInv s ->
  TimerInv (onTimerFire t s)
  /\ forall x, x ∈ timers s -> action x = InvalidateSize ->
               timer_id x <> t -> x ∈ timers (onTimerFire t s).
Proof.
  intros Hinv.
  destruct (onTimerFire_frame t s)
    as (F1 & F2 & F3 & F4 & F5 & F6 & F7 & F8 & F9 & F10 & F11 & F12 & F13).
  unfold TimerInv. cbv zeta in *. rewrite F3, F4. clear - Hinv.
  unfold onTimerFire.
  destruct (find _ _) as [y|]; [|split; [exact Hinv|auto]].
  pose proof (clearTimeout_inv _ _ t s Hinv) as H1.
  assert (K1 : forall x, x ∈ timers s -> timer_id x <> t ->
                         x ∈ timers (clearTimeout t s)).
  { intros x Hx Hne. app_unfold. apply list_elem_of_filter. auto. }
  destruct (action y).
  - split; [apply selectConservancyByName_timerInv, H1|].
    intros x Hx Ha Hne. apply selectConservancyByName_keeps; auto.
  - destruct (mapRef _).
    + split; [apply (TimerInvAt_ext _ _ (clearTimeout t s)); auto|].
      intros x Hx Ha Hne. apply K1; auto.
    + split; [exact H1|]. intros x Hx Ha Hne. apply K1; auto.
Qed.

Lemma step_timers (s s' : App) (e : Event) :
  step BASE_URL localeCompare s e = Some s' -> TimerInv s ->
  TimerInv s'
  /\ forall x, x ∈ timers s -> action x = InvalidateSize ->
               e <> TimerFire (timer_id x) -> x ∈ timers s'.
Proof.
  intros Hstep Hinv. destruct e; unfold step in Hstep.
  - injection Hstep as <-.
    assert (H0 : TimerInvAt (selectedConservancy s) (mapReady s)
                   (setMapReady true (set_mapRef true s))).
    { apply handler_timers_ext; auto. }
    split; [apply rerender_timerInv, H0|].
    intros x Hx Ha _. apply (rerender_keeps _ _ _ H0); assumption.
  - destruct (boundaryPending s); [|injection Hstep as <-; auto].
    destruct r; try (injection Hstep as <-; split;
      [apply (TimerInvAt_ext _ _ s); auto | auto]).
    destruct (mountGeoJSON _ _) as [s1|] eqn:E; [|discriminate].
    injection Hstep as <-. unfold mountGeoJSON in E.
    assert (H0 : TimerInvAt (selectedConservancy s) (mapReady s) s1
                 /\ timers s1 = timers s).
    { destruct (features body) as [fs|].
      - destruct (mountFeatures_frame _ _ _ E)
          as (F1 & F2 & F3 & F4 & F5 & F6 & F7 & F8 & F9 & F10 & F11 & F12 & F13 & F14).
        split; [apply handler_timers_ext; auto | exact F11].
      - discriminate E. }
    destruct H0 as [H0 T0].
    split; [apply rerender_timerInv, H0|].
    intros x Hx Ha _. apply (rerender_keeps _ _ _ H0); [|assumption].
    rewrite T0. exact Hx.
  - destruct (clickHandlers s !! l) as [name|]; injection Hstep as <-;
      [|auto].
    pose proof (selectConservancyByName_timerInv _ _ name true s Hinv) as H0.
    split; [apply rerender_timerInv, H0|].
    intros x Hx Ha _. apply (rerender_keeps _ _ _ H0); [|assumption].
    apply selectConservancyByName_keeps; assumption.
  - injection Hstep as <-.
    assert (H0 : TimerInvAt (selectedConservancy s) (mapReady s)
                   (handleSelectConservancy value s)
                 /\ keepsInvalidate s (handleSelectConservancy value s)).
    { unfold handleSelectConservancy.
      assert (H1 : TimerInvAt (selectedConservancy s) (mapReady s)
                     (setSelectedConservancy (orEmpty (Some value)) s)).
      { apply handler_timers_ext; auto. }
      destruct (_ && _).
      - split; [apply selectConservancyByName_timerInv, H1|].
        apply (keepsInvalidate_trans _ (setSelectedConservancy
                                          (orEmpty (Some value)) s)).
        + apply keepsInvalidate_refl. reflexivity.
        + apply selectConservancyByName_keeps.
      - split; [exact H1|]. apply keepsInvalidate_refl. reflexivity. }
    destruct H0 as [H0 K0].
    split; [apply rerender_timerInv, H0|].
    intros x Hx Ha _. apply (rerender_keeps _ _ _ H0); [|assumption].
    apply K0; assumption.
  - destruct (sidePanel s); injection Hstep as <-; [|auto].
    destruct (onClose_frame s)
      as (F1 & F2 & F3 & F4 & F5 & F6 & F7 & F8 & F9 & F10 & F11 & F12 & F13 & F14 & F15).
    assert (H0 : TimerInvAt (selectedConservancy s) (mapReady s) (onClose s)).
    { apply handler_timers_ext; auto. }
    split; [apply rerender_timerInv, H0|].
    intros x Hx Ha _. apply (rerender_keeps _ _ _ H0); [|assumption].
    cbv zeta in F12. rewrite F12. exact Hx.
  - injection Hstep as <-.
    destruct (onTabClick_frame BASE_URL i s)
      as (F1 & F2 & F3 & F4 & F5 & F6 & F7 & F8 & F9 & F10 & F11 & F12 & F13 & F14 & F15 & F16).
    cbv zeta in *. split.
    + unfold TimerInv. rewrite F3, F4. apply handler_timers_ext; auto.
    + intros x Hx _ _. rewrite F14. exact Hx.
  - injection Hstep as <-.
    destruct (onChartResponse_frame k r s)
      as (F1 & F2 & F3 & F4 & F5 & F6 & F7 & F8 & F9 & F10 & F11 & F12 & F13 & F14 & F15 & F16).
    cbv zeta in *. split.
    + unfold TimerInv. rewrite F3, F4. apply handler_timers_ext; auto.
    + intros x Hx _ _. rewrite F14. exact Hx.
  - injection Hstep as <-.
    destruct (onTimerFire_timers t s Hinv) as [H1 H2].
    split; [exact H1|]. intros x Hx Ha Hne. apply H2; auto; congruence.
Qed.

Lemma reachable_timerInv (s : App) :
  reachable BASE_URL localeCompare s -> TimerInv s.
Proof.
  induction 1 as [|s e s' _ IH Hstep]; [exact initialApp_timerInv|].
  exact (proj1 (step_timers _ _ _ Hstep IH)).
Qed.

End TimerPreservation.

(** ** Sample session *)

Lemma sampleRun_reachable (es : list Event) (s : App) :
  sampleRun es = Some s -> reachable sampleBase sampleLocaleCompare s.
Proof.
  intros H. apply (run_reachable _ _ es initialApp); [constructor | exact H].
Qed.

(** * The claims *)

(** C2.  In every reachable state at most one layer carries the highlight
    style.  The same holds after every single call made on the map, and
    each call that gives a layer the highlight style is made when no layer
    carries it: the previously highlighted layer has been reverted before. *)
Theorem highlight_at_most_one {host : StringMethods} (BASE_URL : string)
  (localeCompare : string -> string -> Z) (s : App) :
  reachable BASE_URL localeCompare s ->
  atMostOneHighlighted (layerStyle s)
  /\ layerStyle s = replayStyles (mapCalls s)
  /\ forall pre, pre `prefix_of` mapCalls s ->
       atMostOneHighlighted (replayStyles pre)
       /\ forall pre' l, pre = pre' ++ [SetStyle l highlightStyle] ->
                         noneHighlighted (replayStyles pre').
Proof.
  intros Hr. destruct (reachable_inv _ _ _ Hr) as [_ _ Hh Hp Hc].
  split; [|split; [exact Hp | exact Hc]].
  intros l1 l2 H1 H2. destruct (Hh l1 H1) as [E1 _], (Hh l2 H2) as [E2 _].
  congruence.
Qed.

Lemma highlight_at_most_one_witness :
  let s := stateAfter (sampleLoaded ++ [LayerClick (polygon 0);
                                        SelectChange "Il Ngwesi"]) in
  highlighted (layerStyle s) (polygon 1)
  /\ atMostOneHighlighted (layerStyle s)
  /\ layerStyle s = replayStyles (mapCalls s)
  /\ forall pre, pre `prefix_of` mapCalls s ->
       atMostOneHighlighted (replayStyles pre)
       /\ forall pre' l, pre = pre' ++ [SetStyle l highlightStyle] ->
                         noneHighlighted (replayStyles pre').
Proof.
  split; [vm_compute; reflexivity|].
  apply (highlight_at_most_one sampleBase sampleLocaleCompare).
  apply (sampleRun_reachable
           (sampleLoaded ++ [LayerClick (polygon 0); SelectChange "Il Ngwesi"])).
  vm_compute. reflexivity.
Defined.

Lemma revertSelected_reverts (s : App) (l : Layer) :
  MapInv s -> highlighted (layerStyle s) l ->
  layerStyle (revertSelected s) !! l = Some conservancyStyle.
Proof.
  intros Hinv Hl. destruct (inv_highlight s Hinv l Hl) as [Eref Es].
  unfold revertSelected. rewrite Eref, Es.
  destruct (has_bringToBack l); app_unfold; apply lookup_insert_eq.
Qed.

Lemma rerender_closes (BASE_URL : string)
  (localeCompare : string -> string -> Z) (d : bool) (old s : App) :
  selectedConservancy s = "" ->
  sidePanel (rerender BASE_URL localeCompare d old s) = None
  /\ chartFetches (rerender BASE_URL localeCompare d old s) = chartFetches s.
Proof.
  intros Hsel. unfold rerender.
  assert (H1 : sidePanel (renderSidePanel BASE_URL old s) = None
               /\ chartFetches (renderSidePanel BASE_URL old s) = chartFetches s).
  { unfold renderSidePanel. rewrite Hsel. cbn. auto. }
  set (s1 := renderSidePanel BASE_URL old s) in *.
  set (s2 := if d then setConservancyList _ s1 else s1).
  assert (H2 : sidePanel s2 = None /\ chartFetches s2 = chartFetches s).
  { subst s2. destruct d; exact H1. }
  destruct (_ || _ || _); [|exact H2].
  destruct (debounceEffect_frame s2)
    as (D1 & D2 & D3 & D4 & D5 & D6 & D7 & D8 & D9 & D10 & D11 & D12 & D13 & D14 & D15).
  cbv zeta in *. rewrite D8, D14. exact H2.
Qed.

(** C10.  A feature whose properties hold no truthy NAME still gets a click
    handler (and no entry in the name-to-layer map).  Clicking it clears
    the selection: the selected name becomes empty, a highlighted layer is
    back on the default style, the back-reference is dropped, no layer is
    highlighted and the side panel is closed. *)
Theorem unnamed_feature_click_clears {host : StringMethods} (BASE_URL : string)
  (localeCompare : string -> string -> Z)
  (f : Feature) (p : Properties) (s0 s : App) :
  properties f = Some p -> truthy (NAME p) = false ->
  reachable BASE_URL localeCompare s ->
  clickHandlers s !! drawable f = Some (NAME p) ->
  (exists s1, onEachFeature f (drawable f) s0 = Some s1
              /\ clickHandlers s1 !! drawable f = Some (NAME p)
              /\ layerMapRef s1 = layerMapRef s0)
  /\ exists s', step BASE_URL localeCompare s (LayerClick (drawable f)) = Some s'
       /\ selectedConservancy s' = ""
       /\ selectedLayerRef s' = None
       /\ noneHighlighted (layerStyle s')
       /\ (forall l, highlighted (layerStyle s) l ->
                     layerStyle s' !! l = Some conservancyStyle)
       /\ sidePanel s' = None.
Proof.
  intros Hp Hfalsy Hr Hh. split.
  - unfold onEachFeature. rewrite Hp, Hfalsy. eexists. split; [reflexivity|].
    app_unfold. split; [apply lookup_insert_eq | reflexivity].
  - unfold step. rewrite Hh. eexists. split; [reflexivity|].
    pose proof (reachable_inv _ _ _ Hr) as Hinv.
    set (s1 := selectConservancyByName (NAME p) true s).
    destruct (rerender_frame BASE_URL localeCompare false s s1)
      as (R1 & R2 & R3 & R4 & R5 & R6 & R7 & R8 & R9 & R10 & R11).
    cbv zeta in *. rewrite R2, R5, R8.
    assert (Hsel : selectedConservancy s1 = "").
    { subst s1. destruct (selectConservancyByName_same (NAME p) true s) as [_ E].
      rewrite E. apply falsy_orEmpty, Hfalsy. }
    split; [exact Hsel|].
    split; [|split; [|split; [|apply rerender_closes, Hsel]]].
    all: subst s1; unfold selectConservancyByName; rewrite Hfalsy; cbn [negb].
    all: set (s0' := setSelectedConservancy (orEmpty (NAME p)) s).
    all: assert (H0 : MapInv s0')
           by (apply (MapInv_ext s); try reflexivity; exact Hinv).
    all: destruct (mapRef s0') eqn:Emap; cbn [negb].
    + apply (revertSelected_spec s0' H0).
    + destruct (selectedLayerRef s0') eqn:E; [|reflexivity].
      rewrite (inv_ref_map _ H0) in Emap by eauto. discriminate.
    + apply (revertSelected_spec s0' H0).
    + intros l Hl. destruct (inv_highlight _ H0 l Hl) as [E _].
      rewrite (inv_ref_map _ H0) in Emap by eauto. discriminate.
    + intros l Hl. apply (revertSelected_reverts s0' l H0 Hl).
    + intros l Hl. destruct (inv_highlight _ H0 l Hl) as [E _].
      rewrite (inv_ref_map _ H0) in Emap by eauto. discriminate.
Qed.

Lemma unnamed_feature_click_clears_witness :
  let f := mkFeature (Some (mkProperties None)) (polygon 2) in
  let s := stateAfter (sampleLoaded ++ [SelectChange "Naapu"]) in
  highlighted (layerStyle s) (polygon 0)
  /\ (exists s1, onEachFeature f (drawable f) initialApp = Some s1
                 /\ clickHandlers s1 !! drawable f = Some None
                 /\ layerMapRef s1 = layerMapRef initialApp)
  /\ exists s', step sampleBase sampleLocaleCompare s (LayerClick (polygon 2))
                = Some s'
       /\ selectedConservancy s' = ""
       /\ selectedLayerRef s' = None
       /\ noneHighlighted (layerStyle s')
       /\ (forall l, highlighted (layerStyle s) l ->
                     layerStyle s' !! l = Some conservancyStyle)
       /\ sidePanel s' = None.
Proof.
  split; [vm_compute; reflexivity|].
  apply (unnamed_feature_click_clears sampleBase sampleLocaleCompare
           (mkFeature (Some (mkProperties None)) (polygon 2))
           (mkProperties None) initialApp
           (stateAfter (sampleLoaded ++ [SelectChange "Naapu"]))).
  - reflexivity.
  - reflexivity.
  - apply (sampleRun_reachable (sampleLoaded ++ [SelectChange "Naapu"])).
    vm_compute. reflexivity.
  - vm_compute. reflexivity.
Defined.

Lemma rerender_list (BASE_URL : string)
  (localeCompare : string -> string -> Z) (old s : App) :
  conservancyList (rerender BASE_URL localeCompare false old s)
  = conservancyList s.
Proof.
  unfold rerender.
  destruct (renderSidePanel_frame BASE_URL old s) as (_ & R2 & _).
  cbv zeta in R2. destruct (_ || _ || _); [|exact R2].
  destruct (debounceEffect_frame (renderSidePanel BASE_URL old s))
    as (_ & D2 & _).
  cbv zeta in D2. congruence.
Qed.

(** C6.  The close handler empties the selection and closes the panel,
    and for a layer with [setStyle] it gives back the base style and drops
    the back-reference.  It calls [setStyle] without the [try] that line
    174 puts around the same call: for a layer without that method (a
    marker) the handler stops at the call and the back-reference is kept,
    where the claim has it dropped and where the sibling path, a selection
    of nothing, drops it. *)
Theorem close_keeps_reference_without_setStyle {host : StringMethods}
  (BASE_URL : string) (localeCompare : string -> string -> Z) (s : App)
  (l : Layer) :
  reachable BASE_URL localeCompare s ->
  selectedConservancy s <> "" -> selectedLayerRef s = Some l ->
  exists s', step BASE_URL localeCompare s CloseClick = Some s'
    /\ selectedConservancy s' = "" /\ sidePanel s' = None
    /\ selectedLayerRef s' = (if has_setStyle l then None else Some l)
    /\ (has_setStyle l = true -> layerStyle s' !! l = Some conservancyStyle)
    /\ selectedLayerRef (selectConservancyByName None true s) = None.
Proof.
  intros Hr Hsel Href.
  pose proof (reachable_inv _ _ _ Hr) as Hinv.
  pose proof (reachable_panel _ _ _ Hr) as Hpanel.
  destruct (sidePanel s) as [p|] eqn:Ep;
    [|apply (inv_panel s Hpanel) in Ep; contradiction].
  exists (rerender BASE_URL localeCompare false s (onClose s)).
  split; [unfold step; rewrite Ep; reflexivity|].
  destruct (rerender_frame BASE_URL localeCompare false s (onClose s))
    as (R1 & R2 & R3 & R4 & R5 & R6 & R7 & R8 & R9 & R10 & R11).
  destruct (onClose_frame s) as (_ & _ & F3 & _).
  cbv zeta in *.
  destruct (rerender_closes BASE_URL localeCompare false s (onClose s) F3)
    as [Hclosed _].
  split; [congruence|]. split; [exact Hclosed|].
  rewrite R5, R8. unfold onClose. app_unfold. rewrite Href.
  split; [|split].
  - destruct (has_setStyle l); app_unfold; [reflexivity|exact Href].
  - intros ->. app_unfold. apply lookup_insert_eq.
  - assert (Hmap : mapRef s = true).
    { apply (inv_ref_map s Hinv). rewrite Href. eauto. }
    unfold selectConservancyByName. app_unfold. rewrite Hmap.
    cbn [negb truthy]. unfold revertSelected. app_unfold. rewrite Href.
    reflexivity.
Qed.

Lemma close_keeps_reference_without_setStyle_witness :
  let s := stateAfter [MapCreated; BoundaryResponse (Parsed sampleWithMarker);
                       LayerClick (marker 1)] in
  exists s', step sampleBase sampleLocaleCompare s CloseClick = Some s'
    /\ selectedConservancy s' = "" /\ sidePanel s' = None
    /\ selectedLayerRef s' = Some (marker 1)
    /\ (has_setStyle (marker 1) = true ->
        layerStyle s' !! marker 1 = Some conservancyStyle)
    /\ selectedLayerRef (selectConservancyByName None true s) = None.
Proof.
  intros s.
  assert (Hr : reachable sampleBase sampleLocaleCompare s).
  { apply (sampleRun_reachable
             [MapCreated; BoundaryResponse (Parsed sampleWithMarker);
              LayerClick (marker 1)]).
    vm_compute. reflexivity. }
  assert (Hsel : selectedConservancy s <> "") by (vm_compute; discriminate).
  assert (Href : selectedLayerRef s = Some (marker 1))
    by (vm_compute; reflexivity).
  exact (close_keeps_reference_without_setStyle sampleBase
           sampleLocaleCompare s (marker 1) Hr Hsel Href).
Defined.

Lemma highlightLayer_ref (l : Layer) (s : App) :
  selectedLayerRef (highlightLayer l s) = Some l.
Proof.
  unfold highlightLayer.
  destruct (has_setStyle l), (has_bringToFront l), (has_getBounds l);
    reflexivity.
Qed.

Lemma revertSelected_ref (s : App) : selectedLayerRef (revertSelected s) = None.
Proof.
  unfold revertSelected. destruct (selectedLayerRef s) eqn:E; [reflexivity|exact E].
Qed.

Lemma selectConservancyByName_ref {host : StringMethods}
  (name : option string) (u : bool) (s : App) :
  mapRef s = true -> truthy name = true ->
  selectedLayerRef (selectConservancyByName name u s)
  = resolveLayer (layerMapRef s) (orEmpty name).
Proof.
  intros Hmap Htr. unfold selectConservancyByName.
  set (s0 := if u then setSelectedConservancy (orEmpty name) s else s).
  assert (E0 : mapRef s0 = true /\ layerMapRef s0 = layerMapRef s).
  { subst s0. destruct u; auto. }
  destruct E0 as [M0 L0]. rewrite M0, Htr. cbn [negb].
  destruct (revertSelected_frame s0) as [(_ & _ & _ & _ & L1 & _) _].
  rewrite L1, L0.
  destruct (resolveLayer (layerMapRef s) (orEmpty name)) as [layer|].
  - apply highlightLayer_ref.
  - apply revertSelected_ref.
Qed.

Lemma click_is_select {host : StringMethods} (s : App) (n : string) :
  mapReady s = mapRef s ->
  selectConservancyByName (Some n) true s = handleSelectConservancy n s.
Proof.
  intros Hready. unfold handleSelectConservancy. rewrite Hready.
  destruct (mapRef s) eqn:Emap; cbn [andb].
  - reflexivity.
  - unfold selectConservancyByName. cbn [mapRef setSelectedConservancy].
    rewrite Emap. reflexivity.
Qed.

Lemma rerender_opens (BASE_URL : string)
  (localeCompare : string -> string -> Z) (d : bool) (old s : App) :
  selectedConservancy s <> "" ->
  is_Some (sidePanel (rerender BASE_URL localeCompare d old s)).
Proof.
  intros Hsel. unfold rerender.
  assert (H1 : is_Some (sidePanel (renderSidePanel BASE_URL old s))).
  { unfold renderSidePanel.
    destruct (truthy (Some (selectedConservancy s))) eqn:Etr; cbn [negb];
      [|apply truthy_false_iff in Etr; contradiction].
    destruct (sidePanel s) as [p|] eqn:Ep.
    - destruct (String.eqb _ _); [rewrite Ep; eauto|].
      unfold fetchEffect. rewrite Etr. cbn [negb].
      destruct (findTab _); app_unfold; eauto.
    - unfold fetchEffect. rewrite Etr. cbn [negb].
      destruct (findTab _); app_unfold; eauto. }
  set (s1 := renderSidePanel BASE_URL old s) in *.
  set (s2 := if d then setConservancyList _ s1 else s1).
  assert (H2 : is_Some (sidePanel s2)) by (subst s2; destruct d; exact H1).
  destruct (_ || _ || _); [|exact H2].
  destruct (debounceEffect_frame s2)
    as (D1 & D2 & D3 & D4 & D5 & D6 & D7 & D8 & _).
  cbv zeta in D8. rewrite D8. exact H2.
Qed.

(** C7.  Clicking the layer of a region and choosing the same region in the
    dropdown lead to the same state, in every component: the selected name
    is that region, the back-reference (the highlighted layer) is the layer
    the name resolves to, and the side panel is open. *)
Theorem click_equals_dropdown {host : StringMethods} (BASE_URL : string)
  (localeCompare : string -> string -> Z) (s : App) (l : Layer) (n : string) :
  reachable BASE_URL localeCompare s ->
  clickHandlers s !! l = Some (Some n) -> n <> "" ->
  step BASE_URL localeCompare s (LayerClick l)
  = step BASE_URL localeCompare s (SelectChange n)
  /\ exists s', step BASE_URL localeCompare s (SelectChange n) = Some s'
       /\ selectedConservancy s' = n
       /\ (mapRef s = true ->
           selectedLayerRef s' = resolveLayer (layerMapRef s) n
           /\ forall l', highlighted (layerStyle s') l' ->
                         resolveLayer (layerMapRef s) n = Some l')
       /\ is_Some (sidePanel s').
Proof.
  intros Hr Hh Hn.
  pose proof (reachable_inv _ _ _ Hr) as Hinv.
  assert (Hclick : step BASE_URL localeCompare s (LayerClick l)
                   = step BASE_URL localeCompare s (SelectChange n)).
  { unfold step. rewrite Hh.
    rewrite (click_is_select s n (inv_ready s Hinv)). reflexivity. }
  split; [exact Hclick|].
  assert (Hstep : step BASE_URL localeCompare s (LayerClick l)
            = Some (rerender BASE_URL localeCompare false s
                      (selectConservancyByName (Some n) true s))).
  { unfold step. rewrite Hh. reflexivity. }
  eexists. split; [rewrite <- Hclick; exact Hstep|].
  pose proof (reachable_inv _ _ _ (reachable_step _ _ _ _ _ Hr Hstep)) as Hinv'.
  set (s1 := selectConservancyByName (Some n) true s) in *.
  destruct (rerender_frame BASE_URL localeCompare false s s1)
    as (R1 & R2 & R3 & R4 & R5 & R6 & R7 & R8 & R9 & R10 & R11).
  cbv zeta in *.
  destruct (selectConservancyByName_same (Some n) true s) as [_ Esel].
  fold s1 in Esel. cbn in Esel.
  split; [congruence|]. split.
  - intros Hmap.
    assert (Href : selectedLayerRef
                     (rerender BASE_URL localeCompare false s s1)
                   = resolveLayer (layerMapRef s) n).
    { rewrite R5. subst s1.
      rewrite selectConservancyByName_ref; [reflexivity|exact Hmap|].
      cbn. destruct (String.eqb_spec n ""); [contradiction|reflexivity]. }
    split; [exact Href|].
    intros l' Hl'. destruct (inv_highlight _ Hinv' l' Hl') as [E _]. congruence.
  - apply rerender_opens. congruence.
Qed.

Lemma click_equals_dropdown_witness :
  let s := stateAfter sampleLoaded in
  step sampleBase sampleLocaleCompare s (LayerClick (polygon 1))
  = step sampleBase sampleLocaleCompare s (SelectChange "Il Ngwesi")
  /\ exists s', step sampleBase sampleLocaleCompare s (SelectChange "Il Ngwesi")
                = Some s'
       /\ selectedConservancy s' = "Il Ngwesi"
       /\ (mapRef s = true ->
           selectedLayerRef s' = resolveLayer (layerMapRef s) "Il Ngwesi"
           /\ forall l', highlighted (layerStyle s') l' ->
                         resolveLayer (layerMapRef s) "Il Ngwesi" = Some l')
       /\ is_Some (sidePanel s').
Proof.
  apply (click_equals_dropdown sampleBase sampleLocaleCompare
           (stateAfter sampleLoaded) (polygon 1) "Il Ngwesi").
  - apply (sampleRun_reachable sampleLoaded). vm_compute. reflexivity.
  - vm_compute. reflexivity.
  - discriminate.
Defined.

Lemma revertSelected_styles (s : App) :
  layerStyle (revertSelected s)
  = stylesReverted (selectedLayerRef s) (layerStyle s).
Proof.
  unfold revertSelected, stylesReverted.
  destruct (selectedLayerRef s) as [old|]; [|reflexivity].
  destruct (has_setStyle old), (has_bringToBack old); reflexivity.
Qed.

Lemma highlightLayer_styles (l : Layer) (s : App) :
  layerStyle (highlightLayer l s) = stylesHighlighted (Some l) (layerStyle s).
Proof.
  unfold highlightLayer, stylesHighlighted.
  destruct (has_setStyle l), (has_bringToFront l), (has_getBounds l);
    reflexivity.
Qed.

Lemma selectConservancyByName_styles {host : StringMethods}
  (name : option string) (u : bool)
  (s : App) :
  mapRef s = true ->
  let r := if truthy name then resolveLayer (layerMapRef s) (orEmpty name)
           else None in
  selectedLayerRef (selectConservancyByName name u s) = r
  /\ layerStyle (selectConservancyByName name u s)
     = stylesHighlighted r (stylesReverted (selectedLayerRef s) (layerStyle s)).
Proof.
  intros Hmap. cbv zeta. unfold selectConservancyByName.
  set (s0 := if u then setSelectedConservancy (orEmpty name) s else s).
  assert (E0 : mapRef s0 = true /\ layerMapRef s0 = layerMapRef s
               /\ selectedLayerRef s0 = selectedLayerRef s
               /\ layerStyle s0 = layerStyle s).
  { subst s0. destruct u; auto. }
  destruct E0 as (M0 & L0 & R0 & S0). rewrite M0. cbn [negb].
  destruct (revertSelected_frame s0) as [(_ & _ & _ & _ & L1 & _) _].
  pose proof (revertSelected_styles s0) as S1. rewrite R0, S0 in S1.
  destruct (truthy name); cbn [negb].
  - rewrite L1, L0.
    destruct (resolveLayer (layerMapRef s) (orEmpty name)) as [layer|].
    + rewrite highlightLayer_ref, highlightLayer_styles, S1. auto.
    + rewrite revertSelected_ref, S1. auto.
  - rewrite revertSelected_ref, S1. auto.
Qed.

Lemma styles_again (r ref : option Layer) (m : gmap Layer PathStyle) :
  stylesHighlighted r (stylesReverted r
    (stylesHighlighted r (stylesReverted ref m)))
  = stylesHighlighted r (stylesReverted ref m).
Proof.
  destruct r as [l|]; [|reflexivity].
  generalize (stylesReverted ref m). intros X.
  unfold stylesHighlighted, stylesReverted.
  destruct (has_setStyle l); [|reflexivity].
  rewrite !insert_insert_eq. reflexivity.
Qed.

Lemma handleSelectConservancy_styles {host : StringMethods}
  (n : string) (s : App) :
  let r := if truthy (Some n) then resolveLayer (layerMapRef s) n else None in
  (mapReady s && mapRef s = true ->
   selectedLayerRef (handleSelectConservancy n s) = r
   /\ layerStyle (handleSelectConservancy n s)
      = stylesHighlighted r (stylesReverted (selectedLayerRef s) (layerStyle s)))
  /\ (mapReady s && mapRef s = false ->
      selectedLayerRef (handleSelectConservancy n s) = selectedLayerRef s
      /\ layerStyle (handleSelectConservancy n s) = layerStyle s).
Proof.
  cbv zeta. unfold handleSelectConservancy. split; intros Hg; rewrite Hg.
  - apply andb_prop in Hg as [_ Hmap].
    apply (selectConservancyByName_styles (Some n) false
             (setSelectedConservancy (orEmpty (Some n)) s) Hmap).
  - auto.
Qed.

(** A render that finds the selection and the map readiness unchanged runs
    no effect. *)
Lemma rerender_unchanged (BASE_URL : string)
  (localeCompare : string -> string -> Z) (old s : App) :
  selectedConservancy s = selectedConservancy old ->
  mapReady s = mapReady old ->
  (selectedConservancy s = "" -> sidePanel s = None) ->
  (selectedConservancy s <> "" -> is_Some (sidePanel s)) ->
  sidePanel (rerender BASE_URL localeCompare false old s) = sidePanel s
  /\ chartFetches (rerender BASE_URL localeCompare false old s)
     = chartFetches s.
Proof.
  intros Es Em Hnone Hsome. unfold rerender.
  rewrite Es, Em, String.eqb_refl, Bool.eqb_reflx. cbn [negb orb].
  unfold renderSidePanel. rewrite Es, String.eqb_refl, <- Es.
  destruct (truthy (Some (selectedConservancy s))) eqn:Etr; cbn [negb].
  - destruct (Hsome ltac:(intros E; apply truthy_false_iff in E; congruence))
      as [p Ep].
    rewrite Ep. auto.
  - apply truthy_false_iff in Etr. rewrite (Hnone Etr). auto.
Qed.

(** C8.  Choosing the same region twice in a row in the dropdown changes
    nothing the second time: the style of every layer and the
    back-reference, the selected name, the state of the side panel (active
    tab, figure, loading and error flags) and the list of chart requests
    issued are the same after the second selection as after the first. *)
Theorem dropdown_select_idempotent {host : StringMethods} (BASE_URL : string)
  (localeCompare : string -> string -> Z) (s : App) (n : string) :
  exists s1 s2,
    step BASE_URL localeCompare s (SelectChange n) = Some s1
    /\ step BASE_URL localeCompare s1 (SelectChange n) = Some s2
    /\ layerStyle s2 = layerStyle s1
    /\ selectedLayerRef s2 = selectedLayerRef s1
    /\ selectedConservancy s2 = selectedConservancy s1
    /\ sidePanel s2 = sidePanel s1
    /\ chartFetches s2 = chartFetches s1.
Proof.
  eexists. eexists. split; [reflexivity|]. split; [reflexivity|].
  set (h0 := handleSelectConservancy n s).
  set (s1 := rerender BASE_URL localeCompare false s h0).
  set (h1 := handleSelectConservancy n s1).
  destruct (rerender_frame BASE_URL localeCompare false s h0)
    as (_ & A2 & A3 & A4 & A5 & A6 & _ & A8 & _).
  destruct (rerender_frame BASE_URL localeCompare false s1 h1)
    as (_ & B2 & B3 & B4 & B5 & B6 & _ & B8 & _).
  destruct (handleSelectConservancy_frame n s)
    as (_ & _ & F3 & F4 & F5 & F6 & _).
  destruct (handleSelectConservancy_frame n s1)
    as (_ & _ & G3 & G4 & G5 & G6 & _ & G8 & _ & _ & _ & G12 & _).
  cbv zeta in *. fold h0 h1 s1 in A2, A3, A4, A5, A6, A8, B2, B3, B4, B5, B6,
    B8, F3, F4, F5, F6, G3, G4, G5, G6, G8, G12.
  assert (Hsel1 : selectedConservancy s1 = n) by congruence.
  assert (Hpanel : sidePanel (rerender BASE_URL localeCompare false s1 h1)
                   = sidePanel s1
                   /\ chartFetches (rerender BASE_URL localeCompare false s1 h1)
                      = chartFetches s1).
  { rewrite <- G8, <- G12. apply rerender_unchanged; try congruence.
    - intros E. rewrite G8. subst s1. apply rerender_closes. congruence.
    - intros E. rewrite G8. subst s1. apply rerender_opens. congruence. }
  destruct Hpanel as [P1 P2].
  assert (Hmap : layerStyle h1 = layerStyle s1
                 /\ selectedLayerRef h1 = selectedLayerRef s1).
  { destruct (handleSelectConservancy_styles n s) as [T0 U0].
    destruct (handleSelectConservancy_styles n s1) as [T1 U1].
    cbv zeta in *. fold h0 in T0, U0. fold h1 in T1, U1.
    assert (Eg : mapReady s1 && mapRef s1 = mapReady s && mapRef s)
      by congruence.
    destruct (mapReady s && mapRef s) eqn:Eguard.
    - destruct (T0 eq_refl) as [R0 S0]. destruct (T1 Eg) as [R1 S1].
      rewrite A6, F6 in R1, S1. rewrite A5, R0, A8, S0 in S1.
      rewrite S1, R1, A8, S0, A5, R0. split; [apply styles_again|reflexivity].
    - destruct (U1 Eg) as [R1 S1]. auto. }
  destruct Hmap as [M1 M2].
  repeat split; congruence.
Qed.

(** C3.  While a region is selected its side panel is mounted; switching it
    to another tab issues exactly one new chart request, for
    [BASE_URL ++ figs/<region>/<region><suffix>.json] with the suffix of the
    new tab, one of [_GroundCover], [_NDVI] and [_Rainfall]; the figure is
    cleared and the loading flag set.  Clicking the tab that is already
    active changes nothing. *)
Theorem tab_switch_fetches_once {host : StringMethods} (BASE_URL : string)
  (localeCompare : string -> string -> Z) (s : App) :
  reachable BASE_URL localeCompare s ->
  selectedConservancy s <> "" ->
  exists p, sidePanel s = Some p
    /\ forall i t, nth_error TAB_CONFIG i = Some t ->
         (tab_id t <> activeTabId p ->
          exists s' p',
            step BASE_URL localeCompare s (TabClick i) = Some s'
            /\ chartFetches s'
               = chartFetches s
                 ++ [mkChartFetch
                       (BASE_URL ++ "figs/" ++ selectedConservancy s ++ "/"
                          ++ selectedConservancy s ++ tab_suffix t ++ ".json")
                       (mountId p)]
            /\ sidePanel s' = Some p'
            /\ activeTabId p' = tab_id t
            /\ loading p' = true /\ figure p' = None /\ error p' = false
            /\ selectedConservancy s' = selectedConservancy s)
         /\ (tab_id t = activeTabId p ->
             step BASE_URL localeCompare s (TabClick i) = Some s)
         /\ tab_suffix t ∈ ["_GroundCover"; "_NDVI"; "_Rainfall"].
Proof.
  intros Hr Hsel.
  pose proof (reachable_panel _ _ _ Hr) as Hpanel.
  destruct (sidePanel s) as [p|] eqn:Ep;
    [|apply (inv_panel s Hpanel) in Ep; contradiction].
  exists p. split; [reflexivity|]. intros i t Ht.
  assert (Htr : truthy (Some (selectedConservancy s)) = true).
  { destruct (truthy _) eqn:E; [reflexivity|].
    apply truthy_false_iff in E. contradiction. }
  split; [|split].
  - intros Hne. unfold step, onTabClick. rewrite Ep, Ht.
    destruct (String.eqb_spec (activeTabId p) (tab_id t)) as [E|_];
      [congruence|].
    unfold fetchEffect. rewrite Htr. cbn [negb activeTabId mountId].
    rewrite (findTab_nth _ _ Ht).
    eexists. eexists. split; [reflexivity|]. app_unfold.
    split; [reflexivity|]. split; [reflexivity|]. repeat split.
  - intros E. unfold step, onTabClick. rewrite Ep, Ht, E, String.eqb_refl.
    reflexivity.
  - destruct i as [|[|[|i]]]; cbn in Ht; try (injection Ht as <-; cbn).
    + apply list_elem_of_here.
    + apply list_elem_of_further, list_elem_of_here.
    + do 2 apply list_elem_of_further. apply list_elem_of_here.
    + destruct i; discriminate.
Qed.

Lemma tab_switch_fetches_once_witness :
  let s := stateAfter (sampleLoaded ++ [SelectChange "Naapu"]) in
  exists p, sidePanel s = Some p
    /\ forall i t, nth_error TAB_CONFIG i = Some t ->
         (tab_id t <> activeTabId p ->
          exists s' p',
            step sampleBase sampleLocaleCompare s (TabClick i) = Some s'
            /\ chartFetches s'
               = chartFetches s
                 ++ [mkChartFetch
                       (sampleBase ++ "figs/" ++ selectedConservancy s ++ "/"
                          ++ selectedConservancy s ++ tab_suffix t ++ ".json")
                       (mountId p)]
            /\ sidePanel s' = Some p'
            /\ activeTabId p' = tab_id t
            /\ loading p' = true /\ figure p' = None /\ error p' = false
            /\ selectedConservancy s' = selectedConservancy s)
         /\ (tab_id t = activeTabId p ->
             step sampleBase sampleLocaleCompare s (TabClick i) = Some s)
         /\ tab_suffix t ∈ ["_GroundCover"; "_NDVI"; "_Rainfall"].
Proof.
  apply (tab_switch_fetches_once sampleBase sampleLocaleCompare
           (stateAfter (sampleLoaded ++ [SelectChange "Naapu"]))).
  - apply (sampleRun_reachable (sampleLoaded ++ [SelectChange "Naapu"])).
    vm_compute. reflexivity.
  - vm_compute. discriminate.
Defined.

Example tab_switch_sample :
  map url (chartFetches
             (stateAfter (sampleLoaded
                            ++ [SelectChange "Naapu"; TabClick 2; TabClick 2;
                                TabClick 1])))
  = ["/figs/Naapu/Naapu_GroundCover.json";
     "/figs/Naapu/Naapu_Rainfall.json";
     "/figs/Naapu/Naapu_NDVI.json"].
Proof. vm_compute. reflexivity. Qed.

Lemma existsb_settled (k : nat) (l : list nat) :
  ~ In k l -> existsb (Nat.eqb k) l = false.
Proof.
  intros Hn. destruct (existsb (Nat.eqb k) l) eqn:E; [|reflexivity].
  apply existsb_exists in E as (j & Hj & Ej). apply Nat.eqb_eq in Ej.
  subst j. contradiction.
Qed.

Lemma chartContinuation_failure (r : Response Figure) (p : SidePanel) :
  isFailure r ->
  chartContinuation r p
  = mkSidePanel (mountId p) (activeTabId p) (figure p) false true.
Proof. destruct r; cbn; intros H; [reflexivity..|destruct H]. Qed.

(** C4, as the code has it.  A failed chart request of the mounted panel
    (network error, non-success status or parse error, all handled alike)
    sets the error flag and clears the loading flag; the stored figure is
    left as it is.  With no figure stored, which is the case when the
    request fails before any other response arrives, the panel shows the
    data-not-found message of the active tab and no chart. *)
Theorem chart_failure_sets_error {host : StringMethods} (BASE_URL : string)
  (localeCompare : string -> string -> Z)
  (s : App) (k : nat) (f : ChartFetch) (p : SidePanel)
  (r : Response Figure) :
  nth_error (chartFetches s) k = Some f -> ~ In k (settled s) ->
  sidePanel s = Some p -> mountId p = owner f -> isFailure r ->
  (exists s' p',
     step BASE_URL localeCompare s (ChartResponse k r) = Some s'
     /\ sidePanel s' = Some p'
     /\ error p' = true /\ loading p' = false
     /\ figure p' = figure p /\ activeTabId p' = activeTabId p
     /\ (figure p = None ->
         renderPanel p'
         = [DataNotFound (option_map tab_label (findTab (activeTabId p)))]))
  /\ step BASE_URL localeCompare s (ChartResponse k r)
     = step BASE_URL localeCompare s (ChartResponse k BadStatus)
  /\ step BASE_URL localeCompare s (ChartResponse k ParseError)
     = step BASE_URL localeCompare s (ChartResponse k BadStatus)
  /\ step BASE_URL localeCompare s (ChartResponse k NetworkError)
     = step BASE_URL localeCompare s (ChartResponse k BadStatus)
  /\ (reachable BASE_URL localeCompare s ->
      forall i t, nth_error TAB_CONFIG i = Some t ->
        tab_id t <> activeTabId p ->
        exists s1 s2,
          step BASE_URL localeCompare s (TabClick i) = Some s1
          /\ step BASE_URL localeCompare s1
               (ChartResponse (length (chartFetches s)) r) = Some s2
          /\ sidePanel s2
             = Some (mkSidePanel (mountId p) (tab_id t) None false true)
          /\ renderPanel (mkSidePanel (mountId p) (tab_id t) None false true)
             = [DataNotFound (Some (tab_label t))]).
Proof.
  intros Hf Hk Hp Ho Hr.
  assert (Hstep : forall r', isFailure r' ->
            step BASE_URL localeCompare s (ChartResponse k r')
            = Some (set_sidePanel
                      (Some (mkSidePanel (mountId p) (activeTabId p)
                               (figure p) false true))
                      (set_settled (k :: settled s) s))).
  { intros r' Hr'. unfold step, onChartResponse.
    rewrite Hf, (existsb_settled _ _ Hk). app_unfold.
    rewrite Hp, Ho, Nat.eqb_refl, (chartContinuation_failure r' p Hr').
    rewrite Ho. reflexivity. }
  split; [|split; [|split; [|split]]].
  - eexists. eexists. split; [apply (Hstep r Hr)|]. app_unfold.
    split; [reflexivity|]. cbn [error loading figure activeTabId].
    repeat split. intros Hnone. unfold renderPanel.
    cbn [error loading figure activeTabId]. rewrite Hnone. reflexivity.
  - rewrite (Hstep r Hr), (Hstep BadStatus I). reflexivity.
  - rewrite (Hstep ParseError I), (Hstep BadStatus I). reflexivity.
  - rewrite (Hstep NetworkError I), (Hstep BadStatus I). reflexivity.
  - intros Hreach i t Ht Hne.
    pose proof (reachable_panel _ _ _ Hreach) as Hpanel.
    assert (Hsel : selectedConservancy s <> "").
    { intros E. apply (inv_panel s Hpanel) in E. congruence. }
    assert (Htr : truthy (Some (selectedConservancy s)) = true).
    { destruct (truthy _) eqn:E; [reflexivity|].
      apply truthy_false_iff in E. contradiction. }
    eexists. eexists. split.
    { unfold step, onTabClick. rewrite Hp, Ht.
      destruct (String.eqb_spec (activeTabId p) (tab_id t)) as [E|_];
        [congruence|].
      unfold fetchEffect. rewrite Htr. cbn [negb activeTabId mountId].
      rewrite (findTab_nth _ _ Ht). reflexivity. }
    split.
    { unfold step, onChartResponse. app_unfold.
      rewrite nth_error_app2 by lia. rewrite Nat.sub_diag. cbn [nth_error].
      rewrite existsb_settled.
      - cbn [mountId owner]. rewrite Nat.eqb_refl.
        rewrite chartContinuation_failure by exact Hr. reflexivity.
      - intros Hin. apply (inv_settled s Hpanel) in Hin. lia. }
    split; [reflexivity|].
    unfold renderPanel. cbn [error loading figure activeTabId].
    rewrite (findTab_nth _ _ Ht). reflexivity.
Qed.

Lemma chart_failure_sets_error_witness :
  let s := stateAfter (sampleLoaded ++ [SelectChange "Naapu"]) in
  let p := mkSidePanel 0 "fc" None true false in
  exists s' p',
     step sampleBase sampleLocaleCompare s (ChartResponse 0 ParseError)
     = Some s'
     /\ sidePanel s' = Some p'
     /\ error p' = true /\ loading p' = false
     /\ figure p' = figure p /\ activeTabId p' = activeTabId p
     /\ (figure p = None ->
         renderPanel p'
         = [DataNotFound (option_map tab_label (findTab (activeTabId p)))]).
Proof.
  apply (chart_failure_sets_error sampleBase sampleLocaleCompare
           (stateAfter (sampleLoaded ++ [SelectChange "Naapu"])) 0
           (mkChartFetch "/figs/Naapu/Naapu_GroundCover.json" 0)
           (mkSidePanel 0 "fc" None true false) ParseError).
  - vm_compute. reflexivity.
  - vm_compute. intros H. exact H.
  - vm_compute. reflexivity.
  - reflexivity.
  - exact I.
Defined.

(** C4 as stated fails when a late response of an earlier request stored a
    figure: the request of the new tab fails, the error flag is set, and the
    stale figure is still stored and drawn next to the message. *)
Lemma chart_failure_keeps_stale_figure :
  let s := stateAfter (sampleLoaded
                         ++ [SelectChange "Naapu"; TabClick 1;
                             ChartResponse 0 (Parsed sampleFigure);
                             ChartResponse 1 BadStatus]) in
  map url (chartFetches s)
  = ["/figs/Naapu/Naapu_GroundCover.json"; "/figs/Naapu/Naapu_NDVI.json"]
  /\ sidePanel s = Some (mkSidePanel 0 "ndvi" (Some sampleFigure) false true)
  /\ option_map renderPanel (sidePanel s)
     = Some [DataNotFound (Some "NDVI"); Plot sampleFigure].
Proof. vm_compute. repeat split. Qed.

(** ** Name resolution *)

Lemma mountFeature_map {host : StringMethods} (f : Feature) (s s' : App) :
  mountFeature f s = Some s' ->
  layerMapRef s' = registerName f (layerMapRef s).
Proof.
  unfold mountFeature, onEachFeature, registerName, featureName.
  destruct (properties f) as [p|]; [|discriminate].
  intros [= <-]. destruct (has_setStyle (drawable f)), (truthy (NAME p));
    reflexivity.
Qed.

Lemma mountFeatures_map {host : StringMethods}
  (fs : list Feature) (s s' : App) :
  mountFeatures fs s = Some s' ->
  layerMapRef s' = registerAll fs (layerMapRef s).
Proof.
  revert s. induction fs as [|f r IH]; simpl; intros s H.
  - injection H as <-. reflexivity.
  - destruct (mountFeature f s) as [s1|] eqn:E; [|discriminate].
    rewrite (IH s1 H), (mountFeature_map _ _ _ E). reflexivity.
Qed.

Lemma registerName_origin {host : StringMethods}
  (f : Feature) (m : gmap string Layer)
  (k : string) (l : Layer) :
  registerName f m !! k = Some l ->
  m !! k = Some l \/ (registeredBy f k /\ l = drawable f).
Proof.
  unfold registerName. destruct (featureName f) as [n|] eqn:En; cbn; [|auto].
  destruct (String.eqb_spec n "") as [->|Hn]; cbn; [auto|].
  rewrite lookup_insert. case_decide as E1.
  - intros [= <-]. right. split; [|reflexivity]. exists n. auto.
  - rewrite lookup_insert. case_decide as E2; [|auto].
    intros [= <-]. right. split; [|reflexivity]. exists n. auto.
Qed.

Lemma registerAll_origin {host : StringMethods}
  (fs : list Feature) (m : gmap string Layer)
  (k : string) (l : Layer) :
  registerAll fs m !! k = Some l ->
  m !! k = Some l
  \/ exists g, g ∈ fs /\ registeredBy g k /\ l = drawable g.
Proof.
  revert m. induction fs as [|f r IH]; simpl; intros m H; [auto|].
  destruct (IH _ H) as [H1|(g & Hg & Hk & Hl)].
  - destruct (registerName_origin _ _ _ _ H1) as [H2|[Hk Hl]]; [auto|].
    right. exists f. split; [apply list_elem_of_here|auto].
  - right. exists g. split; [apply list_elem_of_further, Hg|auto].
Qed.

Lemma registerName_keeps {host : StringMethods}
  (f : Feature) (m : gmap string Layer) (k : string) :
  is_Some (m !! k) -> is_Some (registerName f m !! k).
Proof.
  intros Hk. unfold registerName. destruct (truthy _); [|exact Hk].
  rewrite !lookup_insert. repeat case_decide; eauto.
Qed.

Lemma registerAll_keeps {host : StringMethods}
  (fs : list Feature) (m : gmap string Layer)
  (k : string) :
  is_Some (m !! k) -> is_Some (registerAll fs m !! k).
Proof.
  revert m. induction fs as [|f r IH]; simpl; intros m H; [exact H|].
  apply IH, registerName_keeps, H.
Qed.

Lemma registerAll_domain {host : StringMethods}
  (fs : list Feature) (m : gmap string Layer)
  (g : Feature) (k : string) :
  g ∈ fs -> registeredBy g k -> is_Some (registerAll fs m !! k).
Proof.
  revert m. induction fs as [|f r IH]; simpl; intros m Hg Hk.
  - inversion Hg.
  - apply elem_of_cons in Hg as [->|Hg]; [|apply IH; assumption].
    apply registerAll_keeps. destruct Hk as (n & En & Hn & Hk).
    unfold registerName. rewrite En. cbn.
    destruct (String.eqb_spec n "") as [E|_]; [contradiction|]. cbn.
    destruct Hk as [->| ->].
    + rewrite lookup_insert. case_decide; [eauto|].
      rewrite lookup_insert_eq. eauto.
    + rewrite lookup_insert_eq. eauto.
Qed.

Lemma writesKey_spec {host : StringMethods} (g : Feature) (k : string) :
  writesKey g k = true <-> registeredBy g k.
Proof.
  unfold writesKey, registeredBy. destruct (featureName g) as [m|].
  - destruct (String.eqb_spec m "") as [->|Hm]; cbn [negb andb].
    + split; [discriminate|]. intros (m' & [= <-] & H & _). contradiction.
    + destruct (String.eqb_spec m k) as [->|N1]; cbn [orb].
      * split; [|reflexivity]. intros _. exists k. auto.
      * destruct (String.eqb_spec (normalizeName m) k) as [<-|N2].
        -- split; [|reflexivity]. intros _. exists m. auto.
        -- split; [discriminate|].
           intros (m' & [= <-] & _ & [E|E]); congruence.
  - split; [discriminate|]. intros (m & E & _). discriminate E.
Qed.

Lemma registerName_lookup {host : StringMethods} (f : Feature)
  (m : gmap string Layer) (k : string) :
  registerName f m !! k
  = if writesKey f k then Some (drawable f) else m !! k.
Proof.
  unfold registerName, writesKey.
  destruct (featureName f) as [n|]; cbn [truthy orEmpty]; [|reflexivity].
  destruct (String.eqb n ""); cbn [negb andb]; [reflexivity|].
  rewrite !lookup_insert.
  destruct (String.eqb_spec n k) as [E1|N1],
           (String.eqb_spec (normalizeName n) k) as [E2|N2];
    cbn [orb]; repeat case_decide; congruence.
Qed.

Lemma registerAll_snoc {host : StringMethods} (fs : list Feature) (f : Feature)
  (m : gmap string Layer) :
  registerAll (fs ++ [f]) m = registerName f (registerAll fs m).
Proof. unfold registerAll. rewrite fold_left_app. reflexivity. Qed.

Lemma lastWriter_snoc {host : StringMethods} (fs : list Feature) (f : Feature)
  (k : string) :
  lastWriter (fs ++ [f]) k
  = if writesKey f k then Some f else lastWriter fs k.
Proof. unfold lastWriter. rewrite rev_unit. reflexivity. Qed.

Lemma registerAll_lookup {host : StringMethods} (fs : list Feature)
  (m : gmap string Layer) (k : string) :
  registerAll fs m !! k
  = match lastWriter fs k with
    | Some g => Some (drawable g)
    | None => m !! k
    end.
Proof.
  induction fs as [|f fs IH] using rev_ind; [reflexivity|].
  rewrite registerAll_snoc, registerName_lookup, lastWriter_snoc, IH.
  destruct (writesKey f k); reflexivity.
Qed.

Lemma lastWriter_Some {host : StringMethods} (fs : list Feature) (k : string)
  (g : Feature) :
  lastWriter fs k = Some g -> g ∈ fs /\ writesKey g k = true.
Proof.
  unfold lastWriter. intros H. apply find_some in H as [Hin Hw].
  split; [|exact Hw]. apply list_elem_of_In, in_rev. exact Hin.
Qed.

Lemma lastWriter_None {host : StringMethods} (fs : list Feature) (k : string)
  (g : Feature) :
  lastWriter fs k = None -> g ∈ fs -> writesKey g k = false.
Proof.
  unfold lastWriter. intros H Hg.
  apply (find_none _ _ H). apply in_rev. rewrite rev_involutive.
  apply list_elem_of_In. exact Hg.
Qed.

(** C5, as the code has it.  After the layers of a collection were
    registered, in order, a name resolves to the layer of the feature that
    wrote that very key last, whatever layer its normalized key holds; if
    and only if no feature wrote that key, it resolves to the layer of the
    feature that wrote its normalized key last, if any.  A selection by
    that name makes the layer so resolved the selected one.  Hence a name
    with the same normalized form (trimmed, lower case, runs of white space
    as one space) as the name of a region resolves to the layer of that
    region, provided every region that wrote one of the two keys has that
    layer. *)
Theorem name_resolution_falls_back {host : StringMethods} (fs : list Feature)
  (s s' : App) (q : string) :
  mountFeatures fs s = Some s' -> layerMapRef s = ∅ ->
  resolveLayer (layerMapRef s') q
  = match lastWriter fs q with
    | Some g => Some (drawable g)
    | None => option_map drawable (lastWriter fs (normalizeName q))
    end
  /\ (forall u a, mapRef a = true -> layerMapRef a = layerMapRef s' ->
                  q <> "" ->
                  selectedLayerRef (selectConservancyByName (Some q) u a)
                  = resolveLayer (layerMapRef s') q)
  /\ (forall f n, f ∈ fs -> featureName f = Some n -> n <> "" ->
        normalizeName q = normalizeName n ->
        (forall g, g ∈ fs ->
           writesKey g q = true \/ writesKey g (normalizeName q) = true ->
           drawable g = drawable f) ->
        resolveLayer (layerMapRef s') q = Some (drawable f)).
Proof.
  intros Hm Hempty.
  rewrite (mountFeatures_map _ _ _ Hm), Hempty.
  set (m := registerAll fs ∅).
  assert (Hres : resolveLayer m q
                 = match lastWriter fs q with
                   | Some g => Some (drawable g)
                   | None => option_map drawable
                               (lastWriter fs (normalizeName q))
                   end).
  { unfold resolveLayer, m. rewrite !registerAll_lookup.
    destruct (lastWriter fs q) as [g|]; [reflexivity|].
    rewrite lookup_empty.
    destruct (lastWriter fs (normalizeName q)); rewrite ?lookup_empty;
      reflexivity. }
  split; [exact Hres|]. split.
  - intros u a Hmap Ha Hq.
    rewrite selectConservancyByName_ref; [|exact Hmap|].
    + cbn [orEmpty]. rewrite Ha. reflexivity.
    + cbn. destruct (String.eqb_spec q ""); [contradiction|reflexivity].
  - intros f n Hf Hn Hne Hq Hclash. rewrite Hres.
    destruct (lastWriter fs q) as [g|] eqn:E1.
    + apply lastWriter_Some in E1 as [Hg Hw].
      rewrite (Hclash g Hg (or_introl Hw)). reflexivity.
    + destruct (lastWriter fs (normalizeName q)) as [g|] eqn:E2.
      * apply lastWriter_Some in E2 as [Hg Hw]. cbn [option_map].
        rewrite (Hclash g Hg (or_intror Hw)). reflexivity.
      * pose proof (lastWriter_None _ _ f E2 Hf) as Hw.
        assert (Hw' : writesKey f (normalizeName q) = true).
        { apply writesKey_spec. exists n. rewrite Hq. auto. }
        congruence.
Qed.

Lemma name_resolution_falls_back_witness :
  let m := registerAll sampleShadow ∅ in
  let r := registerAll sampleRegions ∅ in
  (m !! normalizeName "Foo" = Some (polygon 1)
   /\ r !! "  il   NGWESI " = None
   /\ normalizeName "  il   NGWESI " = "il ngwesi")
  /\ (resolveLayer m "Foo" = Some (polygon 0)
      /\ (forall u a, mapRef a = true -> layerMapRef a = m -> "Foo" <> "" ->
            selectedLayerRef (selectConservancyByName (Some "Foo") u a)
            = resolveLayer m "Foo")
      /\ (forall f n, f ∈ sampleShadow -> featureName f = Some n -> n <> "" ->
            normalizeName "Foo" = normalizeName n ->
            (forall g, g ∈ sampleShadow ->
               writesKey g "Foo" = true
               \/ writesKey g (normalizeName "Foo") = true ->
               drawable g = drawable f) ->
            resolveLayer m "Foo" = Some (drawable f)))
  /\ resolveLayer r "  il   NGWESI " = Some (polygon 1).
Proof.
  intros m r. split; [vm_compute; repeat split; reflexivity|].
  split.
  - assert (Hs' : exists s1, mountFeatures sampleShadow initialApp = Some s1
                             /\ m = layerMapRef s1).
    { eexists. split; vm_compute; reflexivity. }
    destruct Hs' as (s1 & Hm & E). rewrite E.
    exact (name_resolution_falls_back sampleShadow initialApp s1 "Foo"
             Hm eq_refl).
  - assert (Hs' : exists s1, mountFeatures sampleRegions initialApp = Some s1
                             /\ r = layerMapRef s1).
    { eexists. split; vm_compute; reflexivity. }
    destruct Hs' as (s1 & Hm & E). rewrite E.
    apply (proj2 (proj2 (name_resolution_falls_back sampleRegions initialApp
                           s1 "  il   NGWESI " Hm eq_refl))
             (named "Il Ngwesi" (polygon 1)) "Il Ngwesi").
    + apply list_elem_of_further, list_elem_of_here.
    + reflexivity.
    + discriminate.
    + vm_compute. reflexivity.
    + intros g Hg Hw. unfold sampleRegions in Hg.
      repeat (apply elem_of_cons in Hg as [->|Hg]).
      * vm_compute in Hw. destruct Hw as [Hw|Hw]; discriminate Hw.
      * reflexivity.
      * vm_compute in Hw. destruct Hw as [Hw|Hw]; discriminate Hw.
      * inversion Hg.
Defined.

(** C5 as stated fails when two regions have names that differ only in
    case: the normalized key written for the later one replaces the exact
    key of the earlier one, so selecting the earlier region by its exact
    name, or by a variant of it, resolves to the layer of the other region. *)
Lemma clashing_names_resolve_to_other_layer :
  let loaded := [MapCreated;
                 BoundaryResponse (Parsed (mkGeoJSON (Some sampleClash)))] in
  let m := layerMapRef (stateAfter loaded) in
  featureName (named "foo" (polygon 0)) = Some "foo"
  /\ normalizeName "FOO" = normalizeName "foo"
  /\ resolveLayer m "FOO" = Some (polygon 1)
  /\ resolveLayer m "foo" = Some (polygon 1)
  /\ polygon 1 <> polygon 0
  /\ selectedLayerRef (stateAfter (loaded ++ [SelectChange "foo"]))
     = Some (polygon 1)
  /\ selectedLayerRef (stateAfter (loaded ++ [LayerClick (polygon 0)]))
     = Some (polygon 1).
Proof. vm_compute. repeat split; discriminate. Qed.

Lemma timer_id_inj (l : list Timer) (x y : Timer) :
  NoDup (map timer_id l) -> x ∈ l -> y ∈ l -> timer_id x = timer_id y -> x = y.
Proof.
  induction l as [|z r IH]; simpl; intros Hnd Hx Hy E.
  - inversion Hx.
  - apply list.NoDup_cons in Hnd as [Hz Hnd].
    assert (Hin : forall w, w ∈ r -> timer_id w ∈ map timer_id r).
    { intros w Hw. change (map timer_id r) with (timer_id <$> r).
      apply list_elem_of_fmap. eauto. }
    apply elem_of_cons in Hx as [->|Hx]; apply elem_of_cons in Hy as [->|Hy].
    + reflexivity.
    + destruct Hz. rewrite E. apply Hin, Hy.
    + destruct Hz. rewrite <- E. apply Hin, Hx.
    + apply IH; assumption.
Qed.





Lemma rerender_derives (BASE_URL : string)
  (localeCompare : string -> string -> Z) (old s : App) :
  conservancyList (rerender BASE_URL localeCompare true old s)
  = deriveNames localeCompare (conservancyData s).
Proof.
  unfold rerender. cbn [orb].
  destruct (renderSidePanel_frame BASE_URL old s) as (R1 & _).
  cbv zeta in R1.
  set (s2 := setConservancyList _ (renderSidePanel BASE_URL old s)).
  destruct (debounceEffect_frame s2) as (_ & D2 & _).
  cbv zeta in D2. rewrite D2. subst s2. cbn [conservancyList setConservancyList].
  rewrite R1. reflexivity.
Qed.

(** C1, as the code has it.  The name list derived from a boundary
    collection holds every non-empty NAME value of the collection exactly
    once (missing and empty names are dropped), in the order of the
    locale-aware comparison; for the names B, a, C it is a, B, C.  It is the
    list stored when the boundary collection arrives. *)
Theorem conservancyList_unique_sorted {host : StringMethods}
  (BASE_URL : string)
  (localeCompare : string -> string -> Z)
  (localeCompare_flip :
     forall a b, (localeCompare a b < 0 <-> 0 < localeCompare b a)%Z)
  (localeCompare_trans :
     forall a b c, (localeCompare a b <= 0)%Z -> (localeCompare b c <= 0)%Z ->
                   (localeCompare a c <= 0)%Z)
  (localeCompare_aBC :
     (localeCompare "a" "B" < 0 /\ localeCompare "B" "C" < 0)%Z)
  (fs : list Feature) :
  let names := deriveNames localeCompare (collectionOf fs) in
  NoDup names
  /\ (forall v, v ∈ names
                <-> v <> "" /\ exists f, f ∈ fs /\ featureName f = Some v)
  /\ StronglySorted (fun a b => (localeCompare a b <= 0)%Z) names
  /\ deriveNames localeCompare (collectionOf sampleBAC) = ["a"; "B"; "C"]
  /\ forall s s' d,
       boundaryPending s = true ->
       step BASE_URL localeCompare s (BoundaryResponse (Parsed d)) = Some s' ->
       conservancyList s' = deriveNames localeCompare (Some d).
Proof.
  cbv zeta. split; [apply deriveNames_NoDup|].
  split; [apply deriveNames_elem|].
  split; [apply (sortNames_sorted localeCompare localeCompare_flip
                   localeCompare_trans)|].
  split; [apply (deriveNames_BAC localeCompare localeCompare_flip
                   localeCompare_trans localeCompare_aBC)|].
  intros s s' d Hp Hstep. unfold step in Hstep. rewrite Hp in Hstep.
  destruct (mountGeoJSON _ _) as [s1|] eqn:E; [|discriminate].
  injection Hstep as <-. rewrite rerender_derives. f_equal.
  unfold mountGeoJSON in E. destruct (features d) as [gs|].
  - destruct (mountFeatures_frame _ _ _ E) as (F1 & _). exact F1.
  - discriminate E.
Qed.

Lemma conservancyList_unique_sorted_witness :
  let names := deriveNames sampleLocaleCompare (collectionOf sampleRegions) in
  names = ["Il Ngwesi"; "Naapu"]
  /\ NoDup names
  /\ (forall v, v ∈ names
                <-> v <> ""
                    /\ exists f, f ∈ sampleRegions /\ featureName f = Some v)
  /\ StronglySorted (fun a b => (sampleLocaleCompare a b <= 0)%Z) names
  /\ deriveNames sampleLocaleCompare (collectionOf sampleBAC)
     = ["a"; "B"; "C"]
  /\ forall s s' d,
       boundaryPending s = true ->
       step sampleBase sampleLocaleCompare s (BoundaryResponse (Parsed d))
       = Some s' ->
       conservancyList s' = deriveNames sampleLocaleCompare (Some d).
Proof.
  split; [vm_compute; reflexivity|].
  exact (conservancyList_unique_sorted sampleBase sampleLocaleCompare
           sampleLocaleCompare_flip sampleLocaleCompare_trans
           sampleLocaleCompare_aBC sampleRegions).
Defined.

(** C1 as stated fails for a feature whose NAME is the empty string: the
    value is dropped by [filter(Boolean)] and is not in the list. *)
Lemma empty_NAME_not_listed :
  let fs := [named "B" (polygon 0); named "" (polygon 1);
             named "a" (polygon 2)] in
  featureName (named "" (polygon 1)) = Some ""
  /\ deriveNames sampleLocaleCompare (collectionOf fs) = ["a"; "B"]
  /\ "" ∉ deriveNames sampleLocaleCompare (collectionOf fs).
Proof.
  vm_compute. split; [reflexivity|]. split; [reflexivity|].
  intros H. repeat (apply elem_of_cons in H as [H|H]; [discriminate H|]).
  inversion H.
Qed.

(** * Further properties *)

Lemma sorted_perm_unique (R : string -> string -> Prop) (l1 l2 : list string) :
  (forall a b, R a b -> R b a -> a = b) ->
  StronglySorted R l1 -> StronglySorted R l2 -> l1 ≡ₚ l2 -> l1 = l2.
Proof.
  intros Hanti H1. revert l2. induction H1 as [|x r1 Hs1 IH Hx]; intros l2 H2 Hp.
  - symmetry. apply Permutation_nil. exact Hp.
  - destruct H2 as [|y r2 Hs2 Hy].
    + apply Permutation_sym, Permutation_nil in Hp. discriminate.
    + assert (Exy : x = y).
      { assert (Hxin : x ∈ y :: r2) by (rewrite <- Hp; apply list_elem_of_here).
        assert (Hyin : y ∈ x :: r1) by (rewrite Hp; apply list_elem_of_here).
        apply elem_of_cons in Hxin as [E|Hxin]; [exact E|].
        apply elem_of_cons in Hyin as [E|Hyin]; [congruence|].
        apply Hanti.
        - apply list_elem_of_In in Hyin.
          exact (proj1 (List.Forall_forall _ _) Hx y Hyin).
        - apply list_elem_of_In in Hxin.
          exact (proj1 (List.Forall_forall _ _) Hy x Hxin). }
      subst y. f_equal. apply IH; [exact Hs2|].
      exact (Permutation_cons_inv Hp).
Qed.

(** X4.  With a collation that tells distinct names apart, the name list
    depends only on the set of non-empty names of the collection: the
    order of the features and repeated names make no difference. *)
Theorem deriveNames_depends_on_name_set
  (localeCompare : string -> string -> Z)
  (localeCompare_flip :
     forall a b, (localeCompare a b < 0 <-> 0 < localeCompare b a)%Z)
  (localeCompare_trans :
     forall a b c, (localeCompare a b <= 0)%Z -> (localeCompare b c <= 0)%Z ->
                   (localeCompare a c <= 0)%Z)
  (localeCompare_antisym :
     forall a b, (localeCompare a b <= 0)%Z -> (localeCompare b a <= 0)%Z ->
                 a = b)
  (fs fs' : list Feature) :
  (forall v, v <> "" ->
     ((exists f, f ∈ fs /\ featureName f = Some v)
      <-> (exists f, f ∈ fs' /\ featureName f = Some v))) ->
  deriveNames localeCompare (collectionOf fs)
  = deriveNames localeCompare (collectionOf fs').
Proof.
  intros Hsame.
  apply (sorted_perm_unique (localeLe localeCompare)).
  - exact localeCompare_antisym.
  - apply (sortNames_sorted localeCompare localeCompare_flip
             localeCompare_trans).
  - apply (sortNames_sorted localeCompare localeCompare_flip
             localeCompare_trans).
  - apply NoDup_Permutation; try apply deriveNames_NoDup.
    intros v. rewrite !deriveNames_elem. split; intros [Hv Hf]; split; auto;
      apply (Hsame v Hv); exact Hf.
Qed.

Lemma collationWeight_inj (x y : ascii) :
  collationWeight x = collationWeight y -> x = y.
Proof.
  unfold collationWeight. intros E.
  assert (En : nat_of_ascii x = nat_of_ascii y).
  { destruct (_ && _)%bool, (_ && _)%bool; lia. }
  rewrite <- (ascii_nat_embedding x), <- (ascii_nat_embedding y), En.
  reflexivity.
Qed.

Lemma collate_antisym (a b : list ascii) :
  (collate a b <= 0)%Z -> (collate b a <= 0)%Z -> a = b.
Proof.
  revert b. induction a as [|x a IH]; intros [|y b]; simpl; try lia;
    [reflexivity|].
  destruct (Z.eqb_spec (collationWeight x - collationWeight y) 0) as [E|E];
    destruct (Z.eqb_spec (collationWeight y - collationWeight x) 0) as [E'|E'];
    try lia.
  intros H1 H2. f_equal; [apply collationWeight_inj; lia | apply IH; assumption].
Qed.

Lemma sampleLocaleCompare_antisym (a b : string) :
  (sampleLocaleCompare a b <= 0)%Z -> (sampleLocaleCompare b a <= 0)%Z -> a = b.
Proof.
  intros H1 H2.
  rewrite <- (string_of_list_ascii_of_string a),
          <- (string_of_list_ascii_of_string b).
  f_equal. apply collate_antisym; assumption.
Qed.

Lemma deriveNames_depends_on_name_set_witness :
  deriveNames sampleLocaleCompare (collectionOf sampleRegions)
  = deriveNames sampleLocaleCompare
      (collectionOf [named "Il Ngwesi" (polygon 7); named "Naapu" (polygon 8);
                     named "Il Ngwesi" (polygon 9)]).
Proof.
  apply (deriveNames_depends_on_name_set sampleLocaleCompare
           sampleLocaleCompare_flip sampleLocaleCompare_trans
           sampleLocaleCompare_antisym).
  intros v Hv. unfold sampleRegions. split; intros (f & Hf & E).
  - repeat (apply elem_of_cons in Hf as [->|Hf]); try (inversion Hf; fail).
    + exists (named "Naapu" (polygon 8)). split; [|exact E].
      apply list_elem_of_further, list_elem_of_here.
    + exists (named "Il Ngwesi" (polygon 7)). split; [|exact E].
      apply list_elem_of_here.
    + discriminate E.
  - repeat (apply elem_of_cons in Hf as [->|Hf]); try (inversion Hf; fail).
    + exists (named "Il Ngwesi" (polygon 1)). split; [|exact E].
      apply list_elem_of_further, list_elem_of_here.
    + exists (named "Naapu" (polygon 0)). split; [|exact E].
      apply list_elem_of_here.
    + exists (named "Il Ngwesi" (polygon 1)). split; [|exact E].
      apply list_elem_of_further, list_elem_of_here.
Defined.

(** ** The boundary collection and what is derived from it *)

Lemma DataInv_ext {host : StringMethods}
  (lc : string -> string -> Z) (s s' : App) :
  conservancyData s' = conservancyData s ->
  conservancyList s' = conservancyList s ->
  layerMapRef s' = layerMapRef s ->
  clickHandlers s' = clickHandlers s ->
  boundaryPending s' = boundaryPending s ->
  DataInv lc s -> DataInv lc s'.
Proof.
  intros E1 E2 E3 E4 E5 [H1 H2 H3 H4 H5].
  split; rewrite ?E1, ?E2, ?E3, ?E4, ?E5; assumption.
Qed.

Lemma mountFeature_handlers {host : StringMethods} (f : Feature) (s s' : App) :
  mountFeature f s = Some s' ->
  is_Some (properties f)
  /\ clickHandlers s' = <[drawable f := featureName f]> (clickHandlers s).
Proof.
  unfold mountFeature, onEachFeature, featureName.
  destruct (properties f) as [p|]; [|discriminate].
  intros [= <-]. split; [eauto|].
  destruct (has_setStyle (drawable f)), (truthy (NAME p)); reflexivity.
Qed.

Lemma mountFeatures_handlers {host : StringMethods}
  (fs : list Feature) (s s' : App) :
  mountFeatures fs s = Some s' ->
  (forall f, f ∈ fs -> is_Some (properties f))
  /\ forall l name, clickHandlers s' !! l = Some name ->
       clickHandlers s !! l = Some name
       \/ exists f, f ∈ fs /\ drawable f = l /\ featureName f = name.
Proof.
  revert s. induction fs as [|f r IH]; simpl; intros s H.
  - injection H as <-. split; [intros f Hf; inversion Hf | auto].
  - destruct (mountFeature f s) as [s1|] eqn:E; [|discriminate].
    destruct (mountFeature_handlers _ _ _ E) as [Hp Hh].
    destruct (IH s1 H) as [IHp IHh]. split.
    + intros g Hg. apply elem_of_cons in Hg as [->|Hg]; auto.
    + intros l name Hl. destruct (IHh l name Hl) as [H1|(g & Hg & E1 & E2)].
      * rewrite Hh, lookup_insert in H1. case_decide as Ed.
        -- injection H1 as <-. right. exists f.
           split; [apply list_elem_of_here | auto].
        -- auto.
      * right. exists g. split; [apply list_elem_of_further, Hg | auto].
Qed.

(** The layers are built without an exception exactly when every feature
    has a properties object. *)
Lemma mountFeatures_None {host : StringMethods} (fs : list Feature) (s : App) :
  mountFeatures fs s = None <-> exists f, f ∈ fs /\ properties f = None.
Proof.
  revert s. induction fs as [|f r IH]; simpl; intros s.
  - split; [discriminate | intros (f & Hf & _); inversion Hf].
  - destruct (mountFeature f s) as [s1|] eqn:E.
    + destruct (mountFeature_handlers _ _ _ E) as [[p Hp] _].
      rewrite IH. split; intros (g & Hg & Hn).
      * exists g. split; [apply list_elem_of_further, Hg | exact Hn].
      * apply elem_of_cons in Hg as [->|Hg]; [congruence|eauto].
    + split; [intros _|reflexivity]. exists f.
      split; [apply list_elem_of_here|].
      unfold mountFeature, onEachFeature in E.
      destruct (properties f); [discriminate E | reflexivity].
Qed.

Section DataPreservation.

Context {host : StringMethods}.

Variable BASE_URL : string.
Variable localeCompare : string -> string -> Z.

Lemma initialApp_data : DataInv localeCompare initialApp.
Proof.
  split; cbn; try reflexivity.
  - intros l name H. rewrite lookup_empty in H. discriminate.
  - intros f Hf. inversion Hf.
Qed.

Lemma rerender_data (old s : App) :
  DataInv localeCompare s ->
  DataInv localeCompare (rerender BASE_URL localeCompare false old s).
Proof.
  destruct (rerender_frame BASE_URL localeCompare false old s)
    as (R1 & R2 & R3 & R4 & R5 & R6 & R7 & R8 & R9 & R10 & R11).
  apply DataInv_ext; try assumption. apply rerender_list.
Qed.

Lemma step_data (s s' : App) (e : Event) :
  step BASE_URL localeCompare s e = Some s' ->
  DataInv localeCompare s -> DataInv localeCompare s'.
Proof.
  intros Hstep Hinv. destruct e; unfold step in Hstep.
  - injection Hstep as <-. apply rerender_data.
    apply (DataInv_ext _ s); try reflexivity. exact Hinv.
  - destruct (boundaryPending s) eqn:Epend; [|congruence].
    pose proof (d_pending _ _ Hinv Epend) as Hnone.
    destruct r.
    1-3: injection Hstep as <-; destruct Hinv as [H1 H2 H3 H4 H5];
      split; cbn; try assumption; discriminate.
    destruct (mountGeoJSON _ _) as [s1|] eqn:E; [|discriminate].
    injection Hstep as <-.
    destruct (rerender_frame BASE_URL localeCompare true s s1)
      as (R1 & R2 & R3 & R4 & R5 & R6 & R7 & R8 & R9 & R10 & R11).
    cbv zeta in *.
    pose proof (d_map _ _ Hinv) as Hmap. rewrite Hnone in Hmap. cbn in Hmap.
    assert (Hs1 : conservancyData s1 = Some body
                  /\ boundaryPending s1 = false
                  /\ layerMapRef s1 = registerAll (featuresOf (Some body)) ∅
                  /\ (forall f, f ∈ featuresOf (Some body) ->
                                is_Some (properties f))
                  /\ forall l name, clickHandlers s1 !! l = Some name ->
                       exists f, f ∈ featuresOf (Some body)
                                 /\ drawable f = l /\ featureName f = name).
    { unfold mountGeoJSON in E. unfold featuresOf.
      destruct (features body) as [fs|].
      - destruct (mountFeatures_frame _ _ _ E) as (F1 & _ & _ & _ & _ & _ & _ & _ & _ & F10 & _).
        destruct (mountFeatures_handlers _ _ _ E) as [Hp Hh].
        rewrite (mountFeatures_map _ _ _ E). cbn. rewrite Hmap.
        repeat split; try assumption.
        intros l name Hl. destruct (Hh l name Hl) as [H0|H0]; [|exact H0].
        cbn in H0. destruct (d_handlers _ _ Hinv l name H0) as (f & Hf & _).
        rewrite Hnone in Hf. inversion Hf.
      - discriminate E. }
    destruct Hs1 as (D1 & D2 & D3 & D4 & D5).
    split; rewrite ?R1, ?R6, ?R7, ?R9, ?D1.
    + rewrite rerender_derives, D1. reflexivity.
    + exact D3.
    + exact D5.
    + exact D4.
    + rewrite D2. discriminate.
  - destruct (clickHandlers s !! l) as [name|]; injection Hstep as <-;
      [|exact Hinv].
    apply rerender_data.
    destruct (selectConservancyByName_frame name true s)
      as (F1 & F2 & F3 & F4 & F5 & F6 & F7 & F8 & F9 & F10 & F11 & F12 & F13).
    apply (DataInv_ext _ s); assumption.
  - injection Hstep as <-. apply rerender_data.
    destruct (handleSelectConservancy_frame value s)
      as (F1 & F2 & F3 & F4 & F5 & F6 & F7 & F8 & F9 & F10 & F11 & F12 & F13).
    apply (DataInv_ext _ s); assumption.
  - destruct (sidePanel s); injection Hstep as <-; [|exact Hinv].
    apply rerender_data.
    destruct (onClose_frame s)
      as (F1 & F2 & F3 & F4 & F5 & F6 & F7 & F8 & F9 & F10 & F11 & F12 & F13 & F14 & F15).
    apply (DataInv_ext _ s); assumption.
  - injection Hstep as <-.
    destruct (onTabClick_frame BASE_URL i s)
      as (F1 & F2 & F3 & F4 & F5 & F6 & F7 & F8 & F9 & F10 & F11 & F12 & F13 & F14 & F15 & F16).
    apply (DataInv_ext _ s); assumption.
  - injection Hstep as <-.
    destruct (onChartResponse_frame k r s)
      as (F1 & F2 & F3 & F4 & F5 & F6 & F7 & F8 & F9 & F10 & F11 & F12 & F13 & F14 & F15 & F16).
    apply (DataInv_ext _ s); assumption.
  - injection Hstep as <-.
    destruct (onTimerFire_frame t s)
      as (F1 & F2 & F3 & F4 & F5 & F6 & F7 & F8 & F9 & F10 & F11 & F12 & F13).
    apply (DataInv_ext _ s); assumption.
Qed.

Lemma reachable_data (s : App) :
  reachable BASE_URL localeCompare s -> DataInv localeCompare s.
Proof.
  induction 1 as [|s e s' _ IH Hstep]; [exact initialApp_data|].
  exact (step_data _ _ _ Hstep IH).
Qed.

End DataPreservation.

Lemma resolveLayer_empty {host : StringMethods}
  (n : string) : resolveLayer ∅ n = None.
Proof. unfold resolveLayer. rewrite !lookup_empty. reflexivity. Qed.

Lemma selectConservancyByName_untouched {host : StringMethods}
  (name : option string) (u : bool)
  (s : App) :
  selectedLayerRef s = None -> layerMapRef s = ∅ ->
  layerStyle (selectConservancyByName name u s) = layerStyle s
  /\ mapCalls (selectConservancyByName name u s) = mapCalls s
  /\ selectedLayerRef (selectConservancyByName name u s) = None
  /\ timers (selectConservancyByName name u s) = timers s.
Proof.
  intros Href Hmap. unfold selectConservancyByName.
  set (s0 := if u then setSelectedConservancy (orEmpty name) s else s).
  assert (E0 : layerStyle s0 = layerStyle s /\ mapCalls s0 = mapCalls s
               /\ selectedLayerRef s0 = None /\ timers s0 = timers s
               /\ layerMapRef s0 = ∅).
  { subst s0. destruct u; auto. }
  destruct E0 as (A1 & A2 & A3 & A4 & A5).
  destruct (mapRef s0); cbn [negb]; [|auto].
  assert (Er : revertSelected s0 = s0) by (unfold revertSelected; rewrite A3; reflexivity).
  rewrite Er, A5, resolveLayer_empty. destruct (truthy name); auto.
Qed.

Lemma debounceEffect_debounce_only (s : App) :
  (forall x, x ∈ timers s -> isDebounce x) ->
  forall x, x ∈ timers (debounceEffect s) -> isDebounce x.
Proof.
  intros Hall x. unfold debounceEffect.
  set (s0 := match debounceTimeout s with
             | Some t => set_debounceTimeout None (clearTimeout t s)
             | None => s
             end).
  assert (H0 : forall y, y ∈ timers s0 -> isDebounce y).
  { subst s0. destruct (debounceTimeout s); [|exact Hall].
    app_unfold. intros y Hy. apply list_elem_of_filter in Hy as [_ Hy]. auto. }
  destruct (_ || _); [apply H0|].
  app_unfold. intros Hx. apply elem_of_app in Hx as [Hx|Hx]; [auto|].
  apply list_elem_of_singleton in Hx. subst x. eexists. reflexivity.
Qed.

Section Untouched.

Context {host : StringMethods}.

Variable BASE_URL : string.
Variable localeCompare : string -> string -> Z.

Lemma rerender_untouched (d : bool) (old s : App) :
  untouchedMap s -> untouchedMap (rerender BASE_URL localeCompare d old s).
Proof.
  intros (U1 & U2 & U3 & U4).
  destruct (rerender_frame BASE_URL localeCompare d old s)
    as (R1 & R2 & R3 & R4 & R5 & R6 & R7 & R8 & R9 & R10 & R11).
  cbv zeta in *. unfold untouchedMap. rewrite R5, R8, R10.
  repeat split; try assumption.
  destruct (rerender_timers_before BASE_URL localeCompare d old s)
    as (s2 & -> & T & _).
  destruct (_ || _ || _).
  - apply debounceEffect_debounce_only. rewrite T. exact U4.
  - rewrite T. exact U4.
Qed.

Lemma untouched_ext (s s' : App) :
  layerStyle s' = layerStyle s -> mapCalls s' = mapCalls s ->
  selectedLayerRef s' = selectedLayerRef s -> timers s' = timers s ->
  untouchedMap s -> untouchedMap s'.
Proof.
  intros E1 E2 E3 E4 (U1 & U2 & U3 & U4). unfold untouchedMap.
  rewrite E1, E2, E3, E4. auto.
Qed.

Lemma select_untouched (name : option string) (u : bool) (s : App) :
  layerMapRef s = ∅ -> untouchedMap s ->
  untouchedMap (selectConservancyByName name u s).
Proof.
  intros Hmap (U1 & U2 & U3 & U4).
  destruct (selectConservancyByName_untouched name u s U3 Hmap)
    as (A1 & A2 & A3 & A4).
  unfold untouchedMap. rewrite A1, A2, A3, A4. auto.
Qed.

Lemma step_untouched (s s' : App) (e : Event) :
  step BASE_URL localeCompare s e = Some s' ->
  DataInv localeCompare s ->
  (conservancyData s = None -> untouchedMap s) ->
  conservancyData s' = None -> untouchedMap s'.
Proof.
  intros Hstep Hd Hu Hnone'.
  assert (Hmap0 : conservancyData s = None -> layerMapRef s = ∅).
  { intros E. rewrite (d_map _ _ Hd), E. reflexivity. }
  destruct e; unfold step in Hstep.
  - injection Hstep as <-.
    destruct (rerender_frame BASE_URL localeCompare false s
                (setMapReady true (set_mapRef true s))) as (R1 & _).
    cbv zeta in R1. rewrite R1 in Hnone'. cbn in Hnone'.
    apply rerender_untouched. apply (untouched_ext s); auto.
  - destruct (boundaryPending s); [|injection Hstep as <-; auto].
    destruct r; try (injection Hstep as <-; cbn in Hnone';
      apply (untouched_ext s); auto).
    destruct (mountGeoJSON _ _) as [s1|] eqn:E; [|discriminate].
    injection Hstep as <-.
    destruct (rerender_frame BASE_URL localeCompare true s s1) as (R1 & _).
    cbv zeta in R1. rewrite R1 in Hnone'.
    unfold mountGeoJSON in E. destruct (features body) as [fs|].
    + destruct (mountFeatures_frame _ _ _ E) as (F1 & _).
      rewrite F1 in Hnone'. discriminate Hnone'.
    + discriminate E.
  - destruct (clickHandlers s !! l) as [name|]; injection Hstep as <-;
      [|auto].
    destruct (rerender_frame BASE_URL localeCompare false s
                (selectConservancyByName name true s)) as (R1 & _).
    destruct (selectConservancyByName_frame name true s) as (F1 & _).
    cbv zeta in *. rewrite R1, F1 in Hnone'.
    apply rerender_untouched, select_untouched; auto.
  - injection Hstep as <-.
    destruct (rerender_frame BASE_URL localeCompare false s
                (handleSelectConservancy value s)) as (R1 & _).
    destruct (handleSelectConservancy_frame value s) as (F1 & _).
    cbv zeta in *. rewrite R1, F1 in Hnone'.
    apply rerender_untouched. unfold handleSelectConservancy.
    assert (H0 : untouchedMap (setSelectedConservancy (orEmpty (Some value)) s))
      by (apply (untouched_ext s); auto).
    destruct (_ && _); [|exact H0].
    apply select_untouched; [apply Hmap0, Hnone' | exact H0].
  - destruct (sidePanel s); injection Hstep as <-; [|auto].
    destruct (rerender_frame BASE_URL localeCompare false s (onClose s))
      as (R1 & _).
    destruct (onClose_frame s) as (F1 & _).
    cbv zeta in *. rewrite R1, F1 in Hnone'.
    apply rerender_untouched.
    destruct (Hu Hnone') as (U1 & U2 & U3 & U4).
    unfold onClose. app_unfold. rewrite U3.
    apply (untouched_ext s); try reflexivity. repeat split; assumption.
  - injection Hstep as <-.
    destruct (onTabClick_frame BASE_URL i s)
      as (F1 & F2 & F3 & F4 & F5 & F6 & F7 & F8 & F9 & F10 & F11 & F12 & F13 & F14 & F15 & F16).
    cbv zeta in *. rewrite F1 in Hnone'. apply (untouched_ext s); auto.
  - injection Hstep as <-.
    destruct (onChartResponse_frame k r s)
      as (F1 & F2 & F3 & F4 & F5 & F6 & F7 & F8 & F9 & F10 & F11 & F12 & F13 & F14 & F15 & F16).
    cbv zeta in *. rewrite F1 in Hnone'. apply (untouched_ext s); auto.
  - injection Hstep as <-.
    destruct (onTimerFire_frame t s) as (F1 & _).
    cbv zeta in F1. rewrite F1 in Hnone'.
    pose proof (Hu Hnone') as Hus. destruct Hus as (U1 & U2 & U3 & U4).
    unfold onTimerFire.
    destruct (find _ _) as [x|] eqn:Ef; [|repeat split; assumption].
    apply find_some in Ef as [Hx _]. apply list_elem_of_In in Hx.
    destruct (U4 x Hx) as [n Hn]. rewrite Hn.
    apply select_untouched; [apply Hmap0, Hnone'|].
    unfold untouchedMap. app_unfold. repeat split; try assumption.
    intros y Hy. apply list_elem_of_filter in Hy as [_ Hy]. auto.
Qed.

Lemma reachable_untouched (s : App) :
  reachable BASE_URL localeCompare s ->
  conservancyData s = None -> untouchedMap s.
Proof.
  induction 1 as [|s e s' Hr IH Hstep].
  - intros _. repeat split. intros x Hx. inversion Hx.
  - exact (step_untouched _ _ _ Hstep (reachable_data _ _ _ Hr) IH).
Qed.

End Untouched.

Lemma deriveNames_elem_data (lc : string -> string -> Z)
  (data : option GeoJSON) (v : string) :
  v ∈ deriveNames lc data
  <-> v <> "" /\ exists f, f ∈ featuresOf data /\ featureName f = Some v.
Proof.
  destruct data as [[[fs|]]|]; cbn [featuresOf features].
  - apply (deriveNames_elem lc fs v).
  - cbn. split; [intros H; inversion H|].
    intros (_ & f & Hf & _). inversion Hf.
  - cbn. split; [intros H; inversion H|].
    intros (_ & f & Hf & _). inversion Hf.
Qed.

(** X5.  In every reachable state the name list is the one derived from
    the stored boundary collection, and the keys of the name-to-layer map
    are exactly the names and the normalized names of the features of that
    collection with a non-empty name. *)
Theorem derived_data_in_step {host : StringMethods} (BASE_URL : string)
  (localeCompare : string -> string -> Z) (s : App) :
  reachable BASE_URL localeCompare s ->
  conservancyList s = deriveNames localeCompare (conservancyData s)
  /\ forall k, is_Some (layerMapRef s !! k)
               <-> exists g, g ∈ featuresOf (conservancyData s)
                             /\ registeredBy g k.
Proof.
  intros Hr. destruct (reachable_data _ _ _ Hr) as [H1 H2 _ _ _].
  split; [exact H1|].
  intros k. rewrite H2. split.
  - intros [l Hk].
    destruct (registerAll_origin _ _ _ _ Hk) as [H0|(g & Hg & Hby & _)];
      [|eauto].
    rewrite lookup_empty in H0. discriminate.
  - intros (g & Hg & Hby). exact (registerAll_domain _ ∅ g k Hg Hby).
Qed.

Lemma derived_data_in_step_witness :
  let s := stateAfter (sampleLoaded ++ [SelectChange "Naapu"; CloseClick]) in
  conservancyList s = ["Il Ngwesi"; "Naapu"]
  /\ conservancyList s = deriveNames sampleLocaleCompare (conservancyData s)
  /\ forall k, is_Some (layerMapRef s !! k)
               <-> exists g, g ∈ featuresOf (conservancyData s)
                             /\ registeredBy g k.
Proof.
  split; [vm_compute; reflexivity|].
  apply (derived_data_in_step sampleBase sampleLocaleCompare).
  apply (sampleRun_reachable
           (sampleLoaded ++ [SelectChange "Naapu"; CloseClick])).
  vm_compute. reflexivity.
Defined.

(** X6.  Every name offered in the dropdown has its own exact key in the
    name-to-layer map, written for a feature of the collection: it
    resolves without the fallback to the normalized key, and with the map
    created a selection of that name makes the layer under that key the
    selected one. *)
Theorem dropdown_options_resolve {host : StringMethods} (BASE_URL : string)
  (localeCompare : string -> string -> Z) (s : App) (n : string) :
  reachable BASE_URL localeCompare s ->
  n ∈ conservancyList s ->
  exists l,
    layerMapRef s !! n = Some l
    /\ resolveLayer (layerMapRef s) n = Some l
    /\ (exists g, g ∈ featuresOf (conservancyData s) /\ registeredBy g n)
    /\ (mapRef s = true ->
        forall u, selectedLayerRef (selectConservancyByName (Some n) u s)
                  = Some l).
Proof.
  intros Hr Hn. destruct (reachable_data _ _ _ Hr) as [H1 H2 _ _ _].
  rewrite H1 in Hn. apply deriveNames_elem_data in Hn as (Hne & f & Hf & Ef).
  assert (Hby : registeredBy f n) by (exists n; auto).
  assert (Hdom : is_Some (layerMapRef s !! n)).
  { rewrite H2. exact (registerAll_domain _ ∅ f n Hf Hby). }
  destruct Hdom as [l Hl].
  assert (Hres : resolveLayer (layerMapRef s) n = Some l).
  { unfold resolveLayer. rewrite Hl. reflexivity. }
  exists l. split; [exact Hl|]. split; [exact Hres|].
  split; [exists f; auto|].
  intros Hmap u. rewrite selectConservancyByName_ref; [exact Hres|exact Hmap|].
  cbn. destruct (String.eqb_spec n ""); [contradiction|reflexivity].
Qed.

Lemma dropdown_options_resolve_witness :
  let s := stateAfter sampleLoaded in
  exists l,
    layerMapRef s !! "Naapu" = Some l
    /\ resolveLayer (layerMapRef s) "Naapu" = Some l
    /\ (exists g, g ∈ featuresOf (conservancyData s)
                  /\ registeredBy g "Naapu")
    /\ (mapRef s = true ->
        forall u, selectedLayerRef (selectConservancyByName (Some "Naapu") u s)
                  = Some l).
Proof.
  apply (dropdown_options_resolve sampleBase sampleLocaleCompare
           (stateAfter sampleLoaded) "Naapu").
  - apply (sampleRun_reachable sampleLoaded). vm_compute. reflexivity.
  - vm_compute. apply list_elem_of_further, list_elem_of_here.
Defined.

(** X7.  The name a click on a region selects is one of the options of the
    dropdown, before and after the click, so the dropdown can show it. *)
Theorem clicked_name_is_option {host : StringMethods} (BASE_URL : string)
  (localeCompare : string -> string -> Z) (s : App) (l : Layer) (n : string) :
  reachable BASE_URL localeCompare s ->
  clickHandlers s !! l = Some (Some n) -> n <> "" ->
  n ∈ conservancyList s
  /\ exists s', step BASE_URL localeCompare s (LayerClick l) = Some s'
       /\ selectedConservancy s' = n
       /\ conservancyList s' = conservancyList s.
Proof.
  intros Hr Hh Hn. destruct (reachable_data _ _ _ Hr) as [H1 _ H3 _ _].
  split.
  - rewrite H1. apply deriveNames_elem_data. split; [exact Hn|].
    destruct (H3 l (Some n) Hh) as (f & Hf & _ & Ef). eauto.
  - unfold step. rewrite Hh. eexists. split; [reflexivity|].
    destruct (rerender_frame BASE_URL localeCompare false s
                (selectConservancyByName (Some n) true s)) as (_ & R2 & _).
    destruct (selectConservancyByName_frame (Some n) true s)
      as (_ & F2 & F3 & _).
    cbv zeta in *. split; [rewrite R2, F3; reflexivity|].
    rewrite rerender_list. exact F2.
Qed.

Lemma clicked_name_is_option_witness :
  let s := stateAfter sampleLoaded in
  "Il Ngwesi" ∈ conservancyList s
  /\ exists s', step sampleBase sampleLocaleCompare s (LayerClick (polygon 1))
                = Some s'
       /\ selectedConservancy s' = "Il Ngwesi"
       /\ conservancyList s' = conservancyList s.
Proof.
  apply (clicked_name_is_option sampleBase sampleLocaleCompare
           (stateAfter sampleLoaded) (polygon 1) "Il Ngwesi").
  - apply (sampleRun_reachable sampleLoaded). vm_compute. reflexivity.
  - vm_compute. reflexivity.
  - discriminate.
Defined.

(** X8.  The boundary document is taken over without an exception exactly
    when it has a features array and every feature has a properties
    object: one feature with [properties: null] makes [onEachFeature] raise
    while the layers are built, although the name list derivation skips
    such a feature. *)
Theorem boundary_load_fails_on_null_properties {host : StringMethods}
  (BASE_URL : string)
  (localeCompare : string -> string -> Z) (s : App) (d : GeoJSON) :
  boundaryPending s = true ->
  (step BASE_URL localeCompare s (BoundaryResponse (Parsed d)) = None
   <-> features d = None
       \/ exists f, f ∈ featuresOf (Some d) /\ properties f = None)
  /\ forall f, properties f = None -> featureName f = None.
Proof.
  intros Hp. split.
  - unfold step, mountGeoJSON, featuresOf. rewrite Hp.
    destruct (features d) as [fs|].
    + destruct (mountFeatures fs _) as [s1|] eqn:E.
      * split; [discriminate|]. intros [Hex|Hex]; [discriminate Hex|].
        apply (mountFeatures_None fs
                 (setConservancyData (Some d) (set_boundaryPending false s)))
          in Hex.
        congruence.
      * split; [intros _; right|reflexivity].
        apply mountFeatures_None in E. exact E.
    + split; [intros _; left|]; reflexivity.
  - intros f Hf. unfold featureName. rewrite Hf. reflexivity.
Qed.

Lemma boundary_load_fails_on_null_properties_witness :
  let d := mkGeoJSON (Some [named "Naapu" (polygon 0);
                            mkFeature None (polygon 1)]) in
  step sampleBase sampleLocaleCompare initialApp (BoundaryResponse (Parsed d))
  = None
  /\ deriveNames sampleLocaleCompare (Some d) = ["Naapu"].
Proof.
  split; [|vm_compute; reflexivity].
  apply (boundary_load_fails_on_null_properties sampleBase sampleLocaleCompare
           initialApp
           (mkGeoJSON (Some [named "Naapu" (polygon 0);
                             mkFeature None (polygon 1)])) eq_refl).
  right. exists (mkFeature None (polygon 1)).
  split; [apply list_elem_of_further, list_elem_of_here | reflexivity].
Defined.

(** X9.  As long as no boundary collection is stored (still loading, or the
    request failed) there is nothing to select: the name list, the
    name-to-layer map and the click handlers are empty, no layer has a
    style, nothing was called on the map, no layer is referred to and only
    debounce timers are pending, whatever was selected in the dropdown. *)
Theorem no_data_no_map_activity {host : StringMethods} (BASE_URL : string)
  (localeCompare : string -> string -> Z) (s : App) :
  reachable BASE_URL localeCompare s ->
  conservancyData s = None ->
  conservancyList s = [] /\ layerMapRef s = ∅
  /\ (forall l, clickHandlers s !! l = None)
  /\ layerStyle s = ∅ /\ mapCalls s = [] /\ selectedLayerRef s = None
  /\ forall x, x ∈ timers s -> exists n, action x = DebouncedSelect n.
Proof.
  intros Hr Hnone. destruct (reachable_data _ _ _ Hr) as [H1 H2 H3 _ _].
  destruct (reachable_untouched _ _ _ Hr Hnone) as (U1 & U2 & U3 & U4).
  rewrite Hnone in H1, H2. split; [exact H1|]. split; [exact H2|].
  split; [|auto].
  intros l. destruct (clickHandlers s !! l) as [name|] eqn:E; [|reflexivity].
  destruct (H3 l name E) as (f & Hf & _). rewrite Hnone in Hf. inversion Hf.
Qed.

Lemma no_data_no_map_activity_witness :
  let s := stateAfter [MapCreated; BoundaryResponse BadStatus;
                       SelectChange "Naapu"] in
  (selectedConservancy s = "Naapu"
   /\ timers s = [mkTimer 0 300 (DebouncedSelect "Naapu")])
  /\ conservancyList s = [] /\ layerMapRef s = ∅
  /\ (forall l, clickHandlers s !! l = None)
  /\ layerStyle s = ∅ /\ mapCalls s = [] /\ selectedLayerRef s = None
  /\ forall x, x ∈ timers s -> exists n, action x = DebouncedSelect n.
Proof.
  split; [vm_compute; split; reflexivity|].
  apply (no_data_no_map_activity sampleBase sampleLocaleCompare).
  - apply (sampleRun_reachable [MapCreated; BoundaryResponse BadStatus;
                                SelectChange "Naapu"]).
    vm_compute. reflexivity.
  - vm_compute. reflexivity.
Defined.

(** X10.  A loaded boundary collection is read-only: no event replaces
    the stored collection or changes the name list derived from it. *)
Theorem boundary_data_read_only {host : StringMethods} (BASE_URL : string)
  (localeCompare : string -> string -> Z) (s s' : App) (e : Event)
  (d : GeoJSON) :
  reachable BASE_URL localeCompare s ->
  conservancyData s = Some d ->
  step BASE_URL localeCompare s e = Some s' ->
  conservancyData s' = Some d
  /\ conservancyList s' = conservancyList s.
Proof.
  intros Hr Hd Hstep. rewrite <- Hd.
  assert (Hp : boundaryPending s = false).
  { destruct (boundaryPending s) eqn:Ep; [|reflexivity].
    rewrite (d_pending _ _ (reachable_data _ _ _ Hr) Ep) in Hd.
    discriminate Hd. }
  assert (Hre : forall h,
            conservancyData h = conservancyData s ->
            conservancyList h = conservancyList s ->
            let r := rerender BASE_URL localeCompare false s h in
            conservancyData r = conservancyData s
            /\ conservancyList r = conservancyList s).
  { intros h E1 E2.
    destruct (rerender_frame BASE_URL localeCompare false s h) as (R1 & _).
    cbv zeta in *. rewrite rerender_list. split; congruence. }
  destruct e; unfold step in Hstep.
  - injection Hstep as <-. apply Hre; reflexivity.
  - rewrite Hp in Hstep. injection Hstep as <-. auto.
  - destruct (clickHandlers s !! l) as [name|]; injection Hstep as <-;
      [|auto].
    destruct (selectConservancyByName_frame name true s) as (F1 & F2 & _).
    apply Hre; assumption.
  - injection Hstep as <-.
    destruct (handleSelectConservancy_frame value s) as (F1 & F2 & _).
    apply Hre; assumption.
  - destruct (sidePanel s); injection Hstep as <-; [|auto].
    destruct (onClose_frame s) as (F1 & F2 & _).
    apply Hre; assumption.
  - injection Hstep as <-.
    destruct (onTabClick_frame BASE_URL i s) as (F1 & F2 & _).
    cbv zeta in *. auto.
  - injection Hstep as <-.
    destruct (onChartResponse_frame k r s) as (F1 & F2 & _).
    cbv zeta in *. auto.
  - injection Hstep as <-.
    destruct (onTimerFire_frame t s) as (F1 & F2 & _).
    cbv zeta in *. auto.
Qed.

Lemma boundary_data_read_only_witness :
  let s := stateAfter sampleLoaded in
  let s' := stateAfter (sampleLoaded ++ [LayerClick (polygon 1)]) in
  conservancyData s' = Some sampleData
  /\ conservancyList s' = conservancyList s.
Proof.
  apply (boundary_data_read_only sampleBase sampleLocaleCompare
           (stateAfter sampleLoaded) _ (LayerClick (polygon 1)) sampleData).
  - apply (sampleRun_reachable sampleLoaded). vm_compute. reflexivity.
  - vm_compute. reflexivity.
  - vm_compute. reflexivity.
Defined.

(** ** Chart requests *)

Lemma RequestInv_ext (B : string) (s s' : App) :
  sidePanel s' = sidePanel s -> panelMounts s' = panelMounts s ->
  chartFetches s' = chartFetches s -> settled s' = settled s ->
  RequestInv B s -> RequestInv B s'.
Proof.
  intros E1 E2 E3 E4 [H1 H2 H3 H4].
  split; rewrite ?E1, ?E2, ?E3, ?E4; assumption.
Qed.

Lemma findTab_in (i : string) (t : Tab) : findTab i = Some t -> t ∈ TAB_CONFIG.
Proof.
  unfold findTab. intros H. apply find_some in H as [H _].
  apply list_elem_of_In. exact H.
Qed.

Lemma fetchEffect_result (B : string) (n : string) (p : SidePanel) (s : App)
  (t : Tab) :
  n <> "" -> findTab (activeTabId p) = Some t ->
  sidePanel (fetchEffect B n p s)
  = Some (mkSidePanel (mountId p) (activeTabId p) None true false)
  /\ chartFetches (fetchEffect B n p s)
     = chartFetches s ++ [mkChartFetch (chartUrl B n t) (mountId p)]
  /\ panelMounts (fetchEffect B n p s) = panelMounts s
  /\ settled (fetchEffect B n p s) = settled s.
Proof.
  intros Hn Ht. unfold fetchEffect.
  destruct (truthy (Some n)) eqn:Etr;
    [|apply truthy_false_iff in Etr; contradiction].
  cbn [negb]. rewrite Ht. repeat split.
Qed.

Lemma fetchEffect_request (B : string) (n : string) (p : SidePanel) (s : App) :
  n <> "" -> is_Some (findTab (activeTabId p)) ->
  (forall f, f ∈ chartFetches s -> owner f < panelMounts s) ->
  (forall f, f ∈ chartFetches s ->
     exists n t, n <> "" /\ t ∈ TAB_CONFIG /\ url f = chartUrl B n t) ->
  mountId p < panelMounts s ->
  (forall k, In k (settled s) -> k < length (chartFetches s)) ->
  RequestInv B (fetchEffect B n p s).
Proof.
  intros Hn [t Ht] Hown Hurl Hm Hset.
  destruct (fetchEffect_result B n p s t Hn Ht) as (E1 & E2 & E3 & E4).
  split; rewrite ?E1, ?E2, ?E3, ?E4.
  - intros f Hf. apply elem_of_app in Hf as [Hf|Hf]; [auto|].
    apply list_elem_of_singleton in Hf. subst f. exact Hm.
  - intros f Hf. apply elem_of_app in Hf as [Hf|Hf]; [auto|].
    apply list_elem_of_singleton in Hf. subst f.
    exists n, t. split; [exact Hn|]. split; [|reflexivity].
    exact (findTab_in _ _ Ht).
  - intros p' [= <-]. exact Hm.
  - intros p' [= <-] _. exists (length (chartFetches s)).
    exists (mkChartFetch (chartUrl B n t) (mountId p)).
    split; [|split; [reflexivity|]].
    + rewrite nth_error_app2 by lia. rewrite Nat.sub_diag. reflexivity.
    + intros Hin. specialize (Hset _ Hin). lia.
Qed.

Section RequestPreservation.

Context {host : StringMethods}.

Variable BASE_URL : string.
Variable localeCompare : string -> string -> Z.

Lemma renderSidePanel_request (old s : App) :
  RequestInv BASE_URL s ->
  (forall p, sidePanel s = Some p -> is_Some (findTab (activeTabId p))) ->
  (forall k, In k (settled s) -> k < length (chartFetches s)) ->
  RequestInv BASE_URL (renderSidePanel BASE_URL old s).
Proof.
  intros [Q1 Q2 Q3 Q4] P2 P3. unfold renderSidePanel.
  destruct (truthy (Some (selectedConservancy s))) eqn:Etr; cbn [negb].
  - assert (Hne : selectedConservancy s <> "").
    { intros E. apply truthy_false_iff in E. congruence. }
    destruct (sidePanel s) as [p|] eqn:Ep.
    + destruct (String.eqb _ _).
      * split; rewrite ?Ep; assumption.
      * apply fetchEffect_request.
        -- exact Hne.
        -- exact (P2 p eq_refl).
        -- exact Q1.
        -- exact Q2.
        -- exact (Q3 p eq_refl).
        -- exact P3.
    + apply fetchEffect_request.
      * exact Hne.
      * cbn. eauto.
      * app_unfold. intros f Hf. specialize (Q1 f Hf). lia.
      * app_unfold. exact Q2.
      * app_unfold. cbn. lia.
      * app_unfold. exact P3.
  - split; app_unfold; try assumption; discriminate.
Qed.

Lemma rerender_request (d : bool) (old s : App) :
  RequestInv BASE_URL s ->
  (forall p, sidePanel s = Some p -> is_Some (findTab (activeTabId p))) ->
  (forall k, In k (settled s) -> k < length (chartFetches s)) ->
  RequestInv BASE_URL (rerender BASE_URL localeCompare d old s).
Proof.
  intros HQ P2 P3. unfold rerender.
  pose proof (renderSidePanel_request old s HQ P2 P3) as H1.
  set (s1 := renderSidePanel BASE_URL old s) in *.
  set (s2 := if d then setConservancyList _ s1 else s1).
  assert (H2 : RequestInv BASE_URL s2).
  { subst s2. destruct d; [|exact H1].
    apply (RequestInv_ext _ s1); try reflexivity. exact H1. }
  destruct (_ || _ || _); [|exact H2].
  destruct (debounceEffect_frame s2)
    as (D1 & D2 & D3 & D4 & D5 & D6 & D7 & D8 & D9 & D10 & D11 & D12 & D13 & D14 & D15).
  apply (RequestInv_ext _ s2); assumption.
Qed.

Lemma rerender_request_after (d : bool) (old s0 s : App) :
  sidePanel s = sidePanel s0 -> panelMounts s = panelMounts s0 ->
  chartFetches s = chartFetches s0 -> settled s = settled s0 ->
  RequestInv BASE_URL s0 -> PanelInv s0 ->
  RequestInv BASE_URL (rerender BASE_URL localeCompare d old s).
Proof.
  intros E1 E2 E3 E4 HQ [P1 P2 P3].
  apply rerender_request.
  - apply (RequestInv_ext _ s0); auto.
  - rewrite E1. exact P2.
  - rewrite E3, E4. exact P3.
Qed.

Lemma onTabClick_request (i : nat) (s : App) :
  RequestInv BASE_URL s -> PanelInv s ->
  RequestInv BASE_URL (onTabClick BASE_URL i s).
Proof.
  intros HQ HP. unfold onTabClick.
  destruct (sidePanel s) as [p|] eqn:Ep; [|exact HQ].
  destruct (nth_error TAB_CONFIG i) as [t|] eqn:Et; [|exact HQ].
  destruct (String.eqb _ _); [exact HQ|].
  apply fetchEffect_request.
  - intros E. apply (inv_panel s HP) in E. congruence.
  - cbn [activeTabId]. rewrite (findTab_nth _ _ Et). eauto.
  - exact (q_owner _ _ HQ).
  - exact (q_url _ _ HQ).
  - cbn [mountId]. exact (q_mount _ _ HQ p Ep).
  - exact (inv_settled s HP).
Qed.

Lemma onChartResponse_request (k : nat) (r : Response Figure) (s : App) :
  RequestInv BASE_URL s -> RequestInv BASE_URL (onChartResponse k r s).
Proof.
  intros [Q1 Q2 Q3 Q4]. unfold onChartResponse.
  destruct (nth_error (chartFetches s) k) as [f|] eqn:Ef; [|split; assumption].
  destruct (existsb _ _); [split; assumption|].
  app_unfold. destruct (sidePanel s) as [p|] eqn:Ep.
  - destruct (Nat.eqb_spec (mountId p) (owner f)) as [Eo|Eo];
      split; app_unfold; rewrite ?Ep; try assumption.
    + intros p' [= <-]. destruct r; cbn; apply (Q3 p eq_refl).
    + intros p' [= <-] Hl. destruct r; cbn in Hl; discriminate Hl.
    + intros p' [= <-] Hl. destruct (Q4 p eq_refl Hl) as (k0 & f0 & H1 & H2 & H3).
      exists k0, f0. split; [exact H1|]. split; [exact H2|].
      intros [E|Hin]; [|contradiction]. subst k0. congruence.
  - split; app_unfold; rewrite ?Ep; try assumption; discriminate.
Qed.

Lemma initialApp_request : RequestInv BASE_URL initialApp.
Proof.
  split; cbn; try discriminate; intros f Hf; inversion Hf.
Qed.

Lemma step_request (s s' : App) (e : Event) :
  step BASE_URL localeCompare s e = Some s' ->
  PanelInv s -> RequestInv BASE_URL s -> RequestInv BASE_URL s'.
Proof.
  intros Hstep HP HQ. destruct e; unfold step in Hstep.
  - injection Hstep as <-. apply (rerender_request_after _ _ s); auto.
  - destruct (boundaryPending s); [|congruence].
    destruct r; try (injection Hstep as <-;
      apply (RequestInv_ext _ s); try reflexivity; exact HQ).
    destruct (mountGeoJSON _ _) as [s1|] eqn:E; [|discriminate].
    injection Hstep as <-. unfold mountGeoJSON in E.
    destruct (features body) as [fs|].
    + destruct (mountFeatures_frame _ _ _ E)
        as (F1 & F2 & F3 & F4 & F5 & F6 & F7 & F8 & F9 & F10 & F11 & F12 & F13 & F14).
      apply (rerender_request_after _ _ s); auto.
    + discriminate E.
  - destruct (clickHandlers s !! l) as [name|]; injection Hstep as <-;
      [|exact HQ].
    destruct (selectConservancyByName_frame name true s)
      as (F1 & F2 & F3 & F4 & F5 & F6 & F7 & F8 & F9 & F10 & F11 & F12 & F13).
    apply (rerender_request_after _ _ s); auto.
  - injection Hstep as <-.
    destruct (handleSelectConservancy_frame value s)
      as (F1 & F2 & F3 & F4 & F5 & F6 & F7 & F8 & F9 & F10 & F11 & F12 & F13).
    apply (rerender_request_after _ _ s); auto.
  - destruct (sidePanel s); injection Hstep as <-; [|exact HQ].
    destruct (onClose_frame s)
      as (F1 & F2 & F3 & F4 & F5 & F6 & F7 & F8 & F9 & F10 & F11 & F12 & F13 & F14 & F15).
    apply (rerender_request_after _ _ s); auto.
  - injection Hstep as <-. apply onTabClick_request; assumption.
  - injection Hstep as <-. apply onChartResponse_request, HQ.
  - injection Hstep as <-.
    destruct (onTimerFire_frame t s)
      as (F1 & F2 & F3 & F4 & F5 & F6 & F7 & F8 & F9 & F10 & F11 & F12 & F13).
    apply (RequestInv_ext _ s); assumption.
Qed.

Lemma reachable_request (s : App) :
  reachable BASE_URL localeCompare s -> RequestInv BASE_URL s.
Proof.
  induction 1 as [|s e s' Hr IH Hstep]; [exact initialApp_request|].
  exact (step_request _ _ _ Hstep (reachable_panel _ _ _ Hr) IH).
Qed.

End RequestPreservation.

Lemma rerender_panel_eq (BASE_URL : string)
  (localeCompare : string -> string -> Z) (d : bool) (old h : App) :
  sidePanel (rerender BASE_URL localeCompare d old h)
  = sidePanel (renderSidePanel BASE_URL old h)
  /\ chartFetches (rerender BASE_URL localeCompare d old h)
     = chartFetches (renderSidePanel BASE_URL old h)
  /\ panelMounts (rerender BASE_URL localeCompare d old h)
     = panelMounts (renderSidePanel BASE_URL old h)
  /\ settled (rerender BASE_URL localeCompare d old h)
     = settled (renderSidePanel BASE_URL old h).
Proof.
  unfold rerender.
  set (s1 := renderSidePanel BASE_URL old h).
  set (s2 := if d then setConservancyList _ s1 else s1).
  assert (H2 : sidePanel s2 = sidePanel s1 /\ chartFetches s2 = chartFetches s1
               /\ panelMounts s2 = panelMounts s1 /\ settled s2 = settled s1).
  { subst s2. destruct d; auto. }
  destruct (_ || _ || _); [|exact H2].
  destruct (debounceEffect_frame s2)
    as (D1 & D2 & D3 & D4 & D5 & D6 & D7 & D8 & D9 & D10 & D11 & D12 & D13 & D14 & D15).
  cbv zeta in *. rewrite D8, D9, D14, D15. exact H2.
Qed.

Lemma truthy_nonempty (v : string) : v <> "" -> truthy (Some v) = true.
Proof.
  intros Hv. destruct (truthy (Some v)) eqn:E; [reflexivity|].
  apply truthy_false_iff in E. contradiction.
Qed.

Lemma select_from_closed {host : StringMethods} (BASE_URL : string)
  (localeCompare : string -> string -> Z) (s : App) (v : string) :
  PanelInv s -> selectedConservancy s = "" -> v <> "" ->
  exists s', step BASE_URL localeCompare s (SelectChange v) = Some s'
    /\ sidePanel s'
       = Some (mkSidePanel (panelMounts s) "fc" None true false)
    /\ chartFetches s'
       = chartFetches s
         ++ [mkChartFetch
               (BASE_URL ++ "figs/" ++ v ++ "/" ++ v ++ "_GroundCover.json")
               (panelMounts s)]
    /\ settled s' = settled s.
Proof.
  intros HP Hsel Hv.
  assert (Hnone : sidePanel s = None) by (apply (inv_panel s HP), Hsel).
  unfold step. eexists. split; [reflexivity|].
  set (h := handleSelectConservancy v s).
  destruct (handleSelectConservancy_frame v s)
    as (F1 & F2 & F3 & F4 & F5 & F6 & F7 & F8 & F9 & F10 & F11 & F12 & F13).
  cbv zeta in *. fold h in F3, F8, F9, F12, F13.
  destruct (rerender_panel_eq BASE_URL localeCompare false s h)
    as (E1 & E2 & _ & E4).
  rewrite E1, E2, E4. unfold renderSidePanel.
  rewrite F3, (truthy_nonempty v Hv), F8, Hnone. cbn [negb].
  set (p0 := mkSidePanel (panelMounts h) _ None false false).
  destruct (fetchEffect_result BASE_URL v p0
              (set_panelMounts (S (panelMounts h)) (set_sidePanel (Some p0) h))
              (mkTab "fc" "Fractional Cover" "_GroundCover") Hv eq_refl)
    as (A1 & A2 & _ & A4).
  rewrite A1, A2, A4. subst p0. app_unfold.
  cbn [mountId activeTabId TAB_CONFIG tab_id].
  rewrite F9, F12, F13. repeat split.
Qed.

(** X11.  Selecting a region while none is selected mounts a new side
    panel: it starts on the first tab whatever tab was active before the
    panel was last closed, shows the loading line, and issues exactly one
    request, for the ground cover chart of the region. *)
Theorem panel_opens_on_first_tab {host : StringMethods} (BASE_URL : string)
  (localeCompare : string -> string -> Z) (s : App) (v : string) :
  reachable BASE_URL localeCompare s ->
  selectedConservancy s = "" -> v <> "" ->
  exists s', step BASE_URL localeCompare s (SelectChange v) = Some s'
    /\ sidePanel s'
       = Some (mkSidePanel (panelMounts s) "fc" None true false)
    /\ chartFetches s'
       = chartFetches s
         ++ [mkChartFetch
               (BASE_URL ++ "figs/" ++ v ++ "/" ++ v ++ "_GroundCover.json")
               (panelMounts s)]
    /\ option_map renderPanel (sidePanel s') = Some [LoadingText "FC"].
Proof.
  intros Hr Hsel Hv.
  destruct (select_from_closed BASE_URL localeCompare s v
              (reachable_panel _ _ _ Hr) Hsel Hv) as (s' & E & Ep & Ef & _).
  exists s'. rewrite Ep. repeat split; assumption.
Qed.

Lemma panel_opens_on_first_tab_witness :
  let s := stateAfter (sampleLoaded ++ [SelectChange "Naapu"; TabClick 2;
                                        CloseClick]) in
  exists s', step sampleBase sampleLocaleCompare s (SelectChange "Il Ngwesi")
             = Some s'
    /\ sidePanel s'
       = Some (mkSidePanel (panelMounts s) "fc" None true false)
    /\ chartFetches s'
       = chartFetches s
         ++ [mkChartFetch
               (sampleBase ++ "figs/" ++ "Il Ngwesi" ++ "/" ++ "Il Ngwesi"
                  ++ "_GroundCover.json")
               (panelMounts s)]
    /\ option_map renderPanel (sidePanel s') = Some [LoadingText "FC"].
Proof.
  apply (panel_opens_on_first_tab sampleBase sampleLocaleCompare
           (stateAfter (sampleLoaded ++ [SelectChange "Naapu"; TabClick 2;
                                         CloseClick])) "Il Ngwesi").
  - apply (sampleRun_reachable
             (sampleLoaded ++ [SelectChange "Naapu"; TabClick 2; CloseClick])).
    vm_compute. reflexivity.
  - vm_compute. reflexivity.
  - discriminate.
Defined.

(** X12.  Selecting another region while the panel is open keeps the panel
    and its active tab, clears figure and error, sets the loading flag and
    issues exactly one request, for the new region and the active tab. *)
Theorem region_change_keeps_tab {host : StringMethods} (BASE_URL : string)
  (localeCompare : string -> string -> Z) (s : App) (p : SidePanel)
  (v : string) :
  reachable BASE_URL localeCompare s ->
  sidePanel s = Some p -> v <> "" -> v <> selectedConservancy s ->
  exists s' t,
    step BASE_URL localeCompare s (SelectChange v) = Some s'
    /\ findTab (activeTabId p) = Some t
    /\ sidePanel s'
       = Some (mkSidePanel (mountId p) (activeTabId p) None true false)
    /\ chartFetches s'
       = chartFetches s
         ++ [mkChartFetch
               (BASE_URL ++ "figs/" ++ v ++ "/" ++ v ++ tab_suffix t ++ ".json")
               (mountId p)].
Proof.
  intros Hr Hp Hv Hch.
  pose proof (reachable_panel _ _ _ Hr) as HP.
  destruct (inv_tab s HP p Hp) as [t Ht].
  unfold step. eexists. exists t. split; [reflexivity|]. split; [exact Ht|].
  set (h := handleSelectConservancy v s).
  destruct (handleSelectConservancy_frame v s)
    as (F1 & F2 & F3 & F4 & F5 & F6 & F7 & F8 & F9 & F10 & F11 & F12 & F13).
  cbv zeta in *. fold h in F3, F8, F9, F12.
  destruct (rerender_panel_eq BASE_URL localeCompare false s h)
    as (E1 & E2 & _).
  rewrite E1, E2. unfold renderSidePanel.
  rewrite F3, (truthy_nonempty v Hv), F8, Hp. cbn [negb].
  destruct (String.eqb_spec (selectedConservancy s) v) as [E|_];
    [congruence|].
  destruct (fetchEffect_result BASE_URL v p h t Hv Ht) as (A1 & A2 & _).
  rewrite A1, A2, F12. split; reflexivity.
Qed.

Lemma region_change_keeps_tab_witness :
  let s := stateAfter (sampleLoaded ++ [SelectChange "Naapu"; TabClick 1]) in
  exists s' t,
    step sampleBase sampleLocaleCompare s (SelectChange "Il Ngwesi") = Some s'
    /\ findTab "ndvi" = Some t
    /\ sidePanel s' = Some (mkSidePanel 0 "ndvi" None true false)
    /\ chartFetches s'
       = chartFetches s
         ++ [mkChartFetch
               (sampleBase ++ "figs/" ++ "Il Ngwesi" ++ "/" ++ "Il Ngwesi"
                  ++ tab_suffix t ++ ".json") 0].
Proof.
  apply (region_change_keeps_tab sampleBase sampleLocaleCompare
           (stateAfter (sampleLoaded ++ [SelectChange "Naapu"; TabClick 1]))
           (mkSidePanel 0 "ndvi" None true false) "Il Ngwesi").
  - apply (sampleRun_reachable
             (sampleLoaded ++ [SelectChange "Naapu"; TabClick 1])).
    vm_compute. reflexivity.
  - vm_compute. reflexivity.
  - discriminate.
  - vm_compute. discriminate.
Defined.

(** X13.  Every chart request ever issued is for a non-empty region name
    and a tab of [TAB_CONFIG]: its URL is
    [BASE_URL ++ figs/<region>/<region><suffix>.json] with one of the three
    suffixes.  No request is made for an empty selection or an unknown
    tab. *)
Theorem chart_requests_well_formed {host : StringMethods} (BASE_URL : string)
  (localeCompare : string -> string -> Z) (s : App) (f : ChartFetch) :
  reachable BASE_URL localeCompare s -> f ∈ chartFetches s ->
  exists n sfx : string,
    n <> "" /\ sfx ∈ ["_GroundCover"; "_NDVI"; "_Rainfall"]
    /\ url f = (BASE_URL ++ "figs/" ++ n ++ "/" ++ n ++ sfx ++ ".json")%string.
Proof.
  intros Hr Hf.
  destruct (q_url _ _ (reachable_request _ _ _ Hr) f Hf) as (n & t & Hn & Ht & E).
  exists n, (tab_suffix t). split; [exact Hn|]. split; [|exact E].
  unfold TAB_CONFIG in Ht.
  repeat (apply elem_of_cons in Ht as [->|Ht]); cbn.
  - apply list_elem_of_here.
  - apply list_elem_of_further, list_elem_of_here.
  - do 2 apply list_elem_of_further. apply list_elem_of_here.
  - inversion Ht.
Qed.

Lemma chart_requests_well_formed_witness :
  exists n sfx : string,
    n <> "" /\ sfx ∈ ["_GroundCover"; "_NDVI"; "_Rainfall"]
    /\ url (mkChartFetch "/figs/Naapu/Naapu_Rainfall.json" 0)
       = (sampleBase ++ "figs/" ++ n ++ "/" ++ n ++ sfx ++ ".json")%string.
Proof.
  apply (chart_requests_well_formed sampleBase sampleLocaleCompare
           (stateAfter (sampleLoaded ++ [SelectChange "Naapu"; TabClick 2]))).
  - apply (sampleRun_reachable
             (sampleLoaded ++ [SelectChange "Naapu"; TabClick 2])).
    vm_compute. reflexivity.
  - vm_compute. apply list_elem_of_further, list_elem_of_here.
Defined.

(** X14.  A response to a request of an earlier panel instance does not
    touch the panel that is mounted now: after the panel was closed and a
    region selected again, the responses to all requests issued before
    leave the new panel as it is, still loading. *)
Theorem stale_instance_response_ignored {host : StringMethods}
  (BASE_URL : string)
  (localeCompare : string -> string -> Z) (s s1 : App) (v : string)
  (k : nat) (r : Response Figure) :
  reachable BASE_URL localeCompare s ->
  selectedConservancy s = "" -> v <> "" ->
  step BASE_URL localeCompare s (SelectChange v) = Some s1 ->
  k < length (chartFetches s) ->
  exists s2, step BASE_URL localeCompare s1 (ChartResponse k r) = Some s2
             /\ sidePanel s2 = sidePanel s1
             /\ option_map loading (sidePanel s2) = Some true
             /\ chartFetches s2 = chartFetches s1.
Proof.
  intros Hr Hsel Hv Hstep Hk.
  destruct (select_from_closed BASE_URL localeCompare s v
              (reachable_panel _ _ _ Hr) Hsel Hv) as (s' & E & Ep & Ef & _).
  rewrite Hstep in E. injection E as <-.
  destruct (nth_error (chartFetches s) k) as [f|] eqn:En;
    [|apply nth_error_None in En; lia].
  assert (Hown : owner f < panelMounts s).
  { apply (q_owner _ _ (reachable_request _ _ _ Hr)).
    apply list_elem_of_In. eapply nth_error_In. exact En. }
  assert (En1 : nth_error (chartFetches s1) k = Some f).
  { rewrite Ef, nth_error_app1 by exact Hk. exact En. }
  cbn [step]. unfold onChartResponse. rewrite En1.
  eexists. split; [reflexivity|].
  destruct (existsb (Nat.eqb k) (settled s1));
    [rewrite Ep; repeat split|].
  cbv zeta. app_unfold. rewrite Ep. cbn [mountId].
  destruct (Nat.eqb_spec (panelMounts s) (owner f)) as [E|_]; [lia|].
  app_unfold. rewrite Ep. repeat split.
Qed.

Lemma stale_instance_response_ignored_witness :
  exists s2,
    step sampleBase sampleLocaleCompare
      (stateAfter (sampleLoaded ++ [SelectChange "Naapu"; CloseClick;
                                    SelectChange "Il Ngwesi"]))
      (ChartResponse 0 (Parsed sampleFigure)) = Some s2
    /\ sidePanel s2
       = sidePanel (stateAfter (sampleLoaded ++ [SelectChange "Naapu";
                                  CloseClick; SelectChange "Il Ngwesi"]))
    /\ option_map loading (sidePanel s2) = Some true
    /\ chartFetches s2
       = chartFetches (stateAfter (sampleLoaded ++ [SelectChange "Naapu";
                                     CloseClick; SelectChange "Il Ngwesi"])).
Proof.
  apply (stale_instance_response_ignored sampleBase sampleLocaleCompare
           (stateAfter (sampleLoaded ++ [SelectChange "Naapu"; CloseClick]))
           _ "Il Ngwesi" 0 (Parsed sampleFigure)).
  - apply (sampleRun_reachable
             (sampleLoaded ++ [SelectChange "Naapu"; CloseClick])).
    vm_compute. reflexivity.
  - vm_compute. reflexivity.
  - discriminate.
  - vm_compute. reflexivity.
  - vm_compute. lia.
Defined.

(** X15.  The loading line is never stuck: a panel that shows it has a
    request of its own in flight, and the response to that request,
    whatever it is, ends the loading state. *)
Theorem loading_has_request_in_flight {host : StringMethods} (BASE_URL : string)
  (localeCompare : string -> string -> Z) (s : App) (p : SidePanel) :
  reachable BASE_URL localeCompare s ->
  sidePanel s = Some p -> loading p = true ->
  exists k f,
    nth_error (chartFetches s) k = Some f /\ ~ In k (settled s)
    /\ forall r, exists s' p',
         step BASE_URL localeCompare s (ChartResponse k r) = Some s'
         /\ sidePanel s' = Some p' /\ loading p' = false
         /\ activeTabId p' = activeTabId p.
Proof.
  intros Hr Hp Hl.
  destruct (q_loading _ _ (reachable_request _ _ _ Hr) p Hp Hl)
    as (k & f & En & Ho & Hk).
  exists k, f. split; [exact En|]. split; [exact Hk|].
  intros r. cbn [step]. unfold onChartResponse. rewrite En.
  destruct (existsb (Nat.eqb k) (settled s)) eqn:Ex.
  { apply existsb_exists in Ex as (x & Hx & Exk).
    apply Nat.eqb_eq in Exk. subst x. contradiction. }
  cbv zeta. app_unfold. rewrite Hp, Ho, Nat.eqb_refl.
  eexists. exists (chartContinuation r p). split; [reflexivity|].
  app_unfold. split; [reflexivity|]. destruct r; split; reflexivity.
Qed.

Lemma loading_has_request_in_flight_witness :
  exists k f,
    nth_error (chartFetches (stateAfter (sampleLoaded ++ [SelectChange "Naapu"])))
      k = Some f
    /\ ~ In k (settled (stateAfter (sampleLoaded ++ [SelectChange "Naapu"])))
    /\ forall r, exists s' p',
         step sampleBase sampleLocaleCompare
           (stateAfter (sampleLoaded ++ [SelectChange "Naapu"]))
           (ChartResponse k r) = Some s'
         /\ sidePanel s' = Some p' /\ loading p' = false
         /\ activeTabId p' = activeTabId (mkSidePanel 0 "fc" None true false).
Proof.
  apply (loading_has_request_in_flight sampleBase sampleLocaleCompare
           (stateAfter (sampleLoaded ++ [SelectChange "Naapu"]))
           (mkSidePanel 0 "fc" None true false)).
  - apply (sampleRun_reachable (sampleLoaded ++ [SelectChange "Naapu"])).
    vm_compute. reflexivity.
  - vm_compute. reflexivity.
  - reflexivity.
Defined.

Lemma tab_click_switches (BASE_URL : string) (s : App) (p : SidePanel)
  (i : nat) (t : Tab) :
  PanelInv s -> sidePanel s = Some p ->
  nth_error TAB_CONFIG i = Some t -> tab_id t <> activeTabId p ->
  sidePanel (onTabClick BASE_URL i s)
  = Some (mkSidePanel (mountId p) (tab_id t) None true false)
  /\ chartFetches (onTabClick BASE_URL i s)
     = chartFetches s
       ++ [mkChartFetch (chartUrl BASE_URL (selectedConservancy s) t)
             (mountId p)]
  /\ settled (onTabClick BASE_URL i s) = settled s.
Proof.
  intros HP Hp Hi Hne.
  assert (Hsel : selectedConservancy s <> "").
  { intros E. apply (inv_panel s HP) in E. congruence. }
  unfold onTabClick. rewrite Hp, Hi.
  destruct (String.eqb_spec (activeTabId p) (tab_id t)) as [E|_];
    [congruence|].
  set (p1 := mkSidePanel _ _ _ _ _).
  assert (Ht : findTab (activeTabId p1) = Some t).
  { subst p1. cbn [activeTabId]. clear - Hi.
    destruct i as [|[|[|i]]]; cbn in Hi; try (injection Hi as <-; reflexivity).
    destruct i; discriminate Hi. }
  destruct (fetchEffect_result BASE_URL _ p1 s t Hsel Ht) as (A1 & A2 & _ & A4).
  rewrite A1, A2, A4. repeat split.
Qed.

(** X16.  Switching to another tab shows the loading line with the tab's
    id in capitals, and the successful response to the request made by the
    switch leaves the panel on that tab showing exactly the plot of the
    data received: no loading line, no error line. *)
Theorem tab_switch_then_success_shows_plot {host : StringMethods}
  (BASE_URL : string)
  (localeCompare : string -> string -> Z) (s : App) (p : SidePanel)
  (i : nat) (t : Tab) (data : Figure) :
  reachable BASE_URL localeCompare s ->
  sidePanel s = Some p ->
  nth_error TAB_CONFIG i = Some t -> tab_id t <> activeTabId p ->
  exists s1 s2 p1 p2,
    step BASE_URL localeCompare s (TabClick i) = Some s1
    /\ sidePanel s1 = Some p1
    /\ renderPanel p1 = [LoadingText (toUpperCase (tab_id t))]
    /\ step BASE_URL localeCompare s1
         (ChartResponse (length (chartFetches s)) (Parsed data)) = Some s2
    /\ sidePanel s2 = Some p2
    /\ activeTabId p2 = tab_id t
    /\ renderPanel p2 = [Plot data].
Proof.
  intros Hr Hp Hi Hne.
  pose proof (reachable_panel _ _ _ Hr) as HP.
  destruct (tab_click_switches BASE_URL s p i t HP Hp Hi Hne) as (E1 & E2 & E3).
  eexists. eexists. eexists. eexists.
  split; [cbn [step]; reflexivity|].
  split; [exact E1|]. split; [reflexivity|].
  cbn [step]. unfold onChartResponse.
  rewrite E2, nth_error_app2, Nat.sub_diag by lia. cbn [nth_error].
  rewrite E3.
  destruct (existsb (Nat.eqb (length (chartFetches s))) (settled s)) eqn:Ex.
  { apply existsb_exists in Ex as (x & Hx & Exk).
    apply Nat.eqb_eq in Exk. subst x.
    apply (inv_settled s HP) in Hx. lia. }
  cbv zeta. app_unfold. rewrite E1. cbn [mountId owner].
  rewrite Nat.eqb_refl. app_unfold.
  split; [reflexivity|]. split; [reflexivity|]. split; reflexivity.
Qed.

Lemma tab_switch_then_success_shows_plot_witness :
  exists s1 s2 p1 p2,
    step sampleBase sampleLocaleCompare
      (stateAfter (sampleLoaded ++ [SelectChange "Naapu"])) (TabClick 2)
    = Some s1
    /\ sidePanel s1 = Some p1
    /\ renderPanel p1 = [LoadingText (toUpperCase "rain")]
    /\ step sampleBase sampleLocaleCompare s1
         (ChartResponse
            (length (chartFetches
                       (stateAfter (sampleLoaded ++ [SelectChange "Naapu"]))))
            (Parsed sampleFigure)) = Some s2
    /\ sidePanel s2 = Some p2
    /\ activeTabId p2 = "rain"
    /\ renderPanel p2 = [Plot sampleFigure].
Proof.
  apply (tab_switch_then_success_shows_plot sampleBase sampleLocaleCompare
           (stateAfter (sampleLoaded ++ [SelectChange "Naapu"]))
           (mkSidePanel 0 "fc" None true false) 2
           (mkTab "rain" "Rainfall" "_Rainfall") sampleFigure).
  - apply (sampleRun_reachable (sampleLoaded ++ [SelectChange "Naapu"])).
    vm_compute. reflexivity.
  - vm_compute. reflexivity.
  - reflexivity.
  - discriminate.
Defined.

(** X17.  Responses are not matched to the tab they were requested for:
    when the tab is switched while a request of the panel is in flight,
    the late successful response to the earlier request ends the loading
    state and its figure is plotted under the tab switched to. *)
Theorem late_response_shown_under_new_tab {host : StringMethods}
  (BASE_URL : string)
  (localeCompare : string -> string -> Z) (s : App) (p : SidePanel)
  (k : nat) (f : ChartFetch) (i : nat) (t : Tab) (data : Figure) :
  reachable BASE_URL localeCompare s ->
  sidePanel s = Some p ->
  nth_error (chartFetches s) k = Some f -> owner f = mountId p ->
  ~ In k (settled s) ->
  nth_error TAB_CONFIG i = Some t -> tab_id t <> activeTabId p ->
  exists s1 s2 p2,
    step BASE_URL localeCompare s (TabClick i) = Some s1
    /\ step BASE_URL localeCompare s1 (ChartResponse k (Parsed data)) = Some s2
    /\ sidePanel s2 = Some p2
    /\ activeTabId p2 = tab_id t
    /\ renderPanel p2 = [Plot data]
    /\ ~ In (length (chartFetches s)) (settled s2).
Proof.
  intros Hr Hp En Ho Hk Hi Hne.
  pose proof (reachable_panel _ _ _ Hr) as HP.
  destruct (tab_click_switches BASE_URL s p i t HP Hp Hi Hne) as (E1 & E2 & E3).
  assert (Hlt : k < length (chartFetches s)).
  { apply nth_error_Some. congruence. }
  set (s1 := onTabClick BASE_URL i s) in *.
  assert (E : onChartResponse k (Parsed data) s1
              = set_sidePanel
                  (Some (mkSidePanel (mountId p) (tab_id t) (Some data) false
                           false))
                  (set_settled (k :: settled s) s1)).
  { unfold onChartResponse.
    rewrite E2, nth_error_app1, En by exact Hlt. rewrite E3.
    destruct (existsb (Nat.eqb k) (settled s)) eqn:Ex.
    { apply existsb_exists in Ex as (x & Hx & Exk).
      apply Nat.eqb_eq in Exk. subst x. contradiction. }
    cbv zeta. app_unfold. rewrite E1. cbn [mountId].
    rewrite Ho, Nat.eqb_refl. reflexivity. }
  exists s1. eexists. eexists.
  split; [reflexivity|]. cbn [step]. rewrite E.
  split; [reflexivity|]. app_unfold.
  split; [reflexivity|]. split; [reflexivity|]. split; [reflexivity|].
  intros [Hin|Hin]; [lia|]. apply (inv_settled s HP) in Hin. lia.
Qed.

Lemma late_response_shown_under_new_tab_witness :
  exists s1 s2 p2,
    step sampleBase sampleLocaleCompare
      (stateAfter (sampleLoaded ++ [SelectChange "Naapu"])) (TabClick 1)
    = Some s1
    /\ step sampleBase sampleLocaleCompare s1
         (ChartResponse 0 (Parsed sampleFigure)) = Some s2
    /\ sidePanel s2 = Some p2
    /\ activeTabId p2 = "ndvi"
    /\ renderPanel p2 = [Plot sampleFigure]
    /\ ~ In (length (chartFetches
                       (stateAfter (sampleLoaded ++ [SelectChange "Naapu"]))))
            (settled s2).
Proof.
  apply (late_response_shown_under_new_tab sampleBase sampleLocaleCompare
           (stateAfter (sampleLoaded ++ [SelectChange "Naapu"]))
           (mkSidePanel 0 "fc" None true false) 0
           (mkChartFetch "/figs/Naapu/Naapu_GroundCover.json" 0) 1
           (mkTab "ndvi" "NDVI" "_NDVI") sampleFigure).
  - apply (sampleRun_reachable (sampleLoaded ++ [SelectChange "Naapu"])).
    vm_compute. reflexivity.
  - vm_compute. reflexivity.
  - vm_compute. reflexivity.
  - reflexivity.
  - vm_compute. intros [].
  - reflexivity.
  - discriminate.
Defined.

(** ** Timers *)

Lemma find_timer (l : list Timer) (x : Timer) :
  NoDup (map timer_id l) -> x ∈ l ->
  find (fun y => Nat.eqb (timer_id y) (timer_id x)) l = Some x.
Proof.
  intros Hnd Hx.
  destruct (find _ l) as [y|] eqn:E.
  - apply find_some in E as [Hy Ey]. apply Nat.eqb_eq in Ey.
    apply list_elem_of_In in Hy.
    rewrite (timer_id_inj l y x Hnd Hy Hx Ey). reflexivity.
  - apply list_elem_of_In in Hx.
    pose proof (find_none _ _ E x Hx) as H. cbn in H.
    rewrite Nat.eqb_refl in H. discriminate.
Qed.

(** X18.  A debounce timer never applies an outdated selection: the name
    a pending debounce timer carries is the current selection, and when it
    fires the layer referred to becomes the one that selection resolves to;
    the selection is unchanged and no debounce timer is left. *)
Theorem debounce_fire_applies_current_selection {host : StringMethods}
  (BASE_URL : string)
  (localeCompare : string -> string -> Z) (s : App) (x : Timer)
  (n : string) :
  reachable BASE_URL localeCompare s ->
  x ∈ timers s -> action x = DebouncedSelect n ->
  n = selectedConservancy s
  /\ exists s',
       step BASE_URL localeCompare s (TimerFire (timer_id x)) = Some s'
       /\ selectedConservancy s' = selectedConservancy s
       /\ selectedLayerRef s'
          = resolveLayer (layerMapRef s) (selectedConservancy s)
       /\ forall y, y ∈ timers s' -> action y = InvalidateSize.
Proof.
  intros Hr Hx Ha.
  pose proof (reachable_timerInv _ _ _ Hr) as HT.
  pose proof (reachable_inv _ _ _ Hr) as HM.
  destruct (inv_debounce _ _ _ HT x n Hx Ha) as (Hd & En & Hready & Hn).
  split; [exact En|].
  assert (Hmap : mapRef s = true) by (rewrite <- (inv_ready s HM); exact Hready).
  cbn [step]. unfold onTimerFire.
  rewrite (find_timer _ x (inv_nodup _ _ _ HT) Hx), Ha. cbv zeta.
  eexists. split; [reflexivity|].
  set (s1 := clearTimeout (timer_id x) s).
  destruct (selectConservancyByName_frame (Some n) false s1)
    as (_ & _ & F3 & _).
  cbv zeta in F3. split; [exact F3|]. split.
  - rewrite selectConservancyByName_ref.
    + subst s1. app_unfold. cbn [orEmpty]. rewrite En. reflexivity.
    + exact Hmap.
    + apply truthy_nonempty, Hn.
  - assert (H1 : forall y, y ∈ timers s1 -> action y = InvalidateSize).
    { intros y Hy. subst s1. app_unfold.
      apply list_elem_of_filter in Hy as [Hne Hy].
      destruct (action y) as [m|] eqn:Ey; [|reflexivity].
      destruct (inv_debounce _ _ _ HT y m Hy Ey) as (Hd' & _).
      rewrite Hd in Hd'. injection Hd' as E. congruence. }
    destruct (selectConservancyByName_timers (Some n) false s1)
      as [_ [[T _]|[T _]]]; cbv zeta in T; rewrite T; [exact H1|].
    intros y Hy. apply elem_of_app in Hy as [Hy|Hy]; [auto|].
    apply list_elem_of_singleton in Hy. subst y. reflexivity.
Qed.

Lemma debounce_fire_applies_current_selection_witness :
  let s := stateAfter (sampleLoaded ++ [SelectChange "Naapu"]) in
  "Naapu" = selectedConservancy s
  /\ exists s',
       step sampleBase sampleLocaleCompare s (TimerFire 1) = Some s'
       /\ selectedConservancy s' = selectedConservancy s
       /\ selectedLayerRef s'
          = resolveLayer (layerMapRef s) (selectedConservancy s)
       /\ forall y, y ∈ timers s' -> action y = InvalidateSize.
Proof.
  apply (debounce_fire_applies_current_selection sampleBase
           sampleLocaleCompare
           (stateAfter (sampleLoaded ++ [SelectChange "Naapu"]))
           (mkTimer 1 300 (DebouncedSelect "Naapu")) "Naapu").
  - apply (sampleRun_reachable (sampleLoaded ++ [SelectChange "Naapu"])).
    vm_compute. reflexivity.
  - vm_compute. apply list_elem_of_further, list_elem_of_here.
  - reflexivity.
Defined.

Lemma debounceEffect_invalidate_origin (s : App) (x : Timer) :
  x ∈ timers (debounceEffect s) -> action x = InvalidateSize -> x ∈ timers s.
Proof.
  unfold debounceEffect.
  set (s0 := match debounceTimeout s with
             | Some t => set_debounceTimeout None (clearTimeout t s)
             | None => s
             end).
  assert (H0 : forall y, y ∈ timers s0 -> y ∈ timers s).
  { subst s0. destruct (debounceTimeout s); [|auto].
    app_unfold. intros y Hy. apply list_elem_of_filter in Hy as [_ Hy]. auto. }
  destruct (_ || _); [auto|].
  app_unfold. intros Hx Ha. apply elem_of_app in Hx as [Hx|Hx]; [auto|].
  apply list_elem_of_singleton in Hx. subst x. discriminate Ha.
Qed.

Lemma selectConservancyByName_schedules_with_map {host : StringMethods}
  (name : option string)
  (u : bool) (s : App) (x : Timer) :
  x ∈ timers (selectConservancyByName name u s) ->
  x ∈ timers s \/ mapRef s = true.
Proof.
  destruct (selectConservancyByName_timers name u s) as [_ [[T _]|[T _]]];
    cbv zeta in T; [rewrite T; auto|].
  intros Hx. destruct (mapRef s) eqn:Emap; [auto|]. left.
  revert Hx. unfold selectConservancyByName.
  assert (E0 : mapRef (if u then setSelectedConservancy (orEmpty name) s
                       else s) = false) by (destruct u; exact Emap).
  rewrite E0. cbn [negb]. destruct u; auto.
Qed.

Section InvalidateTimers.

Context {host : StringMethods}.

Variable BASE_URL : string.
Variable localeCompare : string -> string -> Z.

Lemma rerender_invalidate_origin (d : bool) (old h : App) (x : Timer) :
  x ∈ timers (rerender BASE_URL localeCompare d old h) ->
  action x = InvalidateSize -> x ∈ timers h.
Proof.
  destruct (rerender_timers_before BASE_URL localeCompare d old h)
    as (s2 & E & T & _).
  rewrite E, <- T. destruct (_ || _ || _); [|auto].
  apply debounceEffect_invalidate_origin.
Qed.

Lemma step_invalidate_map (s s' : App) (e : Event) :
  step BASE_URL localeCompare s e = Some s' ->
  (mapRef s = true -> mapRef s' = true)
  /\ forall x, x ∈ timers s' -> action x = InvalidateSize ->
               x ∈ timers s \/ mapRef s' = true.
Proof.
  intros Hstep. destruct e; unfold step in Hstep.
  - injection Hstep as <-.
    destruct (rerender_frame BASE_URL localeCompare false s
                (setMapReady true (set_mapRef true s)))
      as (_ & _ & _ & R4 & _).
    cbv zeta in R4. rewrite R4. split; auto.
  - destruct (boundaryPending s); [|injection Hstep as <-; auto].
    destruct r; try (injection Hstep as <-; split; auto).
    destruct (mountGeoJSON _ _) as [s1|] eqn:E; [|discriminate].
    injection Hstep as <-. unfold mountGeoJSON in E.
    assert (H0 : mapRef s1 = mapRef s /\ timers s1 = timers s).
    { destruct (features body) as [fs|].
      - destruct (mountFeatures_frame _ _ _ E)
          as (F1 & F2 & F3 & F4 & F5 & F6 & F7 & F8 & F9 & F10 & F11 & F12 & F13 & F14).
        split; [exact F5 | exact F11].
      - discriminate E. }
    destruct H0 as [M0 T0].
    destruct (rerender_frame BASE_URL localeCompare true s s1)
      as (_ & _ & _ & R4 & _).
    cbv zeta in R4. rewrite R4, M0. split; [auto|].
    intros x Hx Ha. left. rewrite <- T0.
    exact (rerender_invalidate_origin _ _ _ _ Hx Ha).
  - destruct (clickHandlers s !! l) as [name|]; injection Hstep as <-;
      [|auto].
    destruct (rerender_frame BASE_URL localeCompare false s
                (selectConservancyByName name true s))
      as (_ & _ & _ & R4 & _).
    destruct (selectConservancyByName_frame name true s)
      as (_ & _ & _ & _ & F5 & _).
    cbv zeta in *. rewrite R4, F5. split; [auto|].
    intros x Hx Ha. apply rerender_invalidate_origin in Hx; [|exact Ha].
    exact (selectConservancyByName_schedules_with_map _ _ _ _ Hx).
  - injection Hstep as <-.
    destruct (rerender_frame BASE_URL localeCompare false s
                (handleSelectConservancy value s))
      as (_ & _ & _ & R4 & _).
    destruct (handleSelectConservancy_frame value s)
      as (_ & _ & _ & _ & F5 & _).
    cbv zeta in *. rewrite R4, F5. split; [auto|].
    intros x Hx Ha. apply rerender_invalidate_origin in Hx; [|exact Ha].
    revert Hx. unfold handleSelectConservancy. cbv zeta.
    destruct (_ && _); [|auto].
    intros Hx.
    apply selectConservancyByName_schedules_with_map in Hx. exact Hx.
  - destruct (sidePanel s); injection Hstep as <-; [|auto].
    destruct (rerender_frame BASE_URL localeCompare false s (onClose s))
      as (_ & _ & _ & R4 & _).
    destruct (onClose_frame s)
      as (F1 & F2 & F3 & F4 & F5 & F6 & F7 & F8 & F9 & F10 & F11 & F12 & F13 & F14 & F15).
    cbv zeta in *. rewrite R4, F5. split; [auto|].
    intros x Hx Ha. apply rerender_invalidate_origin in Hx; [|exact Ha].
    rewrite F12 in Hx. auto.
  - injection Hstep as <-.
    destruct (onTabClick_frame BASE_URL i s)
      as (F1 & F2 & F3 & F4 & F5 & F6 & F7 & F8 & F9 & F10 & F11 & F12 & F13 & F14 & F15 & F16).
    cbv zeta in *. rewrite F5, F14. auto.
  - injection Hstep as <-.
    destruct (onChartResponse_frame k r s)
      as (F1 & F2 & F3 & F4 & F5 & F6 & F7 & F8 & F9 & F10 & F11 & F12 & F13 & F14 & F15 & F16).
    cbv zeta in *. rewrite F5, F14. auto.
  - injection Hstep as <-.
    destruct (onTimerFire_frame t s)
      as (F1 & F2 & F3 & F4 & F5 & F6 & F7 & F8 & F9 & F10 & F11 & F12 & F13).
    cbv zeta in *. rewrite F5. split; [auto|].
    intros x. unfold onTimerFire.
    destruct (find _ _) as [y|]; [|auto].
    cbv zeta. destruct (action y).
    + intros Hx _.
      apply selectConservancyByName_schedules_with_map in Hx.
      destruct Hx as [Hx|Hx]; [left|right; exact Hx].
      app_unfold. apply list_elem_of_filter in Hx as [_ Hx]. exact Hx.
    + intros Hx _. left.
      assert (Hx' : x ∈ timers (clearTimeout t s))
        by (destruct (mapRef (clearTimeout t s)); exact Hx).
      app_unfold. apply list_elem_of_filter in Hx' as [_ Hx']. exact Hx'.
Qed.

Lemma reachable_invalidateHasMap (s : App) :
  reachable BASE_URL localeCompare s -> invalidateHasMap s.
Proof.
  induction 1 as [|s e s' _ IH Hstep].
  - intros x Hx. inversion Hx.
  - destruct (step_invalidate_map _ _ _ Hstep) as [Hmono Horigin].
    intros x Hx Ha. destruct (Horigin x Hx Ha) as [H0|H0]; [|exact H0].
    apply Hmono. exact (IH x H0 Ha).
Qed.

End InvalidateTimers.

(** X19.  A pending [invalidateSize] timer always finds the map: when it
    fires, [mapRef.current.invalidateSize()] does not raise on a missing
    map, and it is the one call made; highlight, selection and the other
    timers are as before. *)
Theorem invalidate_fire_calls_invalidateSize {host : StringMethods}
  (BASE_URL : string)
  (localeCompare : string -> string -> Z) (s : App) (x : Timer) :
  reachable BASE_URL localeCompare s ->
  x ∈ timers s -> action x = InvalidateSize ->
  exists s',
    step BASE_URL localeCompare s (TimerFire (timer_id x)) = Some s'
    /\ mapCalls s' = mapCalls s ++ [InvalidateSizeCall]
    /\ timers s' = filter (fun y => timer_id y <> timer_id x) (timers s)
    /\ layerStyle s' = layerStyle s
    /\ selectedLayerRef s' = selectedLayerRef s
    /\ selectedConservancy s' = selectedConservancy s.
Proof.
  intros Hr Hx Ha.
  pose proof (reachable_timerInv _ _ _ Hr) as HT.
  pose proof (reachable_invalidateHasMap _ _ _ Hr x Hx Ha) as Hmap.
  cbn [step]. unfold onTimerFire.
  rewrite (find_timer _ x (inv_nodup _ _ _ HT) Hx), Ha. cbv zeta.
  app_unfold. rewrite Hmap. eexists. split; [reflexivity|].
  app_unfold. repeat split.
Qed.

Lemma invalidate_fire_calls_invalidateSize_witness :
  let s := stateAfter (sampleLoaded ++ [SelectChange "Naapu"]) in
  exists s',
    step sampleBase sampleLocaleCompare s (TimerFire 0) = Some s'
    /\ mapCalls s' = mapCalls s ++ [InvalidateSizeCall]
    /\ timers s' = filter (fun y => timer_id y <> 0) (timers s)
    /\ layerStyle s' = layerStyle s
    /\ selectedLayerRef s' = selectedLayerRef s
    /\ selectedConservancy s' = selectedConservancy s.
Proof.
  apply (invalidate_fire_calls_invalidateSize sampleBase sampleLocaleCompare
           (stateAfter (sampleLoaded ++ [SelectChange "Naapu"]))
           (mkTimer 0 300 InvalidateSize)).
  - apply (sampleRun_reachable (sampleLoaded ++ [SelectChange "Naapu"])).
    vm_compute. reflexivity.
  - vm_compute. apply list_elem_of_here.
  - reflexivity.
Defined.

(** ** The tab bar and the content area *)

(** X20.  The active tab of a mounted panel is always a configured tab:
    exactly one button of the tab bar is active, the one of that tab, and
    the error line names its label. *)
Theorem one_tab_button_active {host : StringMethods} (BASE_URL : string)
  (localeCompare : string -> string -> Z) (s : App) (p : SidePanel) :
  reachable BASE_URL localeCompare s -> sidePanel s = Some p ->
  exists t,
    t ∈ TAB_CONFIG /\ tab_id t = activeTabId p
    /\ List.filter btn_active (tabButtons p)
       = [mkTabButton (tab_id t) true (tab_label t)]
    /\ (error p = true ->
        DataNotFound (Some (tab_label t)) ∈ renderPanel p).
Proof.
  intros Hr Hp.
  destruct (inv_tab s (reachable_panel _ _ _ Hr) p Hp) as [t Ht].
  exists t. split; [exact (findTab_in _ _ Ht)|].
  assert (Hid : tab_id t = activeTabId p).
  { unfold findTab in Ht. apply find_some in Ht as [_ Ht].
    apply String.eqb_eq in Ht. exact Ht. }
  split; [exact Hid|]. split.
  - unfold findTab, TAB_CONFIG in Ht. unfold tabButtons, TAB_CONFIG.
    cbn [find tab_id] in Ht. cbn [map tab_id tab_label List.filter btn_active].
    destruct (String.eqb_spec "fc" (activeTabId p)) as [E1|N1].
    { injection Ht as <-. rewrite <- E1. reflexivity. }
    destruct (String.eqb_spec "ndvi" (activeTabId p)) as [E2|N2].
    { injection Ht as <-. rewrite <- E2. reflexivity. }
    destruct (String.eqb_spec "rain" (activeTabId p)) as [E3|N3].
    { injection Ht as <-. rewrite <- E3. reflexivity. }
    discriminate Ht.
  - intros He. unfold renderPanel. rewrite He, Ht. cbn [option_map].
    apply elem_of_app. right. apply elem_of_app. left.
    apply list_elem_of_here.
Qed.

Lemma one_tab_button_active_witness :
  exists t,
    t ∈ TAB_CONFIG /\ tab_id t = "rain"
    /\ List.filter btn_active
         (tabButtons (mkSidePanel 0 "rain" None true false))
       = [mkTabButton (tab_id t) true (tab_label t)]
    /\ (false = true ->
        DataNotFound (Some (tab_label t))
          ∈ renderPanel (mkSidePanel 0 "rain" None true false)).
Proof.
  apply (one_tab_button_active sampleBase sampleLocaleCompare
           (stateAfter (sampleLoaded ++ [SelectChange "Naapu"; TabClick 2]))
           (mkSidePanel 0 "rain" None true false)).
  - apply (sampleRun_reachable
             (sampleLoaded ++ [SelectChange "Naapu"; TabClick 2])).
    vm_compute. reflexivity.
  - vm_compute. reflexivity.
Defined.

Lemma fetchEffect_loadingAlone (B : string) (n : string) (p : SidePanel)
  (s : App) :
  loadingAlone s -> loadingAlone (fetchEffect B n p s).
Proof.
  intros H. unfold fetchEffect.
  destruct (negb _); [exact H|]. cbv zeta.
  destruct (findTab _); intros q Hq _; app_unfold;
    injection Hq as <-; split; reflexivity.
Qed.

Lemma loadingAlone_ext (s s' : App) :
  sidePanel s' = sidePanel s -> loadingAlone s -> loadingAlone s'.
Proof. intros E H p. rewrite E. apply H. Qed.

Section LoadingPreservation.

Context {host : StringMethods}.

Variable BASE_URL : string.
Variable localeCompare : string -> string -> Z.

Lemma renderSidePanel_loadingAlone (old s : App) :
  loadingAlone s -> loadingAlone (renderSidePanel BASE_URL old s).
Proof.
  intros H. unfold renderSidePanel.
  destruct (negb _); [intros q Hq; discriminate Hq|].
  destruct (sidePanel s) as [p|] eqn:Ep.
  - destruct (String.eqb _ _); [exact H|].
    apply fetchEffect_loadingAlone, H.
  - cbv zeta. apply fetchEffect_loadingAlone.
    intros q Hq Hl. app_unfold. injection Hq as <-. discriminate Hl.
Qed.

Lemma rerender_loadingAlone (d : bool) (old h : App) :
  loadingAlone h -> loadingAlone (rerender BASE_URL localeCompare d old h).
Proof.
  intros H.
  destruct (rerender_panel_eq BASE_URL localeCompare d old h) as (E & _).
  apply (loadingAlone_ext (renderSidePanel BASE_URL old h)); [exact E|].
  apply renderSidePanel_loadingAlone, H.
Qed.

Lemma step_loadingAlone (s s' : App) (e : Event) :
  step BASE_URL localeCompare s e = Some s' ->
  loadingAlone s -> loadingAlone s'.
Proof.
  intros Hstep H. destruct e; unfold step in Hstep.
  - injection Hstep as <-. apply rerender_loadingAlone.
    apply (loadingAlone_ext s); [reflexivity|exact H].
  - destruct (boundaryPending s); [|injection Hstep as <-; exact H].
    destruct r; try (injection Hstep as <-;
                     apply (loadingAlone_ext s); [reflexivity|exact H]).
    destruct (mountGeoJSON _ _) as [s1|] eqn:E; [|discriminate].
    injection Hstep as <-. unfold mountGeoJSON in E.
    apply rerender_loadingAlone.
    destruct (features body) as [fs|].
    + destruct (mountFeatures_frame _ _ _ E)
        as (F1 & F2 & F3 & F4 & F5 & F6 & F7 & F8 & F9 & F10 & F11 & F12 & F13 & F14).
      apply (loadingAlone_ext s); [exact F8|exact H].
    + discriminate E.
  - destruct (clickHandlers s !! l) as [name|]; injection Hstep as <-;
      [|exact H].
    apply rerender_loadingAlone.
    destruct (selectConservancyByName_frame name true s)
      as (F1 & F2 & F3 & F4 & F5 & F6 & F7 & F8 & F9 & F10 & F11 & F12 & F13).
    apply (loadingAlone_ext s); [exact F8|exact H].
  - injection Hstep as <-. apply rerender_loadingAlone.
    destruct (handleSelectConservancy_frame value s)
      as (F1 & F2 & F3 & F4 & F5 & F6 & F7 & F8 & F9 & F10 & F11 & F12 & F13).
    apply (loadingAlone_ext s); [exact F8|exact H].
  - destruct (sidePanel s) eqn:Ep; injection Hstep as <-; [|exact H].
    apply rerender_loadingAlone.
    destruct (onClose_frame s)
      as (F1 & F2 & F3 & F4 & F5 & F6 & F7 & F8 & F9 & F10 & F11 & F12 & F13 & F14 & F15).
    apply (loadingAlone_ext s); [exact F8|exact H].
  - injection Hstep as <-. unfold onTabClick.
    destruct (sidePanel s); [|exact H].
    destruct (nth_error _ _); [|exact H].
    destruct (String.eqb _ _); [exact H|].
    apply fetchEffect_loadingAlone, H.
  - injection Hstep as <-. unfold onChartResponse.
    destruct (nth_error _ _) as [f|]; [|exact H].
    destruct (existsb _ _); [exact H|]. cbv zeta. app_unfold.
    destruct (sidePanel s) as [p|] eqn:Ep.
    + destruct (Nat.eqb _ _).
      * intros q Hq Hl. app_unfold. injection Hq as <-.
        destruct r; discriminate Hl.
      * apply (loadingAlone_ext s); [reflexivity|exact H].
    + apply (loadingAlone_ext s); [reflexivity|exact H].
  - injection Hstep as <-.
    destruct (onTimerFire_frame t s)
      as (F1 & F2 & F3 & F4 & F5 & F6 & F7 & F8 & F9 & F10 & F11 & F12 & F13).
    apply (loadingAlone_ext s); [exact F8|exact H].
Qed.

Lemma reachable_loadingAlone (s : App) :
  reachable BASE_URL localeCompare s -> loadingAlone s.
Proof.
  induction 1 as [|s e s' _ IH Hstep].
  - intros p Hp. discriminate Hp.
  - exact (step_loadingAlone _ _ _ Hstep IH).
Qed.

End LoadingPreservation.

(** X21.  While a panel loads, the loading line is all its content area
    shows: neither the plot of an earlier figure nor the error line
    appears beside it. *)
Theorem loading_shows_only_loading_line {host : StringMethods}
  (BASE_URL : string)
  (localeCompare : string -> string -> Z) (s : App) (p : SidePanel) :
  reachable BASE_URL localeCompare s ->
  sidePanel s = Some p -> loading p = true ->
  renderPanel p = [LoadingText (toUpperCase (activeTabId p))].
Proof.
  intros Hr Hp Hl.
  destruct (reachable_loadingAlone _ _ _ Hr p Hp Hl) as [Ef Ee].
  unfold renderPanel. rewrite Hl, Ef, Ee. reflexivity.
Qed.

Lemma loading_shows_only_loading_line_witness :
  renderPanel (mkSidePanel 0 "ndvi" None true false)
  = [LoadingText (toUpperCase "ndvi")].
Proof.
  apply (loading_shows_only_loading_line sampleBase sampleLocaleCompare
           (stateAfter (sampleLoaded
                          ++ [SelectChange "Naapu";
                              ChartResponse 0 (Parsed sampleFigure);
                              TabClick 1]))
           (mkSidePanel 0 "ndvi" None true false)).
  - apply (sampleRun_reachable
             (sampleLoaded ++ [SelectChange "Naapu";
                               ChartResponse 0 (Parsed sampleFigure);
                               TabClick 1])).
    vm_compute. reflexivity.
  - vm_compute. reflexivity.
  - reflexivity.
Defined.

(** ** Selection and map in step *)

Lemma shownOrPending_ext {host : StringMethods} (s s' : App) :
  selectedConservancy s' = selectedConservancy s -> mapRef s' = mapRef s ->
  selectedLayerRef s' = selectedLayerRef s ->
  layerMapRef s' = layerMapRef s -> timers s' = timers s ->
  shownOrPending s -> shownOrPending s'.
Proof.
  intros E1 E2 E3 E4 E5 H. unfold shownOrPending.
  rewrite E1, E2, E3, E4, E5. exact H.
Qed.

Lemma debounceEffect_pending (s : App) :
  mapReady s = true -> selectedConservancy s <> "" ->
  exists x, x ∈ timers (debounceEffect s)
            /\ action x = DebouncedSelect (selectedConservancy s).
Proof.
  intros Hready Hsel. unfold debounceEffect.
  set (s0 := match debounceTimeout s with
             | Some t => set_debounceTimeout None (clearTimeout t s)
             | None => s
             end).
  assert (E0 : mapReady s0 = mapReady s
               /\ selectedConservancy s0 = selectedConservancy s).
  { subst s0. destruct (debounceTimeout s); split; reflexivity. }
  destruct E0 as [E1 E2].
  rewrite E1, E2, Hready, (truthy_nonempty _ Hsel). cbn [negb orb].
  exists (mkTimer (nextTimer s0) 300 (DebouncedSelect (selectedConservancy s))).
  split; [|reflexivity]. app_unfold.
  apply elem_of_app. right. apply list_elem_of_here.
Qed.

Lemma orEmpty_truthy (name : option string) :
  orEmpty name <> "" -> truthy name = true.
Proof.
  destruct name as [n|]; cbn; [|congruence].
  intros Hn. destruct (String.eqb_spec n ""); [contradiction|reflexivity].
Qed.

Section ShownOrPending.

Context {host : StringMethods}.

Variable BASE_URL : string.
Variable localeCompare : string -> string -> Z.

Lemma rerender_sop_changed (d : bool) (old h : App) :
  d || negb (String.eqb (selectedConservancy old) (selectedConservancy h))
    || negb (Bool.eqb (mapReady old) (mapReady h)) = true ->
  (mapRef h = true -> mapReady h = true) ->
  shownOrPending (rerender BASE_URL localeCompare d old h).
Proof.
  intros Hc Hready.
  destruct (rerender_frame BASE_URL localeCompare d old h)
    as (_ & R2 & _ & R4 & _).
  destruct (rerender_timers_before BASE_URL localeCompare d old h)
    as (s2 & E & _ & _ & _ & S2 & M2).
  cbv zeta in *. intros Hsel Hmap. right.
  rewrite R2 in *. rewrite R4 in Hmap.
  rewrite E, Hc, <- S2. apply debounceEffect_pending.
  - rewrite M2. auto.
  - rewrite S2. exact Hsel.
Qed.

Lemma rerender_sop_shown (d : bool) (old h : App) :
  (selectedConservancy h <> "" -> mapRef h = true ->
   selectedLayerRef h = resolveLayer (layerMapRef h) (selectedConservancy h)) ->
  shownOrPending (rerender BASE_URL localeCompare d old h).
Proof.
  intros H.
  destruct (rerender_frame BASE_URL localeCompare d old h)
    as (_ & R2 & _ & R4 & R5 & R6 & _).
  cbv zeta in *. intros Hsel Hmap. left.
  rewrite R2, R5, R6 in *. rewrite R4 in Hmap. auto.
Qed.

Lemma rerender_sop_same (d : bool) (old h : App) :
  d || negb (String.eqb (selectedConservancy old) (selectedConservancy h))
    || negb (Bool.eqb (mapReady old) (mapReady h)) = false ->
  shownOrPending h ->
  shownOrPending (rerender BASE_URL localeCompare d old h).
Proof.
  intros Hc H.
  destruct (rerender_frame BASE_URL localeCompare d old h)
    as (_ & R2 & _ & R4 & R5 & R6 & _).
  destruct (rerender_timers_before BASE_URL localeCompare d old h)
    as (s2 & E & T2 & _).
  cbv zeta in *. apply (shownOrPending_ext h); try assumption.
  rewrite E, Hc. exact T2.
Qed.

Lemma step_shownOrPending (s s' : App) (e : Event) :
  step BASE_URL localeCompare s e = Some s' ->
  MapInv s -> TimerInv s -> shownOrPending s -> shownOrPending s'.
Proof.
  intros Hstep HM HT H. destruct e; unfold step in Hstep.
  - injection Hstep as <-. destruct (mapReady s) eqn:Eready.
    + apply rerender_sop_same.
      * app_unfold. rewrite Eready, String.eqb_refl. reflexivity.
      * apply (shownOrPending_ext s); try reflexivity; [|exact H].
        app_unfold. rewrite <- (inv_ready s HM), Eready. reflexivity.
    + apply rerender_sop_changed; [|reflexivity].
      app_unfold. rewrite Eready, String.eqb_refl. reflexivity.
  - destruct (boundaryPending s); [|injection Hstep as <-; exact H].
    destruct r; try (injection Hstep as <-;
                     apply (shownOrPending_ext s); try reflexivity; exact H).
    destruct (mountGeoJSON _ _) as [s1|] eqn:E; [|discriminate].
    injection Hstep as <-. unfold mountGeoJSON in E.
    apply rerender_sop_changed; [reflexivity|].
    assert (E0 : mapRef s1 = mapRef s /\ mapReady s1 = mapReady s).
    { destruct (features body) as [fs|].
      - destruct (mountFeatures_frame _ _ _ E)
          as (F1 & F2 & F3 & F4 & F5 & F6 & F7 & F8 & F9 & F10 & F11 & F12 & F13 & F14).
        split; [exact F5|exact F4].
      - discriminate E. }
    destruct E0 as [-> ->]. rewrite (inv_ready s HM). auto.
  - destruct (clickHandlers s !! l) as [name|]; injection Hstep as <-;
      [|exact H].
    apply rerender_sop_shown.
    destruct (selectConservancyByName_frame name true s)
      as (_ & _ & F3 & _ & F5 & F6 & _).
    cbv zeta in *. rewrite F3, F5, F6. intros Hsel Hmap.
    apply selectConservancyByName_ref; [exact Hmap|].
    apply orEmpty_truthy, Hsel.
  - injection Hstep as <-. apply rerender_sop_shown.
    destruct (handleSelectConservancy_frame value s)
      as (_ & _ & F3 & _ & F5 & F6 & _).
    cbv zeta in *. rewrite F3, F5, F6. intros Hsel Hmap.
    unfold handleSelectConservancy. cbv zeta.
    rewrite (inv_ready s HM), Hmap. cbn [andb].
    rewrite selectConservancyByName_ref.
    + reflexivity.
    + exact Hmap.
    + apply truthy_nonempty, Hsel.
  - destruct (sidePanel s); injection Hstep as <-; [|exact H].
    apply rerender_sop_shown.
    destruct (onClose_frame s) as (_ & _ & F3 & _).
    cbv zeta in F3. rewrite F3. intros Hsel. contradiction.
  - injection Hstep as <-.
    destruct (onTabClick_frame BASE_URL i s)
      as (F1 & F2 & F3 & F4 & F5 & F6 & F7 & F8 & F9 & F10 & F11 & F12 & F13 & F14 & F15 & F16).
    apply (shownOrPending_ext s); assumption.
  - injection Hstep as <-.
    destruct (onChartResponse_frame k r s)
      as (F1 & F2 & F3 & F4 & F5 & F6 & F7 & F8 & F9 & F10 & F11 & F12 & F13 & F14 & F15 & F16).
    apply (shownOrPending_ext s); assumption.
  - injection Hstep as <-. unfold onTimerFire.
    destruct (find _ _) as [y|] eqn:Ef; [|exact H].
    apply find_some in Ef as [Hy Ey]. apply Nat.eqb_eq in Ey.
    apply list_elem_of_In in Hy. cbv zeta.
    destruct (action y) as [n|] eqn:Ea.
    + destruct (inv_debounce _ _ _ HT y n Hy Ea) as (_ & En & _ & Hn).
      destruct (selectConservancyByName_frame (Some n) false
                  (clearTimeout t s))
        as (_ & _ & F3 & _ & F5 & F6 & _).
      cbv zeta in *. intros Hsel Hmap. left.
      rewrite F3, F6. rewrite F5 in Hmap.
      rewrite selectConservancyByName_ref.
      * app_unfold. cbn [orEmpty]. rewrite En. reflexivity.
      * exact Hmap.
      * apply truthy_nonempty, Hn.
    + assert (E0 : forall s2, s2 = (if mapRef (clearTimeout t s)
                                    then mapCall InvalidateSizeCall
                                           (clearTimeout t s)
                                    else clearTimeout t s) ->
                   selectedConservancy s2 = selectedConservancy s
                   /\ mapRef s2 = mapRef s
                   /\ selectedLayerRef s2 = selectedLayerRef s
                   /\ layerMapRef s2 = layerMapRef s
                   /\ timers s2
                      = filter (fun x => timer_id x <> t) (timers s)).
      { intros s2 ->. destruct (mapRef (clearTimeout t s));
          repeat split. }
      destruct (E0 _ eq_refl) as (G1 & G2 & G3 & G4 & G5).
      unfold shownOrPending. rewrite G1, G2, G3, G4, G5.
      intros Hsel Hmap. destruct (H Hsel Hmap) as [L|(x & Hx & Hax)];
        [left; exact L|right].
      exists x. split; [|exact Hax].
      apply list_elem_of_filter. split; [|exact Hx].
      intros Eid.
      assert (Exy : x = y).
      { apply (timer_id_inj (timers s)); try assumption.
        - exact (inv_nodup _ _ _ HT).
        - congruence. }
      subst x. congruence.
Qed.

Lemma reachable_shownOrPending (s : App) :
  reachable BASE_URL localeCompare s -> shownOrPending s.
Proof.
  induction 1 as [|s e s' Hr IH Hstep].
  - intros Hsel. contradiction Hsel. reflexivity.
  - apply (step_shownOrPending _ _ _ Hstep); [| |exact IH].
    + exact (reachable_inv _ _ _ Hr).
    + exact (reachable_timerInv _ _ _ Hr).
Qed.

End ShownOrPending.

(** X22.  Selection and map stay in step: whenever a region is selected
    and the map exists, either the layer referred to as selected is the
    one the selected name resolves to, or a debounce timer for that name
    is pending, whose firing makes it so. *)
Theorem selection_shown_or_pending {host : StringMethods} (BASE_URL : string)
  (localeCompare : string -> string -> Z) (s : App) :
  reachable BASE_URL localeCompare s ->
  selectedConservancy s <> "" -> mapRef s = true ->
  selectedLayerRef s = resolveLayer (layerMapRef s) (selectedConservancy s)
  \/ exists x s',
       x ∈ timers s /\ action x = DebouncedSelect (selectedConservancy s)
       /\ step BASE_URL localeCompare s (TimerFire (timer_id x)) = Some s'
       /\ selectedConservancy s' = selectedConservancy s
       /\ selectedLayerRef s'
          = resolveLayer (layerMapRef s') (selectedConservancy s').
Proof.
  intros Hr Hsel Hmap.
  destruct (reachable_shownOrPending _ _ _ Hr Hsel Hmap)
    as [L|(x & Hx & Ha)]; [left; exact L|right].
  pose proof (reachable_timerInv _ _ _ Hr) as HT.
  exists x. cbn [step]. eexists. split; [exact Hx|]. split; [exact Ha|].
  split; [reflexivity|].
  unfold onTimerFire.
  rewrite (find_timer _ x (inv_nodup _ _ _ HT) Hx), Ha. cbv zeta.
  destruct (selectConservancyByName_frame (Some (selectedConservancy s)) false
              (clearTimeout (timer_id x) s))
    as (_ & _ & F3 & _ & _ & F6 & _).
  cbv zeta in *. rewrite F3, F6. split; [reflexivity|].
  rewrite selectConservancyByName_ref.
  - reflexivity.
  - exact Hmap.
  - apply truthy_nonempty, Hsel.
Qed.

Lemma selection_shown_or_pending_witness :
  let s := stateAfter [BoundaryResponse (Parsed sampleData);
                       SelectChange "Naapu"; MapCreated] in
  selectedLayerRef s = resolveLayer (layerMapRef s) (selectedConservancy s)
  \/ exists x s',
       x ∈ timers s /\ action x = DebouncedSelect (selectedConservancy s)
       /\ step sampleBase sampleLocaleCompare s (TimerFire (timer_id x))
          = Some s'
       /\ selectedConservancy s' = selectedConservancy s
       /\ selectedLayerRef s'
          = resolveLayer (layerMapRef s') (selectedConservancy s').
Proof.
  apply (selection_shown_or_pending sampleBase sampleLocaleCompare
           (stateAfter [BoundaryResponse (Parsed sampleData);
                        SelectChange "Naapu"; MapCreated])).
  - apply (sampleRun_reachable [BoundaryResponse (Parsed sampleData);
                                SelectChange "Naapu"; MapCreated]).
    vm_compute. reflexivity.
  - vm_compute. discriminate.
  - vm_compute. reflexivity.
Defined.

(** ** The dropdown as the page offers it *)

Lemma option_values (s : App) (v : string) :
  v ∈ map opt_value (selectOptions s) <-> v = "" \/ v ∈ conservancyList s.
Proof.
  unfold selectOptions. cbn [map opt_value].
  rewrite elem_of_cons, map_map. cbn [opt_value]. rewrite map_id.
  reflexivity.
Qed.

Lemma handler_name_listed {host : StringMethods}
  (lc : string -> string -> Z) (s : App) (l : Layer)
  (n : string) :
  DataInv lc s -> clickHandlers s !! l = Some (Some n) -> n <> "" ->
  n ∈ conservancyList s.
Proof.
  intros [H1 _ H3 _ _] Hh Hn.
  rewrite H1. apply deriveNames_elem_data. split; [exact Hn|].
  destruct (H3 l (Some n) Hh) as (f & Hf & _ & Ef). eauto.
Qed.

Lemma listed_name_resolves {host : StringMethods}
  (lc : string -> string -> Z) (s : App)
  (n : string) :
  DataInv lc s -> n ∈ conservancyList s ->
  is_Some (resolveLayer (layerMapRef s) n).
Proof.
  intros [H1 H2 _ _ _] Hn.
  rewrite H1 in Hn. apply deriveNames_elem_data in Hn as (Hne & f & Hf & Ef).
  assert (Hdom : is_Some (layerMapRef s !! n)).
  { rewrite H2. apply (registerAll_domain _ ∅ f); [exact Hf|].
    exists n. auto. }
  destruct Hdom as [l Hl]. exists l.
  unfold resolveLayer. rewrite Hl. reflexivity.
Qed.

Section Offered.

Context {host : StringMethods}.

Variable BASE_URL : string.
Variable localeCompare : string -> string -> Z.

Lemma uiReachable_reachable (s : App) :
  uiReachable BASE_URL localeCompare s -> reachable BASE_URL localeCompare s.
Proof.
  induction 1 as [|s e s' _ IH _ Hstep]; [constructor|].
  econstructor; eassumption.
Qed.

Lemma step_select_value (s s' : App) (e : Event) :
  DataInv localeCompare s -> offered s e ->
  step BASE_URL localeCompare s e = Some s' ->
  (selectedConservancy s = "" \/ selectedConservancy s ∈ conservancyList s) ->
  selectedConservancy s' = "" \/ selectedConservancy s' ∈ conservancyList s'.
Proof.
  intros HD Hoff Hstep H. destruct e; unfold step in Hstep.
  - injection Hstep as <-. rewrite rerender_list.
    destruct (rerender_frame BASE_URL localeCompare false s
                (setMapReady true (set_mapRef true s))) as (_ & R2 & _).
    cbv zeta in R2. rewrite R2. exact H.
  - destruct (boundaryPending s) eqn:Ep; [|injection Hstep as <-; exact H].
    destruct r; try (injection Hstep as <-; exact H).
    destruct (mountGeoJSON _ _) as [s1|] eqn:E; [|discriminate].
    injection Hstep as <-. unfold mountGeoJSON in E. left.
    assert (Hsel : selectedConservancy s = "").
    { destruct H as [H|H]; [exact H|].
      rewrite (d_list _ _ HD), (d_pending _ _ HD Ep) in H. inversion H. }
    destruct (rerender_frame BASE_URL localeCompare true s s1) as (_ & R2 & _).
    cbv zeta in R2. rewrite R2, <- Hsel.
    destruct (features body) as [fs|].
    + destruct (mountFeatures_frame _ _ _ E) as (_ & _ & F3 & _).
      exact F3.
    + discriminate E.
  - destruct (clickHandlers s !! l) as [name|] eqn:Eh;
      injection Hstep as <-; [|exact H].
    rewrite rerender_list.
    destruct (rerender_frame BASE_URL localeCompare false s
                (selectConservancyByName name true s)) as (_ & R2 & _).
    destruct (selectConservancyByName_frame name true s)
      as (_ & F2 & F3 & _).
    cbv zeta in *. rewrite R2, F2, F3.
    destruct name as [n|]; [|left; reflexivity]. cbn [orEmpty].
    destruct (String.eqb_spec n "") as [En|Hn]; [left; exact En|right].
    exact (handler_name_listed _ _ _ _ HD Eh Hn).
  - injection Hstep as <-. rewrite rerender_list.
    destruct (rerender_frame BASE_URL localeCompare false s
                (handleSelectConservancy value s)) as (_ & R2 & _).
    destruct (handleSelectConservancy_frame value s)
      as (_ & F2 & F3 & _).
    cbv zeta in *. rewrite R2, F2, F3.
    apply option_values. exact Hoff.
  - destruct (sidePanel s); injection Hstep as <-; [|exact H].
    destruct (rerender_frame BASE_URL localeCompare false s (onClose s))
      as (_ & R2 & _).
    destruct (onClose_frame s) as (_ & _ & F3 & _).
    cbv zeta in *. left. rewrite R2. exact F3.
  - injection Hstep as <-.
    destruct (onTabClick_frame BASE_URL i s) as (_ & F2 & F3 & _).
    cbv zeta in *. rewrite F2, F3. exact H.
  - injection Hstep as <-.
    destruct (onChartResponse_frame k r s) as (_ & F2 & F3 & _).
    cbv zeta in *. rewrite F2, F3. exact H.
  - injection Hstep as <-.
    destruct (onTimerFire_frame t s) as (_ & F2 & F3 & _).
    cbv zeta in *. rewrite F2, F3. exact H.
Qed.

Lemma uiReachable_select_value (s : App) :
  uiReachable BASE_URL localeCompare s ->
  selectedConservancy s = "" \/ selectedConservancy s ∈ conservancyList s.
Proof.
  induction 1 as [|s e s' Hr IH Hoff Hstep]; [left; reflexivity|].
  apply (step_select_value s s' e); try assumption.
  apply (reachable_data BASE_URL), uiReachable_reachable, Hr.
Qed.

End Offered.

Lemma sample_uiReachable :
  uiReachable sampleBase sampleLocaleCompare
    (stateAfter (sampleLoaded ++ [SelectChange "Naapu"])).
Proof.
  apply (ui_step _ _ (stateAfter sampleLoaded) (SelectChange "Naapu")).
  - apply (ui_step _ _ (stateAfter [MapCreated])
             (BoundaryResponse (Parsed sampleData))).
    + apply (ui_step _ _ initialApp MapCreated);
        [apply ui_init | exact I | vm_compute; reflexivity].
    + exact I.
    + vm_compute. reflexivity.
  - apply option_values. right. vm_compute.
    repeat first [apply list_elem_of_here | apply list_elem_of_further].
  - vm_compute. reflexivity.
Qed.

(** X23.  As long as the change events of the dropdown carry the value of
    one of its options, the value shown by the dropdown is one of its
    options, whatever is clicked on the map, and a selected name always
    resolves to a layer. *)
Theorem select_value_is_option {host : StringMethods} (BASE_URL : string)
  (localeCompare : string -> string -> Z) (s : App) :
  uiReachable BASE_URL localeCompare s ->
  selectedConservancy s ∈ map opt_value (selectOptions s)
  /\ (selectedConservancy s <> "" ->
      is_Some (resolveLayer (layerMapRef s) (selectedConservancy s))).
Proof.
  intros Hr.
  pose proof (uiReachable_select_value _ _ _ Hr) as H.
  split; [apply option_values, H|].
  intros Hsel. destruct H as [H|H]; [contradiction|].
  apply (listed_name_resolves localeCompare); [|exact H].
  apply (reachable_data BASE_URL), uiReachable_reachable, Hr.
Qed.

Lemma select_value_is_option_witness :
  let s := stateAfter (sampleLoaded ++ [SelectChange "Naapu"]) in
  selectedConservancy s ∈ map opt_value (selectOptions s)
  /\ (selectedConservancy s <> "" ->
      is_Some (resolveLayer (layerMapRef s) (selectedConservancy s))).
Proof.
  apply (select_value_is_option sampleBase sampleLocaleCompare
           (stateAfter (sampleLoaded ++ [SelectChange "Naapu"]))).
  exact sample_uiReachable.
Defined.

(** ** The calls of one selection *)

Lemma revertSelected_calls (s : App) :
  mapCalls (revertSelected s)
  = mapCalls s ++ revertCalls (selectedLayerRef s)
  /\ timers (revertSelected s) = timers s
  /\ nextTimer (revertSelected s) = nextTimer s.
Proof.
  unfold revertSelected, revertCalls.
  destruct (selectedLayerRef s) as [old|];
    [|rewrite app_nil_r; repeat split].
  destruct (has_setStyle old), (has_bringToBack old); app_unfold;
    rewrite <- ?app_assoc, ?app_nil_r; repeat split.
Qed.

Lemma highlightLayer_calls (l : Layer) (s : App) :
  mapCalls (highlightLayer l s) = mapCalls s ++ highlightCalls l
  /\ (has_getBounds l = true ->
      timers (highlightLayer l s)
      = timers s ++ [mkTimer (nextTimer s) 300 InvalidateSize]).
Proof.
  unfold highlightLayer, highlightCalls.
  destruct (has_setStyle l), (has_bringToFront l), (has_getBounds l);
    app_unfold; rewrite <- ?app_assoc, ?app_nil_r;
    (split; [reflexivity|]); intros H; try discriminate H; reflexivity.
Qed.

(** X24.  What the dropdown handler itself does on the map, in order, with
    the map present and a name that resolves: the layer selected before is
    given back the base style and sent to the back, then the layer found is
    highlighted, brought to the front and framed with padding 20 and zoom
    at most 15, each call only where the layer has the method; framing
    schedules one [invalidateSize] call 300 ms later, and nothing else is
    scheduled by the handler. *)
Theorem dropdown_selection_call_sequence {host : StringMethods} (s : App)
  (v : string) (l : Layer) :
  mapReady s = true -> mapRef s = true -> v <> "" ->
  resolveLayer (layerMapRef s) v = Some l ->
  mapCalls (handleSelectConservancy v s)
  = mapCalls s ++ revertCalls (selectedLayerRef s) ++ highlightCalls l
  /\ selectedLayerRef (handleSelectConservancy v s) = Some l
  /\ timers (handleSelectConservancy v s)
     = timers s ++ (if has_getBounds l
                    then [mkTimer (nextTimer s) 300 InvalidateSize]
                    else []).
Proof.
  intros Hready Hmap Hv Hres.
  set (s0 := setSelectedConservancy (orEmpty (Some v)) s).
  assert (Eh : handleSelectConservancy v s
               = highlightLayer l (revertSelected s0)).
  { unfold handleSelectConservancy. cbv zeta.
    rewrite Hready, Hmap. cbn [andb].
    unfold selectConservancyByName. fold s0.
    assert (E0 : mapRef s0 = true) by exact Hmap.
    rewrite E0, (truthy_nonempty v Hv). cbn [negb orEmpty].
    destruct (revertSelected_frame s0) as [(_ & _ & _ & _ & F5 & _) _].
    rewrite F5. subst s0. app_unfold. rewrite Hres. reflexivity. }
  destruct (revertSelected_calls s0) as (C1 & T1 & N1).
  destruct (highlightLayer_calls l (revertSelected s0)) as (C2 & T2).
  rewrite Eh. split; [|split].
  - rewrite C2, C1. subst s0. app_unfold. rewrite <- app_assoc. reflexivity.
  - apply highlightLayer_ref.
  - destruct (has_getBounds l) eqn:Eb.
    + rewrite (T2 eq_refl), T1, N1. reflexivity.
    + rewrite app_nil_r. unfold highlightLayer. rewrite Eb.
      destruct (has_setStyle l), (has_bringToFront l); app_unfold;
        exact T1.
Qed.

Lemma dropdown_selection_call_sequence_witness :
  let s := stateAfter (sampleLoaded ++ [SelectChange "Naapu"]) in
  mapCalls (handleSelectConservancy "Il Ngwesi" s)
  = mapCalls s
      ++ [SetStyle (polygon 0) conservancyStyle; BringToBack (polygon 0)]
      ++ [SetStyle (polygon 1) highlightStyle; BringToFront (polygon 1);
          FitBounds (polygon 1) (20, 20)%Z 15]
  /\ selectedLayerRef (handleSelectConservancy "Il Ngwesi" s)
     = Some (polygon 1)
  /\ timers (handleSelectConservancy "Il Ngwesi" s)
     = timers s ++ [mkTimer (nextTimer s) 300 InvalidateSize].
Proof.
  intros s.
  assert (Eref : selectedLayerRef s = Some (polygon 0))
    by (vm_compute; reflexivity).
  change [SetStyle (polygon 0) conservancyStyle; BringToBack (polygon 0)]
    with (revertCalls (Some (polygon 0))).
  rewrite <- Eref.
  apply (dropdown_selection_call_sequence s "Il Ngwesi" (polygon 1)).
  - vm_compute. reflexivity.
  - vm_compute. reflexivity.
  - discriminate.
  - vm_compute. reflexivity.
Defined.

(** X25.  Closing the panel cancels the debounced selection: after the
    close button the selection is empty and no debounce timer is pending,
    so no late timer highlights a region again; the same holds in every
    state without a selection. *)
Theorem close_cancels_debounce {host : StringMethods} (BASE_URL : string)
  (localeCompare : string -> string -> Z) (s : App) (p : SidePanel) :
  reachable BASE_URL localeCompare s -> sidePanel s = Some p ->
  (exists s', step BASE_URL localeCompare s CloseClick = Some s'
     /\ selectedConservancy s' = ""
     /\ forall x, x ∈ timers s' -> action x = InvalidateSize)
  /\ forall s0, reachable BASE_URL localeCompare s0 ->
       selectedConservancy s0 = "" ->
       forall x, x ∈ timers s0 -> action x = InvalidateSize.
Proof.
  intros Hr Hp.
  assert (Hgen : forall s0, reachable BASE_URL localeCompare s0 ->
            selectedConservancy s0 = "" ->
            forall x, x ∈ timers s0 -> action x = InvalidateSize).
  { intros s0 Hr0 Hsel x Hx.
    destruct (action x) as [n|] eqn:Ea; [|reflexivity].
    destruct (inv_debounce _ _ _ (reachable_timerInv _ _ _ Hr0) x n Hx Ea)
      as (_ & En & _ & Hn).
    congruence. }
  split; [|exact Hgen].
  assert (Hstep : step BASE_URL localeCompare s CloseClick
                  = Some (rerender BASE_URL localeCompare false s (onClose s))).
  { cbn [step]. rewrite Hp. reflexivity. }
  eexists. split; [exact Hstep|].
  assert (Hsel : selectedConservancy
                   (rerender BASE_URL localeCompare false s (onClose s)) = "").
  { destruct (rerender_frame BASE_URL localeCompare false s (onClose s))
      as (_ & R2 & _).
    destruct (onClose_frame s) as (_ & _ & F3 & _).
    cbv zeta in *. rewrite R2. exact F3. }
  split; [exact Hsel|].
  apply Hgen; [|exact Hsel].
  econstructor; [exact Hr|exact Hstep].
Qed.

Lemma close_cancels_debounce_witness :
  (exists s',
     step sampleBase sampleLocaleCompare
       (stateAfter (sampleLoaded ++ [SelectChange "Naapu"])) CloseClick
     = Some s'
     /\ selectedConservancy s' = ""
     /\ forall x, x ∈ timers s' -> action x = InvalidateSize)
  /\ forall s0, reachable sampleBase sampleLocaleCompare s0 ->
       selectedConservancy s0 = "" ->
       forall x, x ∈ timers s0 -> action x = InvalidateSize.
Proof.
  apply (close_cancels_debounce sampleBase sampleLocaleCompare
           (stateAfter (sampleLoaded ++ [SelectChange "Naapu"]))
           (mkSidePanel 0 "fc" None true false)).
  - apply (sampleRun_reachable (sampleLoaded ++ [SelectChange "Naapu"])).
    vm_compute. reflexivity.
  - vm_compute. reflexivity.
Defined.
